(** * Mailspring-Sync: the synchronization core, embedded in Rocq

    A shallow embedding of [MailProcessor.cpp], [SyncWorker.cpp],
    [main.cpp] (runTestAuth) and [task.cpp], with the properties of the
    design document proved about it.

    - the SQL store is a record of finite maps, one per table;
    - C++ code that throws runs in a state-and-exception monad; a
      [MailStoreTransaction] scope is the [transaction] combinator, which
      restores the store when its body throws;
    - the IMAP/SMTP sessions, the MIME parser and the helpers of
      [MailUtils] are external collaborators: they are the fields of the
      classes [MailUtils], [Host] and [IMAPSession]. *)

From stdpp Require Import base option list gmap strings sorting.
From Stdlib Require Import ZArith.

Local Open Scope Z_scope.

(** ** Machine integers *)

Definition UINT32_MAX : Z := 4294967295.
Definition UINT64_MAX : Z := 18446744073709551615.

(** Arithmetic on [uint32_t] and on [unsigned long] wraps around. *)
Definition wrap32 (z : Z) : Z := z mod 2 ^ 32.
Definition wrap64 (z : Z) : Z := z mod 2 ^ 64.

(** ** Exceptions *)

Inductive Exn : Type :=
| SQLiteException (errorCode : Z)   (* SQLite::Exception, getErrorCode() *)
| ErrorCodeExn (err : Z)            (* throw err; a mailcore ErrorCode *)
| StringExn (what : string).        (* throw "..." *)

#[global] Instance Exn_eq_dec : EqDecision Exn.
Proof. solve_decision. Defined.

(** SQLITE_CONSTRAINT *)
Definition SQLITE_CONSTRAINT : Z := 19.

(** ** The state-and-exception monad

    A computation over a state [St] returns a value or throws, and leaves
    a state behind in both cases: what was committed before a throw stays
    committed. *)

Definition M (St A : Type) : Type := St → (Exn + A) * St.

Definition ret {St A} (x : A) : M St A := λ s, (inr x, s).
Definition throw {St A} (e : Exn) : M St A := λ s, (inl e, s).
Definition bind {St A B} (m : M St A) (k : A → M St B) : M St B :=
  λ s, match m s with
       | (inl e, s') => (inl e, s')
       | (inr x, s') => k x s'
       end.
Definition get {St} : M St St := λ s, (inr s, s).
Definition put {St} (s : St) : M St unit := λ _, (inr tt, s).
Definition modify {St} (f : St → St) : M St unit := λ s, (inr tt, f s).

Declare Scope m_scope.
Delimit Scope m_scope with M.
Notation "'let*' x ':=' m 'in' k" := (bind m (λ x, k))
  (at level 10, x pattern, m at level 100, k at level 200) : m_scope.
Notation "m ';;' k" := (bind m (λ _, k))
  (at level 100, k at level 200, right associativity) : m_scope.
Local Open Scope m_scope.

(** [try { body } catch (e) { handler e }]: the handler runs in the state
    the throw left behind. *)
Definition try_catch {St A} (body : M St A) (handler : Exn → M St A) : M St A :=
  λ s, match body s with
       | (inl e, s') => handler e s'
       | r => r
       end.

(** A C++ [for] loop over a container, with a loop-carried value. *)
Fixpoint foldM {St A B} (f : B → A → M St B) (acc : B) (l : list A) : M St B :=
  match l with
  | [] => ret acc
  | x :: l' => let* acc' := f acc x in foldM f acc' l'
  end.

Definition forM_ {St A} (l : list A) (f : A → M St unit) : M St unit :=
  foldM (λ _ x, f x) tt l.

(** ** Data model *)

(** A contact as it appears in the to/cc/bcc/from JSON of a message. *)
Record ContactJSON : Type := {
  c_email : option string;
  c_name : option string;
}.

Record MessageHeader : Type := {
  messageID : string;
  isMessageIDAutoGenerated : bool;
  references : option (list string);   (* nullptr when there is none *)
  h_subject : string;
  h_date : Z;
  h_to : list ContactJSON;
  h_cc : list ContactJSON;
  h_bcc : list ContactJSON;
  h_from : list ContactJSON;
}.

(** A message as the IMAP library reports it. *)
Record IMAPMessage : Type := {
  uid : Z;                 (* uint32_t *)
  flagSeen : bool;
  flagFlagged : bool;
  flagDraft : bool;
  gmailLabels : list string;
  gmailThreadID : Z;       (* uint64_t, 0 when the server gives none *)
  header : MessageHeader;
}.

Record MessageAttributes : Type := {
  a_uid : Z;
  a_unread : bool;
  a_starred : bool;
  a_draft : bool;
  a_labels : list string;
}.

(** Modelled from the spec: [MessageAttributesForMessage] (MailUtils) is
    missing from the sources; the observable attributes of a remote
    message are its UID, unread, starred, draft and Gmail labels. *)
Definition MessageAttributesForMessage (msg : IMAPMessage) : MessageAttributes :=
  {| a_uid := uid msg;
     a_unread := negb (flagSeen msg);
     a_starred := flagFlagged msg;
     a_draft := flagDraft msg;
     a_labels := gmailLabels msg |}.

Record Folder : Type := {
  f_id : string;
  f_accountId : string;
  f_path : string;
  f_role : string;
  localStatus : gmap string Z;
}.

Record File : Type := {
  file_id : string;
  file_messageId : string;
  partId : string;
  filename : string;
  contentId : option string;
}.

Record Message : Type := {
  id : string;
  accountId : string;
  threadId : string;
  headerMessageId : string;
  subject : string;
  date : Z;
  to_ : list ContactJSON;
  cc : list ContactJSON;
  bcc : list ContactJSON;
  from_ : list ContactJSON;
  unread : bool;
  starred : bool;
  draft : bool;
  remoteUID : Z;
  remoteFolderId : string;
  clientFolderId : string;
  remoteXGMLabels : list string;
  syncedAt : Z;
  snippet : string;
  files : list File;
}.

Definition setThreadId (v : string) (m : Message) : Message :=
  {| id := id m; accountId := accountId m; threadId := v;
     headerMessageId := headerMessageId m; subject := subject m; date := date m;
     to_ := to_ m; cc := cc m; bcc := bcc m; from_ := from_ m;
     unread := unread m; starred := starred m; draft := draft m;
     remoteUID := remoteUID m; remoteFolderId := remoteFolderId m;
     clientFolderId := clientFolderId m; remoteXGMLabels := remoteXGMLabels m;
     syncedAt := syncedAt m; snippet := snippet m; files := files m |}.

Definition setUnread (v : bool) (m : Message) : Message :=
  {| id := id m; accountId := accountId m; threadId := threadId m;
     headerMessageId := headerMessageId m; subject := subject m; date := date m;
     to_ := to_ m; cc := cc m; bcc := bcc m; from_ := from_ m;
     unread := v; starred := starred m; draft := draft m;
     remoteUID := remoteUID m; remoteFolderId := remoteFolderId m;
     clientFolderId := clientFolderId m; remoteXGMLabels := remoteXGMLabels m;
     syncedAt := syncedAt m; snippet := snippet m; files := files m |}.

Definition setStarred (v : bool) (m : Message) : Message :=
  {| id := id m; accountId := accountId m; threadId := threadId m;
     headerMessageId := headerMessageId m; subject := subject m; date := date m;
     to_ := to_ m; cc := cc m; bcc := bcc m; from_ := from_ m;
     unread := unread m; starred := v; draft := draft m;
     remoteUID := remoteUID m; remoteFolderId := remoteFolderId m;
     clientFolderId := clientFolderId m; remoteXGMLabels := remoteXGMLabels m;
     syncedAt := syncedAt m; snippet := snippet m; files := files m |}.

Definition setDraft (v : bool) (m : Message) : Message :=
  {| id := id m; accountId := accountId m; threadId := threadId m;
     headerMessageId := headerMessageId m; subject := subject m; date := date m;
     to_ := to_ m; cc := cc m; bcc := bcc m; from_ := from_ m;
     unread := unread m; starred := starred m; draft := v;
     remoteUID := remoteUID m; remoteFolderId := remoteFolderId m;
     clientFolderId := clientFolderId m; remoteXGMLabels := remoteXGMLabels m;
     syncedAt := syncedAt m; snippet := snippet m; files := files m |}.

Definition setRemoteUID (v : Z) (m : Message) : Message :=
  {| id := id m; accountId := accountId m; threadId := threadId m;
     headerMessageId := headerMessageId m; subject := subject m; date := date m;
     to_ := to_ m; cc := cc m; bcc := bcc m; from_ := from_ m;
     unread := unread m; starred := starred m; draft := draft m;
     remoteUID := v; remoteFolderId := remoteFolderId m;
     clientFolderId := clientFolderId m; remoteXGMLabels := remoteXGMLabels m;
     syncedAt := syncedAt m; snippet := snippet m; files := files m |}.

Definition setRemoteFolder (f : Folder) (m : Message) : Message :=
  {| id := id m; accountId := accountId m; threadId := threadId m;
     headerMessageId := headerMessageId m; subject := subject m; date := date m;
     to_ := to_ m; cc := cc m; bcc := bcc m; from_ := from_ m;
     unread := unread m; starred := starred m; draft := draft m;
     remoteUID := remoteUID m; remoteFolderId := f_id f;
     clientFolderId := clientFolderId m; remoteXGMLabels := remoteXGMLabels m;
     syncedAt := syncedAt m; snippet := snippet m; files := files m |}.

Definition setClientFolder (f : Folder) (m : Message) : Message :=
  {| id := id m; accountId := accountId m; threadId := threadId m;
     headerMessageId := headerMessageId m; subject := subject m; date := date m;
     to_ := to_ m; cc := cc m; bcc := bcc m; from_ := from_ m;
     unread := unread m; starred := starred m; draft := draft m;
     remoteUID := remoteUID m; remoteFolderId := remoteFolderId m;
     clientFolderId := f_id f; remoteXGMLabels := remoteXGMLabels m;
     syncedAt := syncedAt m; snippet := snippet m; files := files m |}.

Definition setRemoteXGMLabels (v : list string) (m : Message) : Message :=
  {| id := id m; accountId := accountId m; threadId := threadId m;
     headerMessageId := headerMessageId m; subject := subject m; date := date m;
     to_ := to_ m; cc := cc m; bcc := bcc m; from_ := from_ m;
     unread := unread m; starred := starred m; draft := draft m;
     remoteUID := remoteUID m; remoteFolderId := remoteFolderId m;
     clientFolderId := clientFolderId m; remoteXGMLabels := v;
     syncedAt := syncedAt m; snippet := snippet m; files := files m |}.

Definition setSyncedAt (v : Z) (m : Message) : Message :=
  {| id := id m; accountId := accountId m; threadId := threadId m;
     headerMessageId := headerMessageId m; subject := subject m; date := date m;
     to_ := to_ m; cc := cc m; bcc := bcc m; from_ := from_ m;
     unread := unread m; starred := starred m; draft := draft m;
     remoteUID := remoteUID m; remoteFolderId := remoteFolderId m;
     clientFolderId := clientFolderId m; remoteXGMLabels := remoteXGMLabels m;
     syncedAt := v; snippet := snippet m; files := files m |}.

Definition setSnippet (v : string) (m : Message) : Message :=
  {| id := id m; accountId := accountId m; threadId := threadId m;
     headerMessageId := headerMessageId m; subject := subject m; date := date m;
     to_ := to_ m; cc := cc m; bcc := bcc m; from_ := from_ m;
     unread := unread m; starred := starred m; draft := draft m;
     remoteUID := remoteUID m; remoteFolderId := remoteFolderId m;
     clientFolderId := clientFolderId m; remoteXGMLabels := remoteXGMLabels m;
     syncedAt := syncedAt m; snippet := v; files := files m |}.

Definition setFiles (v : list File) (m : Message) : Message :=
  {| id := id m; accountId := accountId m; threadId := threadId m;
     headerMessageId := headerMessageId m; subject := subject m; date := date m;
     to_ := to_ m; cc := cc m; bcc := bcc m; from_ := from_ m;
     unread := unread m; starred := starred m; draft := draft m;
     remoteUID := remoteUID m; remoteFolderId := remoteFolderId m;
     clientFolderId := clientFolderId m; remoteXGMLabels := remoteXGMLabels m;
     syncedAt := syncedAt m; snippet := snippet m; files := v |}.

Record Thread : Type := {
  t_id : string;
  t_accountId : string;
  t_subject : string;
  gThrId : Z;
  categoriesSearchString : string;
  searchRowId : Z;          (* 0 when the thread is not indexed yet *)
}.

Definition setSearchRowId (v : Z) (t : Thread) : Thread :=
  {| t_id := t_id t; t_accountId := t_accountId t; t_subject := t_subject t;
     gThrId := gThrId t; categoriesSearchString := categoriesSearchString t;
     searchRowId := v |}.

Record ThreadReference : Type := {
  r_threadId : string;
  r_accountId : string;
  r_headerMessageId : string;
}.

#[global] Instance ThreadReference_eq_dec : EqDecision ThreadReference.
Proof. solve_decision. Defined.

(** A row of the ThreadSearch full-text table. *)
Record SearchRow : Type := {
  s_to : string;
  s_from : string;
  s_body : string;
  s_categories : string;
  s_content_id : string;
}.

Record Contact : Type := {
  ct_id : string;
  ct_accountId : string;
  ct_email : string;
  ct_info : ContactJSON;
  ct_refs : Z;
}.

Definition incrementRefs (c : Contact) : Contact :=
  {| ct_id := ct_id c; ct_accountId := ct_accountId c; ct_email := ct_email c;
     ct_info := ct_info c; ct_refs := ct_refs c + 1 |}.

(** ** The store *)

(** A delta sent to the UI channel: the operation, the entity kind, its id. *)
Inductive DeltaType : Type := Persist | Unpersist.

Record Delta : Type := {
  d_type : DeltaType;
  d_class : string;
  d_id : string;
}.

Record Store : Type := {
  Messages : gmap string Message;
  Threads : gmap string Thread;
  ThreadReferences : list ThreadReference;
  ThreadSearch : list SearchRow;           (* rowid = position + 1 *)
  MessageBodies : gmap string string;
  Files : gmap string File;
  Contacts : gmap string Contact;
  ContactSearch : list (string * string);
  Folders : gmap string Folder;
  Labels : gmap string Folder;
  ThreadCounts : gset string;
  disk : gmap string string;               (* attachment files, by path *)
  deltas : list Delta;                     (* emitted, oldest first *)
}.

Definition emptyStore : Store :=
  {| Messages := ∅; Threads := ∅; ThreadReferences := []; ThreadSearch := [];
     MessageBodies := ∅; Files := ∅; Contacts := ∅; ContactSearch := [];
     Folders := ∅; Labels := ∅; ThreadCounts := ∅; disk := ∅; deltas := [] |}.

Definition withMessages (f : gmap string Message → gmap string Message) (s : Store) : Store :=
  {| Messages := f (Messages s); Threads := Threads s;
     ThreadReferences := ThreadReferences s; ThreadSearch := ThreadSearch s;
     MessageBodies := MessageBodies s; Files := Files s; Contacts := Contacts s;
     ContactSearch := ContactSearch s; Folders := Folders s; Labels := Labels s;
     ThreadCounts := ThreadCounts s; disk := disk s; deltas := deltas s |}.

Definition withThreads (f : gmap string Thread → gmap string Thread) (s : Store) : Store :=
  {| Messages := Messages s; Threads := f (Threads s);
     ThreadReferences := ThreadReferences s; ThreadSearch := ThreadSearch s;
     MessageBodies := MessageBodies s; Files := Files s; Contacts := Contacts s;
     ContactSearch := ContactSearch s; Folders := Folders s; Labels := Labels s;
     ThreadCounts := ThreadCounts s; disk := disk s; deltas := deltas s |}.

Definition withThreadReferences (f : list ThreadReference → list ThreadReference) (s : Store) : Store :=
  {| Messages := Messages s; Threads := Threads s;
     ThreadReferences := f (ThreadReferences s); ThreadSearch := ThreadSearch s;
     MessageBodies := MessageBodies s; Files := Files s; Contacts := Contacts s;
     ContactSearch := ContactSearch s; Folders := Folders s; Labels := Labels s;
     ThreadCounts := ThreadCounts s; disk := disk s; deltas := deltas s |}.

Definition withThreadSearch (f : list SearchRow → list SearchRow) (s : Store) : Store :=
  {| Messages := Messages s; Threads := Threads s;
     ThreadReferences := ThreadReferences s; ThreadSearch := f (ThreadSearch s);
     MessageBodies := MessageBodies s; Files := Files s; Contacts := Contacts s;
     ContactSearch := ContactSearch s; Folders := Folders s; Labels := Labels s;
     ThreadCounts := ThreadCounts s; disk := disk s; deltas := deltas s |}.

Definition withMessageBodies (f : gmap string string → gmap string string) (s : Store) : Store :=
  {| Messages := Messages s; Threads := Threads s;
     ThreadReferences := ThreadReferences s; ThreadSearch := ThreadSearch s;
     MessageBodies := f (MessageBodies s); Files := Files s; Contacts := Contacts s;
     ContactSearch := ContactSearch s; Folders := Folders s; Labels := Labels s;
     ThreadCounts := ThreadCounts s; disk := disk s; deltas := deltas s |}.

Definition withFiles (f : gmap string File → gmap string File) (s : Store) : Store :=
  {| Messages := Messages s; Threads := Threads s;
     ThreadReferences := ThreadReferences s; ThreadSearch := ThreadSearch s;
     MessageBodies := MessageBodies s; Files := f (Files s); Contacts := Contacts s;
     ContactSearch := ContactSearch s; Folders := Folders s; Labels := Labels s;
     ThreadCounts := ThreadCounts s; disk := disk s; deltas := deltas s |}.

Definition withContacts (f : gmap string Contact → gmap string Contact) (s : Store) : Store :=
  {| Messages := Messages s; Threads := Threads s;
     ThreadReferences := ThreadReferences s; ThreadSearch := ThreadSearch s;
     MessageBodies := MessageBodies s; Files := Files s; Contacts := f (Contacts s);
     ContactSearch := ContactSearch s; Folders := Folders s; Labels := Labels s;
     ThreadCounts := ThreadCounts s; disk := disk s; deltas := deltas s |}.

Definition withContactSearch (f : list (string * string) → list (string * string)) (s : Store) : Store :=
  {| Messages := Messages s; Threads := Threads s;
     ThreadReferences := ThreadReferences s; ThreadSearch := ThreadSearch s;
     MessageBodies := MessageBodies s; Files := Files s; Contacts := Contacts s;
     ContactSearch := f (ContactSearch s); Folders := Folders s; Labels := Labels s;
     ThreadCounts := ThreadCounts s; disk := disk s; deltas := deltas s |}.

Definition withFolders (f : gmap string Folder → gmap string Folder) (s : Store) : Store :=
  {| Messages := Messages s; Threads := Threads s;
     ThreadReferences := ThreadReferences s; ThreadSearch := ThreadSearch s;
     MessageBodies := MessageBodies s; Files := Files s; Contacts := Contacts s;
     ContactSearch := ContactSearch s; Folders := f (Folders s); Labels := Labels s;
     ThreadCounts := ThreadCounts s; disk := disk s; deltas := deltas s |}.

Definition withLabels (f : gmap string Folder → gmap string Folder) (s : Store) : Store :=
  {| Messages := Messages s; Threads := Threads s;
     ThreadReferences := ThreadReferences s; ThreadSearch := ThreadSearch s;
     MessageBodies := MessageBodies s; Files := Files s; Contacts := Contacts s;
     ContactSearch := ContactSearch s; Folders := Folders s; Labels := f (Labels s);
     ThreadCounts := ThreadCounts s; disk := disk s; deltas := deltas s |}.

Definition withThreadCounts (f : gset string → gset string) (s : Store) : Store :=
  {| Messages := Messages s; Threads := Threads s;
     ThreadReferences := ThreadReferences s; ThreadSearch := ThreadSearch s;
     MessageBodies := MessageBodies s; Files := Files s; Contacts := Contacts s;
     ContactSearch := ContactSearch s; Folders := Folders s; Labels := Labels s;
     ThreadCounts := f (ThreadCounts s); disk := disk s; deltas := deltas s |}.

Definition withDisk (f : gmap string string → gmap string string) (s : Store) : Store :=
  {| Messages := Messages s; Threads := Threads s;
     ThreadReferences := ThreadReferences s; ThreadSearch := ThreadSearch s;
     MessageBodies := MessageBodies s; Files := Files s; Contacts := Contacts s;
     ContactSearch := ContactSearch s; Folders := Folders s; Labels := Labels s;
     ThreadCounts := ThreadCounts s; disk := f (disk s); deltas := deltas s |}.

Definition withDeltas (f : list Delta → list Delta) (s : Store) : Store :=
  {| Messages := Messages s; Threads := Threads s;
     ThreadReferences := ThreadReferences s; ThreadSearch := ThreadSearch s;
     MessageBodies := MessageBodies s; Files := Files s; Contacts := Contacts s;
     ContactSearch := ContactSearch s; Folders := Folders s; Labels := Labels s;
     ThreadCounts := ThreadCounts s; disk := disk s; deltas := f (deltas s) |}.

(** ** Queries

    The query builder of the store: a conjunction of equality and
    set-membership clauses over named columns, and an optional limit. *)

Inductive ColValue : Type := CStr (s : string) | CInt (z : Z).

#[global] Instance ColValue_eq_dec : EqDecision ColValue.
Proof. solve_decision. Defined.

Record Query : Type := {
  clauses : list (string * list ColValue);   (* column, accepted values *)
  q_limit : option nat;
}.

Definition Query_ : Query := {| clauses := []; q_limit := None |}.

Definition equal (col : string) (v : ColValue) (q : Query) : Query :=
  {| clauses := clauses q ++ [(col, [v])]; q_limit := q_limit q |}.

Definition equalAny (col : string) (vs : list ColValue) (q : Query) : Query :=
  {| clauses := clauses q ++ [(col, vs)]; q_limit := q_limit q |}.

Definition limit (n : nat) (q : Query) : Query :=
  {| clauses := clauses q; q_limit := Some n |}.

(** The interface every stored entity implements ([MailModel]): its table,
    its id, and the columns a query can name. *)
Class MailModel (T : Type) : Type := {
  tableName : string;
  modelId : T → string;
  column : string → T → option ColValue;
  table : Store → gmap string T;
  withTable : (gmap string T → gmap string T) → Store → Store;
}.

(** SyncWorker.cpp names the UID and folder columns [folderImapUID] and
    [folderId]; MailProcessor.cpp names them [remoteUID] and
    [remoteFolderId]. They are the same two columns. *)
Definition messageColumn (col : string) (m : Message) : option ColValue :=
  if bool_decide (col = "id") then Some (CStr (id m))
  else if bool_decide (col = "accountId") then Some (CStr (accountId m))
  else if bool_decide (col = "threadId") then Some (CStr (threadId m))
  else if bool_decide (col = "headerMessageId") then Some (CStr (headerMessageId m))
  else if bool_decide (col = "remoteUID") then Some (CInt (remoteUID m))
  else if bool_decide (col = "folderImapUID") then Some (CInt (remoteUID m))
  else if bool_decide (col = "remoteFolderId") then Some (CStr (remoteFolderId m))
  else if bool_decide (col = "folderId") then Some (CStr (remoteFolderId m))
  else None.

#[global] Instance Message_model : MailModel Message :=
  {| tableName := "Message"; modelId := id; column := messageColumn;
     table := Messages; withTable := withMessages |}.

Definition threadColumn (col : string) (t : Thread) : option ColValue :=
  if bool_decide (col = "id") then Some (CStr (t_id t))
  else if bool_decide (col = "accountId") then Some (CStr (t_accountId t))
  else if bool_decide (col = "gThrId") then Some (CInt (gThrId t))
  else None.

#[global] Instance Thread_model : MailModel Thread :=
  {| tableName := "Thread"; modelId := t_id; column := threadColumn;
     table := Threads; withTable := withThreads |}.

Definition folderColumn (col : string) (f : Folder) : option ColValue :=
  if bool_decide (col = "id") then Some (CStr (f_id f))
  else if bool_decide (col = "accountId") then Some (CStr (f_accountId f))
  else if bool_decide (col = "path") then Some (CStr (f_path f))
  else if bool_decide (col = "role") then Some (CStr (f_role f))
  else None.

#[global] Instance Folder_model : MailModel Folder :=
  {| tableName := "Folder"; modelId := f_id; column := folderColumn;
     table := Folders; withTable := withFolders |}.

Definition fileColumn (col : string) (f : File) : option ColValue :=
  if bool_decide (col = "id") then Some (CStr (file_id f))
  else if bool_decide (col = "messageId") then Some (CStr (file_messageId f))
  else None.

#[global] Instance File_model : MailModel File :=
  {| tableName := "File"; modelId := file_id; column := fileColumn;
     table := Files; withTable := withFiles |}.

Definition contactColumn (col : string) (c : Contact) : option ColValue :=
  if bool_decide (col = "id") then Some (CStr (ct_id c))
  else if bool_decide (col = "accountId") then Some (CStr (ct_accountId c))
  else if bool_decide (col = "email") then Some (CStr (ct_email c))
  else None.

#[global] Instance Contact_model : MailModel Contact :=
  {| tableName := "Contact"; modelId := ct_id; column := contactColumn;
     table := Contacts; withTable := withContacts |}.

(** A row satisfies a clause when the named column holds one of the
    accepted values; a column the table does not have matches nothing. *)
Definition clauseHolds `{MailModel T} (row : T) (cl : string * list ColValue) : bool :=
  match column cl.1 row with
  | Some v => bool_decide (v ∈ cl.2)
  | None => false
  end.

Definition matches `{MailModel T} (q : Query) (row : T) : bool :=
  forallb (clauseHolds row) (clauses q).

Definition applyLimit {A} (q : Query) (l : list A) : list A :=
  match q_limit q with
  | Some n => take n l
  | None => l
  end.

Definition selectAll `{MailModel T} (q : Query) (s : Store) : list T :=
  applyLimit q (filter (λ row, matches q row = true) (map_to_list (table s)).*2).

(** ** External collaborators *)

Record Attachment : Type := {
  partID : string;
  att_filename : string;
  att_contentID : option string;
  att_data : string;
}.

(** What the MIME parser yields for a fetched message: the rendered HTML,
    its flattened text with whitespace stripped, and the attachments. *)
Record MessageParser : Type := {
  htmlRendering : string;
  flattenedText : string;
  attachments : list Attachment;
  htmlInlineAttachments : list Attachment;
}.

Record IMAPFolder : Type := {
  imf_path : string;
  noSelect : bool;          (* flags() & IMAPFolderFlagNoSelect *)
}.

Record Account : Type := {
  acc_id : string;
}.

(** The static helpers of [MailUtils] and the ids the model constructors
    derive; none of them is in the sources given. *)
Class MailUtils : Type := {
  idForMessage : string → string → IMAPMessage → string;
  idForFolder : string → string;
  roleForFolder : IMAPFolder → string;
  contactKeyForEmail : string → string;
  pathForFile : File → string;
  idForThread : string → string;              (* Thread(msgId, ...) *)
  idForFile : Message → Attachment → string;   (* File(message, attachment) *)
  idForContact : string → string → string;     (* Contact(accountId, email, json) *)
  searchContent : Contact → string;
  isSentByUser : Message → bool;
}.

(** A statement sent to the SQL engine. *)
Inductive DbStmt : Type :=
| InsertInto (tbl key : string)
| InsertOrIgnore (tbl key : string)
| ReplaceInto (tbl key : string)
| UpdateRow (tbl key : string)
| DeleteFrom (tbl key : string).

(** The host the process runs on: the SQL engine may refuse a statement
    with an error code of its own (disk full, database locked, ...), a
    write to the file system may fail, and the n-th reading of the clock
    ([time(0)]) gives [clock n].

    SyncWorker.cpp calls [insertFallbackToUpdateMessage] and
    [updateMessage] without the [syncDataTimestamp] that their definitions
    in MailProcessor.cpp take, and the declaration that supplies the
    argument is not in the sources: [defaultSyncDataTimestamp n] is the
    value the processor gets at such a call made after [n] readings of the
    clock. Taking it is no reading of the clock. *)
Class Host : Type := {
  sqliteFault : DbStmt → option Z;
  writeToFileFails : string → bool;
  clock : nat → Z;
  defaultSyncDataTimestamp : nat → Z;
}.

(** ** MailStore

    Modelled from the spec: [MailStore] and [MailStoreTransaction] are
    missing from the sources. Section 4.1: [save] is insert-or-update and
    generates a delta when [emit] is set; [remove] deletes and generates a
    delta; [find]/[findAll] return zero or many entities; a transaction
    rolls back on any failure, and its deltas are only seen once it
    commits. Section 4.2.1: the insert of a message whose id is already
    stored fails with a unique-constraint violation.

    Section 3 adds that a thread is deleted when its last message is
    removed. The sources given do not show what does it (the models'
    hooks are missing as well), and [remove] is the deletion of the row,
    with its delta, and nothing more: what is proved of a removal below is
    stated of the Message table and of the deltas of messages, and holds
    whether or not the thread goes with its last message. *)

Section MailStore.
Context `{Host}.

Definition exec (stmt : DbStmt) : M Store unit :=
  match sqliteFault stmt with
  | Some code => throw (SQLiteException code)
  | None => ret tt
  end.

Definition emitDelta `{MailModel T} (ty : DeltaType) (row : T) : M Store unit :=
  modify (withDeltas (λ ds, ds ++
    [{| d_type := ty; d_class := tableName (T:=T); d_id := modelId row |}])).

(** [save] of an entity that was constructed in memory: an INSERT. *)
Definition saveNew `{MailModel T} (row : T) (emit : bool) : M Store unit :=
  exec (InsertInto (tableName (T:=T)) (modelId row));;
  let* s := get in
  match table s !! modelId row with
  | Some _ => throw (SQLiteException SQLITE_CONSTRAINT)
  | None =>
      modify (withTable (insert (modelId row) row));;
      if emit then emitDelta Persist row else ret tt
  end.

(** [save] of an entity that was loaded from the store: an UPDATE of the
    row with its id. *)
Definition saveLoaded `{MailModel T} (row : T) (emit : bool) : M Store unit :=
  exec (UpdateRow (tableName (T:=T)) (modelId row));;
  modify (withTable (alter (λ _, row) (modelId row)));;
  if emit then emitDelta Persist row else ret tt.

Definition save `{MailModel T} (loaded : bool) (row : T) (emit : bool) : M Store unit :=
  if loaded then saveLoaded row emit else saveNew row emit.

Definition remove `{MailModel T} (row : T) : M Store unit :=
  exec (DeleteFrom (tableName (T:=T)) (modelId row));;
  modify (withTable (delete (modelId row)));;
  emitDelta Unpersist row.

Definition findAll `{MailModel T} (q : Query) : M Store (list T) :=
  λ s, (inr (selectAll q s), s).

Definition find `{MailModel T} (q : Query) : M Store (option T) :=
  λ s, (inr (head (selectAll q s)), s).

Definition findAllMap `{MailModel T} (q : Query) : M Store (gmap string T) :=
  λ s, (inr (list_to_map ((λ row, (modelId row, row)) <$> selectAll q s)), s).

(** The scope of a [MailStoreTransaction]: when the body throws, the
    store is what it was when the scope was entered. *)
Definition transaction {A} (body : M Store A) : M Store A :=
  λ s, match body s with
       | (inl e, _) => (inl e, s)
       | r => r
       end.
End MailStore.

(** ** MailProcessor.cpp *)

(** Modelled from the spec: the constructor [Message(mMsg, folder,
    syncDataTimestamp)] is missing from the sources. The message takes the
    deterministic id, the account of the folder, the header fields and the
    observable attributes of the remote message, and is bound to the
    folder. *)
Definition newMessage `{MailUtils} (mMsg : IMAPMessage) (folder : Folder)
    (syncDataTimestamp : Z) : Message :=
  let attrs := MessageAttributesForMessage mMsg in
  {| id := idForMessage (f_accountId folder) (f_path folder) mMsg;
     accountId := f_accountId folder;
     threadId := "";
     headerMessageId := messageID (header mMsg);
     subject := h_subject (header mMsg);
     date := h_date (header mMsg);
     to_ := h_to (header mMsg); cc := h_cc (header mMsg);
     bcc := h_bcc (header mMsg); from_ := h_from (header mMsg);
     unread := a_unread attrs; starred := a_starred attrs; draft := a_draft attrs;
     remoteUID := a_uid attrs;
     remoteFolderId := f_id folder; clientFolderId := f_id folder;
     remoteXGMLabels := a_labels attrs;
     syncedAt := syncDataTimestamp;
     snippet := ""; files := [] |}.

(** Modelled from the spec: the constructor [Thread(msgId, accountId,
    subject, gmailThreadID)] is missing from the sources; a new thread
    takes its subject from the message (section 4.2.2). *)
Definition newThread `{MailUtils} (msgId accountId subject : string) (gThreadId : Z) : Thread :=
  {| t_id := idForThread msgId; t_accountId := accountId; t_subject := subject;
     gThrId := gThreadId; categoriesSearchString := ""; searchRowId := 0 |}.

(** Modelled from the spec: the constructor [File(message, attachment)] is
    missing from the sources. *)
Definition newFile `{MailUtils} (message : Message) (a : Attachment) : File :=
  {| file_id := idForFile message a; file_messageId := id message;
     partId := partID a; filename := att_filename a; contentId := att_contentID a |}.

Definition setContentId (v : string) (f : File) : File :=
  {| file_id := file_id f; file_messageId := file_messageId f; partId := partId f;
     filename := filename f; contentId := Some v |}.

(** Modelled from the spec: the constructor [Contact(accountId, email,
    json)] is missing from the sources. *)
Definition newContact `{MailUtils} (accountId email : string) (c : ContactJSON) : Contact :=
  {| ct_id := idForContact accountId email; ct_accountId := accountId;
     ct_email := email; ct_info := c; ct_refs := 0 |}.

(** [strstr(haystack, needle) != nullptr] *)
Definition strstr (haystack needle : string) : bool :=
  bool_decide (is_Some (String.index 0 needle haystack)).

Definition substringToIndex (n : nat) (s : string) : string := String.substring 0 n s.

Section MailProcessor.
Context `{MailUtils} `{Host}.
Variable account : Account.

(** *** appendToThreadSearchContent *)

Definition appendContact (acc : string) (c : ContactJSON) : string :=
  let acc := match c_email c with Some e => acc +:+ " " +:+ e | None => acc end in
  match c_name c with Some n => acc +:+ " " +:+ n | None => acc end.

Definition searchRowAt (rowid : Z) (rows : list SearchRow) : option SearchRow :=
  if bool_decide (0 < rowid) then rows !! Z.to_nat (rowid - 1) else None.

Definition appendToThreadSearchContent (thread : Thread)
    (messageToAppendOrNull : option Message) (bodyToAppendOrNull : option string)
    : M Store Thread :=
  let* s := get in
  let existing :=
    if bool_decide (searchRowId thread ≠ 0)
    then searchRowAt (searchRowId thread) (ThreadSearch s) else None in
  let to := from_option s_to "" existing in
  let from := from_option s_from "" existing in
  let categories := categoriesSearchString thread in
  let body := from_option s_body (t_subject thread) existing in
  let to := match messageToAppendOrNull with
            | Some m => foldl appendContact
                          (foldl appendContact (foldl appendContact to (to_ m)) (cc m))
                          (bcc m)
            | None => to
            end in
  let from := match messageToAppendOrNull with
              | Some m => foldl appendContact from (from_ m)
              | None => from
              end in
  let body := match bodyToAppendOrNull with
              | Some b => body +:+ " " +:+ substringToIndex 5000 b
              | None => body
              end in
  if bool_decide (searchRowId thread ≠ 0) then
    exec (UpdateRow "ThreadSearch" (t_id thread));;
    modify (withThreadSearch (λ rows,
      if bool_decide (0 < searchRowId thread)
      then alter (λ old, {| s_to := to; s_from := from; s_body := body;
                            s_categories := categories;
                            s_content_id := s_content_id old |})
                 (Z.to_nat (searchRowId thread - 1)) rows
      else rows));;
    ret thread
  else
    exec (InsertInto "ThreadSearch" (t_id thread));;
    modify (withThreadSearch (λ rows, rows ++
      [{| s_to := to; s_from := from; s_body := body; s_categories := categories;
          s_content_id := t_id thread |}]));;
    let* s' := get in
    ret (setSearchRowId (Z.of_nat (length (ThreadSearch s'))) thread).

(** *** upsertThreadReferences *)

(** [INSERT OR IGNORE INTO ThreadReference]: a row that is already there
    is left alone. *)
Definition insertOrIgnoreReference (r : ThreadReference) : M Store unit :=
  exec (InsertOrIgnore "ThreadReference" (r_headerMessageId r));;
  modify (withThreadReferences (λ rows,
    if bool_decide (r ∈ rows) then rows else rows ++ [r])).

Definition upsertThreadReferences (threadId accountId headerMessageId : string)
    (references : list string) : M Store unit :=
  insertOrIgnoreReference
    {| r_threadId := threadId; r_accountId := accountId;
       r_headerMessageId := headerMessageId |};;
  forM_ (take (100 `min` length references) references) (λ address,
    insertOrIgnoreReference
      {| r_threadId := threadId; r_accountId := accountId;
         r_headerMessageId := address |}).

(** *** upsertContacts *)

Definition byEmailOf (cs : list ContactJSON) (byEmail : gmap string ContactJSON)
    : gmap string ContactJSON :=
  foldl (λ acc c, match c_email c with
                  | Some e => <[contactKeyForEmail e := c]> acc
                  | None => acc
                  end) byEmail cs.

(** A [std::map<string, json>] is iterated in the order of its keys. *)
Definition byKey (a b : string * ContactJSON) : Prop := String.leb a.1 b.1 = true.

#[global] Instance byKey_dec a b : Decision (byKey a b).
Proof. unfold byKey. apply _. Defined.

Definition inKeyOrder (byEmail : gmap string ContactJSON) : list (string * ContactJSON) :=
  merge_sort byKey (map_to_list byEmail).

Definition upsertContacts (message : Message) : M Store unit :=
  let byEmail := byEmailOf (from_ message) (byEmailOf (cc message) (byEmailOf (to_ message) ∅)) in
  (* contactKeyForEmail returns "" for some emails. Toss out that item *)
  let byEmail := delete "" byEmail in
  let emails := (inKeyOrder byEmail).*1 in
  if bool_decide (25 < length emails)%nat then ret tt
  else
    let query := equalAny "email" (CStr <$> emails) Query_ in
    let* results := findAll (T:=Contact) query in
    let incrementCounters := isSentByUser message in
    let* byEmail := foldM (λ (byEmail : gmap string ContactJSON) (result : Contact),
        (if incrementCounters then saveLoaded (incrementRefs result) false else ret tt);;
        ret (delete (ct_email result) byEmail)) byEmail results in
    if bool_decide (size byEmail = 0%nat) then ret tt
    else
      forM_ (inKeyOrder byEmail) (λ result,
        let c := newContact (accountId message) result.1 result.2 in
        let c := if incrementCounters then incrementRefs c else c in
        saveNew c false;;
        exec (InsertInto "ContactSearch" (ct_id c));;
        modify (withContactSearch (λ rows, rows ++ [(ct_id c, searchContent c)]))).

(** *** insertMessage *)

(** The thread that a ThreadReference row with one of the given
    Message-Ids points to ([SELECT Thread.* ... INNER JOIN ThreadReference
    ... LIMIT 1]). *)
Definition findThreadByReferences (accountId : string) (headerMessageIds : list string)
    : M Store (option Thread) :=
  λ s, (inr (head (omap (λ r,
            if bool_decide (r_accountId r = accountId ∧ r_headerMessageId r ∈ headerMessageIds)
            then Threads s !! r_threadId r else None) (ThreadReferences s))), s).

Definition insertMessage (mMsg : IMAPMessage) (folder : Folder) (syncDataTimestamp : Z)
    : M Store Message :=
  let msg := newMessage mMsg folder syncDataTimestamp in
  let references := default [] (references (header mMsg)) in
  transaction (
    (* Find the correct thread *)
    let* found :=
      if bool_decide (gmailThreadID mMsg ≠ 0) then
        find (T:=Thread) (equal "gThrId" (CInt (gmailThreadID mMsg)) Query_)
      else if negb (isMessageIDAutoGenerated (header mMsg)) then
        let refcount := (50 `min` length references)%nat in
        findThreadByReferences (accountId msg)
          (headerMessageId msg :: take refcount references)
      else ret None in
    let thread :=
      match found with
      | Some t => t
      | None => newThread (id msg) (acc_id account) (subject msg) (gmailThreadID mMsg)
      end in
    let msg := setThreadId (t_id thread) msg in
    let* thread := appendToThreadSearchContent thread (Some msg) None in
    save (bool_decide (is_Some found)) thread true;;
    saveNew msg true;;
    upsertThreadReferences (t_id thread) (t_accountId thread) (headerMessageId msg) references;;
    upsertContacts msg;;
    ret msg).

(** *** updateMessage

    [local] is mutated in place by the C++ code; the updated object is
    the value returned here. *)
Definition updateMessage (local : Message) (remote : IMAPMessage) (folder : Folder)
    (syncDataTimestamp : Z) : M Store Message :=
  if bool_decide (syncedAt local > syncDataTimestamp) then ret local
  else
    let updated := MessageAttributesForMessage remote in
    let jlabels := a_labels updated in
    let noChanges := true in
    let noChanges := if bool_decide (a_unread updated ≠ unread local) then false else noChanges in
    let noChanges := if bool_decide (a_starred updated ≠ starred local) then false else noChanges in
    let noChanges := if bool_decide (a_draft updated ≠ draft local) then false else noChanges in
    let noChanges := if bool_decide (a_uid updated ≠ remoteUID local) then false else noChanges in
    let noChanges := if bool_decide (f_id folder ≠ remoteFolderId local) then false else noChanges in
    let noChanges := if bool_decide (jlabels ≠ remoteXGMLabels local) then false else noChanges in
    if noChanges then ret local
    else
      transaction (
        let local := setUnread (a_unread updated) local in
        let local := setStarred (a_starred updated) local in
        let local := setDraft (a_draft updated) local in
        let local := setRemoteUID (a_uid updated) local in
        let local := setRemoteFolder folder local in
        let local := setSyncedAt syncDataTimestamp local in
        let local := setClientFolder folder local in
        let local := setRemoteXGMLabels jlabels local in
        saveLoaded local true;;
        ret local).

(** *** insertFallbackToUpdateMessage *)

Definition insertFallbackToUpdateMessage (mMsg : IMAPMessage) (folder : Folder)
    (syncDataTimestamp : Z) : M Store Message :=
  try_catch (insertMessage mMsg folder syncDataTimestamp) (λ ex,
    match ex with
    | SQLiteException errorCode =>
        if bool_decide (errorCode ≠ 19) then throw ex   (* constraint failed *)
        else
          let q := equal "id"
                     (CStr (idForMessage (f_accountId folder) (f_path folder) mMsg)) Query_ in
          let* localMessage := find (T:=Message) q in
          match localMessage with
          | None => throw ex
          | Some local => updateMessage local mMsg folder syncDataTimestamp
          end
    | _ => throw ex
    end).

(** *** retrievedMessageBody *)

Definition retrievedFileData (file : File) (data : string) : M Store bool :=
  let path := pathForFile file in
  if writeToFileFails path then ret false
  else modify (withDisk (insert path data));; ret true.

(** The loop that saves the File rows: [try { store->save(&file); }
    catch (SQLite::Exception & ex) { logger->warn(...); }]. *)
Definition saveFiles (files : list File) : M Store unit :=
  forM_ files (λ file,
    try_catch (saveNew file true) (λ ex,
      match ex with
      | SQLiteException _ => ret tt
      | _ => throw ex
      end)).

Definition retrievedMessageBody (message : Message) (parser : MessageParser)
    : M Store Message :=
  let html := htmlRendering parser in
  let text := flattenedText parser in
  (* build file containers for the attachments and write them to disk *)
  let* files := foldM (λ (files : list File) (a : Attachment),
      let f := newFile message a in
      let duplicate := existsb (λ other, bool_decide (partId other = partID a)) files in
      let f := if bool_decide (contentId f = None) && strstr html ("cid:" +:+ filename f)
               then setContentId (filename f) f else f in
      if negb duplicate then
        retrievedFileData f (att_data a);;
        ret (files ++ [f])
      else ret files) [] (attachments parser ++ htmlInlineAttachments parser) in
  transaction (
    (* write body to the MessageBodies table *)
    exec (ReplaceInto "MessageBody" (id message));;
    modify (withMessageBodies (insert (id message) html));;
    (* write files to the files table *)
    saveFiles files;;
    (* append the body text to the thread's FTS5 search index *)
    let* thread := find (T:=Thread) (equal "id" (CStr (threadId message)) Query_) in
    match thread with
    | Some t => appendToThreadSearchContent t None (Some text);; ret tt
    | None => ret tt
    end;;
    let message := setSnippet (substringToIndex 400 text) message in
    let message := setFiles files message in
    saveLoaded message true;;
    ret message).

(** *** unlinkMessagesMatchingQuery *)

Definition unlinkMessages (deletedMsgs : list Message) (phase : Z) : M Store unit :=
  forM_ deletedMsgs (λ msg,
    if bool_decide (remoteUID msg > UINT32_MAX - 5) then
      (* we unlinked this message in a previous cycle and it will be deleted momentarily. *)
      ret tt
    else
      (* we know we don't need to emit this change because the client can't see the remoteUID *)
      saveLoaded (setRemoteUID (wrap32 (UINT32_MAX - phase)) msg) false).

Definition unlinkMessagesMatchingQuery (query : Query) (phase : Z) : M Store unit :=
  transaction (
    let* deletedMsgs := findAll (T:=Message) query in
    unlinkMessages deletedMsgs phase).

(** *** deleteMessagesStillUnlinkedFromPhase *)

Definition chunkSize : nat := 100.

Definition stillUnlinkedQuery (phase : Z) : Query :=
  limit chunkSize
    (equal "remoteUID" (CInt (wrap32 (UINT32_MAX - phase)))
      (equal "accountId" (CStr (acc_id account)) Query_)).

(** One turn of the [while (more)] loop: a transaction that removes a
    chunk; the value is the new [more]. *)
Definition deleteChunk (phase : Z) : M Store bool :=
  transaction (
    let* messages := findAll (T:=Message) (stillUnlinkedQuery phase) in
    let more := negb (bool_decide (length messages < chunkSize)%nat) in
    forM_ messages (λ msg, remove msg);;
    ret more).

(** The loop, unrolled at most [fuel] times; the value says whether the
    loop was left because [more] became false. *)
Fixpoint deleteLoop (fuel : nat) (phase : Z) : M Store bool :=
  match fuel with
  | O => ret false
  | S fuel' =>
      let* more := deleteChunk phase in
      if more then deleteLoop fuel' phase else ret true
  end.

Definition deleteMessagesStillUnlinkedFromPhase (phase : Z) : M Store bool :=
  λ s, deleteLoop (S (size (Messages s))) phase s.

End MailProcessor.

(** ** The IMAP session *)

Definition ErrorNone : Z := 0.
Definition ErrorInvalidAccount : Z := 10.

Record Range : Type := {
  location : Z;
  length_ : Z;
}.

Definition RangeMake (loc len : Z) : Range := {| location := loc; length_ := len |}.

Record IMAPFolderStatus : Type := {
  uidNext : Z;
  uidValidity : Z;
  highestModSeqValue : Z;
  messageCount : Z;
}.

Record IMAPSyncResult : Type := {
  modifiedOrAddedMessages : list IMAPMessage;
  vanishedMessages : option (list Z);     (* NULL unless QRESYNC is available *)
}.

Record Capabilities : Type := {
  IMAPCapabilityCondstore : bool;
  IMAPCapabilityQResync : bool;
  IMAPCapabilityGmail : bool;
}.

(** What the remote mailbox answers. A call gives an error code or a
    result; the answers do not depend on when the call is made, so an
    instance of this class is a remote mailbox that does not change. *)
Class IMAPSession : Type := {
  storedCapabilities : Capabilities;
  fetchAllFolders : Z + list IMAPFolder;
  folderStatus : string → Z * IMAPFolderStatus;
  fetchMessagesByUID : string → Range → Z + list IMAPMessage;
  syncMessagesByUID : string → Range → Z → Z + IMAPSyncResult;
  fetchMessageByUID : string → Z → Z + MessageParser;
}.

(** The commands a worker has sent over its session. *)
Inductive IMAPCommand : Type :=
| CmdFetchAllFolders
| CmdFolderStatus (path : string)
| CmdFetchMessagesByUID (path : string) (range : Range)
| CmdSyncMessagesByUID (path : string) (range : Range) (modseq : Z)
| CmdFetchMessageByUID (path : string) (uid : Z).

(** ** SyncWorker.cpp *)

Record Worker : Type := {
  store : Store;
  unlinkPhase : Z;
  sent : list IMAPCommand;     (* oldest first *)
  clockReads : nat;
}.

Definition withStore (f : Store → Store) (w : Worker) : Worker :=
  {| store := f (store w); unlinkPhase := unlinkPhase w; sent := sent w;
     clockReads := clockReads w |}.

Definition setUnlinkPhase (v : Z) (w : Worker) : Worker :=
  {| store := store w; unlinkPhase := v; sent := sent w; clockReads := clockReads w |}.

(** [SyncWorker::SyncWorker]: a worker starts in unlink phase 1. *)
Definition newWorker (s : Store) : Worker :=
  {| store := s; unlinkPhase := 1; sent := []; clockReads := 0 |}.

(** A store operation, run by a worker. *)
Definition onStore {A} (m : M Store A) : M Worker A :=
  λ w, let '(r, s') := m (store w) in (r, withStore (λ _, s') w).

Definition send (c : IMAPCommand) : M Worker unit :=
  modify (λ w, {| store := store w; unlinkPhase := unlinkPhase w;
                  sent := sent w ++ [c]; clockReads := clockReads w |}).

(** [time(0)] *)
Definition time_0 `{Host} : M Worker Z :=
  λ w, (inr (clock (clockReads w)),
        {| store := store w; unlinkPhase := unlinkPhase w; sent := sent w;
           clockReads := S (clockReads w) |}).

Definition setLocalStatus (ls : gmap string Z) (f : Folder) : Folder :=
  {| f_id := f_id f; f_accountId := f_accountId f; f_path := f_path f;
     f_role := f_role f; localStatus := ls |}.

Definition setPathAndRole (path role : string) (f : Folder) : Folder :=
  {| f_id := f_id f; f_accountId := f_accountId f; f_path := path;
     f_role := role; localStatus := localStatus f |}.

(** [Folder(id, accountId, version)] *)
Definition newFolder (id accountId : string) : Folder :=
  {| f_id := id; f_accountId := accountId; f_path := ""; f_role := "";
     localStatus := ∅ |}.

(** The Label table holds the same entity as the Folder table. *)
Definition Label_model : MailModel Folder :=
  {| tableName := "Label"; modelId := f_id; column := folderColumn;
     table := Labels; withTable := withLabels |}.

Definition TEN_MINUTES : Z := 60 * 10.

Definition defaultAttributes : MessageAttributes :=
  {| a_uid := 0; a_unread := false; a_starred := false; a_draft := false; a_labels := [] |}.

(** Modelled from the spec: [MessageAttributesMatch] (MailUtils) is missing
    from the sources; two attribute sets match when no observable attribute
    differs. *)
Definition MessageAttributesMatch (a b : MessageAttributes) : bool :=
  bool_decide (a_uid a = a_uid b) && bool_decide (a_unread a = a_unread b) &&
  bool_decide (a_starred a = a_starred b) && bool_decide (a_draft a = a_draft b) &&
  bool_decide (a_labels a = a_labels b).

Definition attributesOfMessage (m : Message) : MessageAttributes :=
  {| a_uid := remoteUID m; a_unread := unread m; a_starred := starred m;
     a_draft := draft m; a_labels := remoteXGMLabels m |}.

(** Modelled from the spec: [MailStore::fetchMessagesAttributesInRange] is
    missing from the sources. Section 4.3.2: the local (uid -> attributes)
    map of the folder for the UID range [lo, hi). *)
Definition fetchMessagesAttributesInRange (range : Range) (folder : Folder) (s : Store)
    : gmap Z MessageAttributes :=
  list_to_map
    ((λ m, (remoteUID m, attributesOfMessage m)) <$>
     filter (λ m, remoteFolderId m = f_id folder ∧
                  location range ≤ remoteUID m < location range + length_ range)
            (map_to_list (Messages s)).*2).

(** [ORDER BY ... DESC] *)
Definition descending {A} (key : A → Z) (a b : A) : Prop := key b ≤ key a.

#[global] Instance descending_dec {A} (key : A → Z) a b : Decision (descending key a b).
Proof. unfold descending. apply _. Defined.

(** Modelled from the spec: [MailStore::fetchMessageUIDAtDepth] is missing
    from the sources. It bounds the shallow scan of section 4.3: the UID of
    the local message of the folder that has [depth] messages above it
    among those below [before], or 1 when the folder has fewer. *)
Definition fetchMessageUIDAtDepth (folder : Folder) (depth : nat) (before : Z) (s : Store) : Z :=
  let uids := remoteUID <$>
     filter (λ m, remoteFolderId m = f_id folder ∧ remoteUID m < before)
            (map_to_list (Messages s)).*2 in
  default 1 (merge_sort (descending (λ u, u)) uids !! depth).

Section SyncWorker.
Context `{MailUtils} `{Host} `{IMAPSession}.
Variable account : Account.

(** Modelled from the spec: [MailProcessor::unlinkMessagesFromFolder] is
    called by SyncWorker.cpp but MailProcessor.cpp defines
    [unlinkMessagesMatchingQuery] in its place; the messages found are
    unlinked in the two-phase scheme, in one transaction. *)
Definition unlinkMessagesFromFolder (deletedMsgs : list Message) (phase : Z) : M Store unit :=
  transaction (unlinkMessages deletedMsgs phase).

(** *** syncFolderUIDRange

    The processor is called without a timestamp and gets
    [defaultSyncDataTimestamp]; the function reads no clock. The
    cooperative [usleep] of the loop has no effect on the store and is
    left out. *)
Definition syncFolderUIDRange (folder : Folder) (range : Range) : M Worker unit :=
  send (CmdFetchMessagesByUID (f_path folder) range);;
  match fetchMessagesByUID (f_path folder) range with
  | inl err => ret tt
  | inr remote =>
      (* Step 2: Fetch the local attributes for the same UID range *)
      let* w := get in
      let syncDataTimestamp := defaultSyncDataTimestamp (clockReads w) in
      let local := fetchMessagesAttributesInRange range folder (store w) in
      let* local := foldM (λ (local : gmap Z MessageAttributes) (remoteMsg : IMAPMessage),
          let remoteUID := uid remoteMsg in
          (* Step 3: Collect messages that are different or not in our local UID set. *)
          let notInFolder := bool_decide (local !! remoteUID = None) in
          let notSame := negb (MessageAttributesMatch
                                 (default defaultAttributes (local !! remoteUID))
                                 (MessageAttributesForMessage remoteMsg)) in
          (if notInFolder || notSame then
             (* Step 4: Attempt to insert the new message. *)
             onStore (insertFallbackToUpdateMessage account remoteMsg folder syncDataTimestamp);;
             ret tt
           else ret tt);;
          ret (delete remoteUID local)) local (reverse remote) in
      (* Step 5: Unlink. *)
      if bool_decide (0 < size local)%nat then
        let deletedUIDs := (map_to_list local).*1 in
        let qd := equalAny "folderImapUID" (CInt <$> deletedUIDs)
                    (equal "folderId" (CStr (f_id folder)) Query_) in
        let* deletedMsgs := onStore (findAll (T:=Message) qd) in
        let* w := get in
        onStore (unlinkMessagesFromFolder deletedMsgs (unlinkPhase w))
      else ret tt
  end.

(** *** syncFolderFullScanIncremental

    The value is the folder with its updated local status, and whether
    work was performed. *)
(** The condition of the [if] that starts a full scan; [time(0)] is
    read only when the operands before it do not decide. *)
Definition startingFullScan (folder : Folder) : M Worker bool :=
  let ls := localStatus folder in
  let fullScanHead := default UINT32_MAX (ls !! "fullScanHead") in
  let fullScanTime := default 0 (ls !! "fullScanTime") in
  let QResyncSupported := IMAPCapabilityQResync storedCapabilities in
  if bool_decide (fullScanHead = UINT32_MAX) then ret true
  else if negb QResyncSupported then
    let* now := time_0 in ret (bool_decide (now - fullScanTime > TEN_MINUTES))
  else ret false.

Definition syncFolderFullScanIncremental (folder : Folder) (remoteStatus : IMAPFolderStatus)
    : M Worker (Folder * bool) :=
  let ls := localStatus folder in
  let fullScanHead := default UINT32_MAX (ls !! "fullScanHead") in
  let fullScanChunkSize := 1000 in
  let* fresh := startingFullScan folder in
  let ls := if fresh then <["uidnext" := uidNext remoteStatus]> ls else ls in
  let fullScanHead := if fresh then uidNext remoteStatus else fullScanHead in
  let fullScanChunkSize := if fresh then 200 else fullScanChunkSize in
  if bool_decide (fullScanHead = 1) then ret (setLocalStatus ls folder, false)
  else
    let chunkNextHead :=
      if bool_decide (fullScanHead > fullScanChunkSize)
      then fullScanHead - fullScanChunkSize else 1 in
    let chunkNextHead :=
      if bool_decide (messageCount remoteStatus < fullScanChunkSize) then 1 else chunkNextHead in
    syncFolderUIDRange (setLocalStatus ls folder)
      (RangeMake chunkNextHead (wrap64 (fullScanHead - chunkNextHead)));;
    let ls := <["fullScanHead" := chunkNextHead]> ls in
    let* now := time_0 in
    let ls := <["fullScanTime" := now]> ls in
    ret (setLocalStatus ls folder, true).

(** *** syncFolderChangesViaShallowScan *)
Definition syncFolderChangesViaShallowScan (folder : Folder) (remoteStatus : IMAPFolderStatus)
    : M Worker Folder :=
  let uidnext := uidNext remoteStatus in
  let* w := get in
  let bottomUID := fetchMessageUIDAtDepth folder 499 uidnext (store w) in
  syncFolderUIDRange folder (RangeMake bottomUID (wrap32 (uidnext - bottomUID)));;
  ret (setLocalStatus (<["uidnext" := uidnext]> (localStatus folder)) folder).

(** *** syncFolderChangesViaCondstore *)

(** The loop over the modified or added messages. [local] maps the ids
    that were stored when the loop started to the objects loaded then;
    [updateMessage] changes these objects in place. The processor is
    called without a timestamp and gets [defaultSyncDataTimestamp]. *)
Definition applyModifiedOrAdded (folder : Folder) (syncDataTimestamp : Z)
    (local : gmap string Message) (modifiedOrAdded : list IMAPMessage)
    : M Worker (gmap string Message) :=
  foldM (λ (local : gmap string Message) (msg : IMAPMessage),
    let id := idForMessage (f_accountId folder) (f_path folder) msg in
    match local !! id with
    | None =>
        (* Found message with an ID we've never seen in any folder. Add it! *)
        onStore (insertFallbackToUpdateMessage account msg folder syncDataTimestamp);;
        ret local
    | Some l =>
        (* Found message with an existing ID. Update it's attributes & folderId. *)
        let* l' := onStore (updateMessage l msg folder syncDataTimestamp) in
        ret (<[id := l']> local)
    end) local modifiedOrAdded.

Definition syncFolderChangesViaCondstore (folder : Folder) (remoteStatus : IMAPFolderStatus)
    : M Worker Folder :=
  match localStatus folder !! "highestmodseq" with
  | None => throw (StringExn "type_error")   (* json: get<uint64_t>() of null *)
  | Some modseq =>
    let remoteModseq := highestModSeqValue remoteStatus in
    let remoteUIDNext := uidNext remoteStatus in
    if bool_decide (modseq = remoteModseq) then ret folder
    else
      let uids := RangeMake 1 UINT64_MAX in
      send (CmdSyncMessagesByUID (f_path folder) uids modseq);;
      match syncMessagesByUID (f_path folder) uids modseq with
      | inl err => ret folder
      | inr result =>
        let* w := get in
        let syncDataTimestamp := defaultSyncDataTimestamp (clockReads w) in
        (* for modified messages, fetch local copy and apply changes *)
        let modifiedOrAdded := modifiedOrAddedMessages result in
        let modifiedOrAddedIDs :=
          idForMessage (f_accountId folder) (f_path folder) <$> modifiedOrAdded in
        let query := equalAny "id" (CStr <$> modifiedOrAddedIDs) Query_ in
        let* local := onStore (findAllMap (T:=Message) query) in
        applyModifiedOrAdded folder syncDataTimestamp local modifiedOrAdded;;
        (* for deleted messages, collect UIDs and destroy. *)
        let* folder :=
          match vanishedMessages result with
          | Some deletedUIDs =>
              let query := equalAny "folderImapUID" (CInt <$> deletedUIDs)
                             (equal "folderId" (CStr (f_id folder)) Query_) in
              let* deletedMsgs := onStore (findAll (T:=Message) query) in
              let* w := get in
              onStore (unlinkMessagesFromFolder deletedMsgs (unlinkPhase w));;
              ret folder
          | None => syncFolderChangesViaShallowScan folder remoteStatus
          end in
        let ls := <["uidnext" := remoteUIDNext]> (localStatus folder) in
        let ls := <["highestmodseq" := remoteModseq]> ls in
        ret (setLocalStatus ls folder)
      end
  end.

(** *** syncMessageBody and syncMessageBodies *)
Definition syncMessageBody (folderPath : string) (message : Message) : M Worker unit :=
  send (CmdFetchMessageByUID folderPath (remoteUID message));;
  match fetchMessageByUID folderPath (remoteUID message) with
  | inl err => ret tt
  | inr messageParser => onStore (retrievedMessageBody message messageParser);; ret tt
  end.

(** The rows of [SELECT Message.* ... WHERE Message.folderId = ? AND
    (Message.date > ? OR Message.draft = 1) AND MessageBody.value IS NULL
    ORDER BY Message.date DESC LIMIT 10]. *)
Definition missingBodies (folder : Folder) (since : Z) (s : Store) : list Message :=
  take 10 (merge_sort (descending date)
    (filter (λ m, remoteFolderId m = f_id folder ∧
                  (date m > since ∨ draft m = true) ∧
                  MessageBodies s !! id m = None)
            (map_to_list (Messages s)).*2)).

Definition syncMessageBodies (folder : Folder) (remoteStatus : IMAPFolderStatus)
    : M Worker bool :=
  if bool_decide (f_role folder = "spam") || bool_decide (f_role folder = "trash")
  then ret false
  else
    let* now := time_0 in
    let* w := get in
    let results := missingBodies folder (now - 24 * 60 * 60 * 30) (store w) in
    forM_ results (λ result, syncMessageBody (f_path folder) result);;
    ret (bool_decide (0 < length results)%nat).

End SyncWorker.

Section SyncNow.
Context `{MailUtils} `{Host} `{IMAPSession}.
Variable account : Account.

(** *** syncFoldersAndLabels

    A folder travels with a flag that says whether its row is in the
    store already (then [save] updates it). *)
Definition reconcileFolder (model : MailModel Folder) (known : gmap string Folder)
    (remoteId remotePath remoteRole : string) : M Store (gmap string Folder * (bool * Folder)) :=
  let '(loaded, local, known) :=
    match known !! remoteId with
    | Some l => (true, l, delete remoteId known)
    | None => (false, newFolder remoteId "1", known)
    end in
  if bool_decide (f_role local ≠ remoteRole) || bool_decide (f_path local ≠ remotePath) then
    let local := setPathAndRole remotePath remoteRole local in
    (* place items into the thread counts table *)
    exec (InsertOrIgnore "ThreadCounts" (f_id local));;
    modify (withThreadCounts (λ c, {[ f_id local ]} ∪ c));;
    @save _ Folder model loaded local true;;
    ret (known, (true, local))
  else ret (known, (loaded, local)).

Definition removeCategories (model : MailModel Folder) (gone : gmap string Folder)
    : M Store unit :=
  forM_ (map_to_list gone) (λ item,
    exec (DeleteFrom "ThreadCounts" (f_id item.2));;
    modify (withThreadCounts (λ c, c ∖ {[ f_id item.2 ]}));;
    @remove _ Folder model item.2).

Definition syncFoldersAndLabels : M Worker (list (bool * Folder)) :=
  send CmdFetchAllFolders;;
  match fetchAllFolders with
  | inl err => throw (StringExn "syncFolders: An error occurred. ")
  | inr remoteFolders =>
    onStore (transaction (
      let isGmail := IMAPCapabilityGmail storedCapabilities in
      let* allLocalFolders := findAllMap (T:=Folder) Query_ in
      let* allLocalLabels := @findAllMap Folder Label_model Query_ in
      let* (allLocalFolders, allLocalLabels, foldersToSync) :=
        foldM (λ '(allLocalFolders, allLocalLabels, foldersToSync) (remote : IMAPFolder),
          if noSelect remote then ret (allLocalFolders, allLocalLabels, foldersToSync)
          else
            let remoteRole := roleForFolder remote in
            let remoteId := idForFolder (imf_path remote) in
            let remotePath := imf_path remote in
            if isGmail && bool_decide (remoteRole ≠ "all") &&
               bool_decide (remoteRole ≠ "spam") && bool_decide (remoteRole ≠ "trash")
            then
              (* Treat as a label *)
              let* (allLocalLabels, _) :=
                reconcileFolder Label_model allLocalLabels remoteId remotePath remoteRole in
              ret (allLocalFolders, allLocalLabels, foldersToSync)
            else
              (* Treat as a folder *)
              let* (allLocalFolders, local) :=
                reconcileFolder Folder_model allLocalFolders remoteId remotePath remoteRole in
              ret (allLocalFolders, allLocalLabels, foldersToSync ++ [local]))
          (allLocalFolders, allLocalLabels, []) (reverse remoteFolders) in
      (* delete any folders / labels no longer present on the remote *)
      removeCategories Folder_model allLocalFolders;;
      removeCategories Label_model allLocalLabels;;
      ret foldersToSync))
  end.

(** *** syncNow *)

Definition roleOrder : list string :=
  ["inbox"; "sent"; "drafts"; "all"; "archive"; "trash"; "spam"].

(** [find(roleOrder.begin(), roleOrder.end(), role) - roleOrder.begin()] *)
Definition roleRank (role : string) : Z :=
  match list_find (λ r, r = role) roleOrder with
  | Some (i, _) => Z.of_nat i
  | None => Z.of_nat (length roleOrder)
  end.

Definition byRoleRank (lhs rhs : bool * Folder) : Prop :=
  roleRank (f_role lhs.2) ≤ roleRank (f_role rhs.2).

#[local] Instance byRoleRank_dec lhs rhs : Decision (byRoleRank lhs rhs).
Proof. unfold byRoleRank. apply _. Defined.

(** The end of a cycle: the phase is flipped and the messages unlinked
    in the phase that is now current are deleted. *)
Definition flipPhaseAndDelete : M Worker unit :=
  let* w := get in
  let unlinkPhase := if bool_decide (unlinkPhase w = 1) then 2 else 1 in
  modify (setUnlinkPhase unlinkPhase);;
  onStore (deleteMessagesStillUnlinkedFromPhase account unlinkPhase);;
  ret tt.

Definition syncFolder (syncAgainImmediately : bool) (item : bool * Folder) : M Worker bool :=
  let '(loaded, folder) := item in
  send (CmdFolderStatus (f_path folder));;
  let '(err, remoteStatus) := folderStatus (f_path folder) in
  if bool_decide (err ≠ ErrorNone) then throw (ErrorCodeExn err)
  else
    (* Step 1: Check folder UIDValidity *)
    let localStatus := localStatus folder in
    let localStatus :=
      if bool_decide (localStatus = ∅) then
        <["uidvalidity" := uidValidity remoteStatus]>
          (<["highestmodseq" := highestModSeqValue remoteStatus]> localStatus)
      else localStatus in
    match localStatus !! "uidvalidity" with
    | None => throw (StringExn "type_error")
    | Some uidvalidity =>
      if bool_decide (uidvalidity ≠ uidValidity remoteStatus)
      then throw (StringExn "blow up the world")
      else
        let folder := setLocalStatus localStatus folder in
        let* (folder, fullScanInProgress) :=
          syncFolderFullScanIncremental account folder remoteStatus in
        let* folder :=
          if IMAPCapabilityCondstore storedCapabilities
          then syncFolderChangesViaCondstore account folder remoteStatus
          else syncFolderChangesViaShallowScan account folder remoteStatus in
        let* bodiesInProgress := syncMessageBodies folder remoteStatus in
        (* Save the folder - note that helper methods mutate localStatus. *)
        onStore (save loaded folder true);;
        ret (syncAgainImmediately || bodiesInProgress || fullScanInProgress)
    end.

Definition syncNow : M Worker bool :=
  let* folders := syncFoldersAndLabels in
  let folders := merge_sort byRoleRank folders in
  let* syncAgainImmediately := foldM syncFolder false folders in
  flipPhaseAndDelete;;
  ret syncAgainImmediately.

End SyncNow.

(** ** main.cpp: runTestAuth *)

Definition nl : string := String (Ascii.ascii_of_nat 10) EmptyString.

(** What the servers answer to the test of an account: each call leaves an
    error code in [err], and the sessions write what they exchange to the
    connection logger. *)
Record AuthServers : Type := {
  imap_connect : Z;
  imap_fetchAllFolders : Z + list IMAPFolder;
  imap_transcript : string;
  smtp_connect : Z;
  smtp_loginIfNeeded : Z;
  smtp_transcript : string;
}.

(** The one-line JSON reply of the test mode. *)
Record TestReply : Type := {
  error : option string;
  error_service : string;
  log : string;
  reply_account : option Account;
}.

Section RunTestAuth.
Context `{MailUtils}.
(** [ErrorCodeToTypeMap] (constants.h) *)
Variable ErrorCodeToTypeMap : gmap Z string.

Definition done (account : Account) (err : Z) (errorService accumulated : string)
    : Z * TestReply :=
  if bool_decide (err = ErrorNone) then
    (0, {| error := None; error_service := errorService; log := accumulated;
           reply_account := Some account |})
  else
    (1, {| error := Some (default "Unknown" (ErrorCodeToTypeMap !! err));
           error_service := errorService; log := accumulated;
           reply_account := None |}).

(** The value is the exit code and the reply written to stdout. *)
Definition runTestAuth (servers : AuthServers) (account : Account) : Z * TestReply :=
  let errorService := "imap" in
  (* imap *)
  let accumulated := "----------IMAP----------" +:+ nl +:+ imap_transcript servers in
  let err := imap_connect servers in
  if bool_decide (err ≠ ErrorNone) then done account err errorService accumulated
  else
    match imap_fetchAllFolders servers with
    | inl err => done account err errorService accumulated
    | inr folders =>
      let err := ErrorInvalidAccount in
      let err :=
        if existsb (λ f, let role := roleForFolder f in
                         bool_decide (role = "all") || bool_decide (role = "inbox")) folders
        then ErrorNone else err in
      (* smtp *)
      let accumulated :=
        accumulated +:+ nl +:+ nl +:+ "----------SMTP----------" +:+ nl +:+
        smtp_transcript servers in
      let errorService := "smtp" in
      let err := smtp_connect servers in
      if bool_decide (err ≠ ErrorNone) then done account err errorService accumulated
      else
        let err := smtp_loginIfNeeded servers in
        done account err errorService accumulated
    end.
End RunTestAuth.

(** ** Histories of processor calls

    What a sync cycle does to the Message table is a sequence of calls to
    the processor, each on the store the previous one left behind, and then
    the flip of the phase and the deletion pass of [syncNow]. A call that
    throws ends in the state the throw left; the next call goes on from
    there. *)

Inductive ProcessorCall : Type :=
| CallInsertFallbackToUpdate (mMsg : IMAPMessage) (folder : Folder) (syncDataTimestamp : Z)
| CallUpdateMessage (localId : string) (remote : IMAPMessage) (folder : Folder)
    (syncDataTimestamp : Z)                  (* on the stored message with that id *)
| CallUnlink (query : Query)                 (* in the phase of the cycle *)
| CallRetrievedMessageBody (localId : string) (parser : MessageParser).

Section Histories.
Context `{MailUtils} `{Host}.
Variable account : Account.

Definition runCall (phase : Z) (c : ProcessorCall) (s : Store) : Store :=
  match c with
  | CallInsertFallbackToUpdate mMsg folder ts =>
      (insertFallbackToUpdateMessage account mMsg folder ts s).2
  | CallUpdateMessage localId remote folder ts =>
      match Messages s !! localId with
      | Some local => (updateMessage local remote folder ts s).2
      | None => s
      end
  | CallUnlink query => (unlinkMessagesMatchingQuery query phase s).2
  | CallRetrievedMessageBody localId parser =>
      match Messages s !! localId with
      | Some local => (retrievedMessageBody local parser s).2
      | None => s
      end
  end.

Definition runCalls (phase : Z) (calls : list ProcessorCall) (s : Store) : Store :=
  foldl (λ s c, runCall phase c s) s calls.

(** A sync cycle: the calls, in the phase of the worker, and the end of
    [syncNow]. *)
Definition cycle (calls : list ProcessorCall) (w : Worker) : Worker :=
  (flipPhaseAndDelete account (withStore (runCalls (unlinkPhase w) calls) w)).2.

(** The call observes the message with id [i] on the remote. *)
Definition observes (i : string) (c : ProcessorCall) : Prop :=
  match c with
  | CallInsertFallbackToUpdate mMsg folder _ =>
      idForMessage (f_accountId folder) (f_path folder) mMsg = i
  | CallUpdateMessage localId _ _ _ => localId = i
  | _ => False
  end.

#[global] Instance observes_dec i c : Decision (observes i c).
Proof. destruct c; simpl; apply _. Defined.

(** The UID a call reports for a remote message is a real one. *)
Definition reportsRealUID (c : ProcessorCall) : Prop :=
  match c with
  | CallInsertFallbackToUpdate mMsg _ _ => uid mMsg < UINT32_MAX - 2
  | CallUpdateMessage _ remote _ _ => uid remote < UINT32_MAX - 2
  | _ => True
  end.

(** A condition holds for every call of a history, in the store the
    call is made on. *)
Fixpoint alongCalls (ok : Store → ProcessorCall → Prop) (phase : Z)
    (calls : list ProcessorCall) (s : Store) : Prop :=
  match calls with
  | [] => True
  | c :: calls' => ok s c ∧ alongCalls ok phase calls' (runCall phase c s)
  end.

(** The call does not stamp the message [i]: if it is an unlink pass
    that selects the message, the message carries a marker already. *)
Definition sparesMessage (i : string) (s : Store) (c : ProcessorCall) : Prop :=
  match c with
  | CallUnlink query =>
      ∀ m : Message, m ∈ selectAll query s → id m = i → remoteUID m > UINT32_MAX - 5
  | _ => True
  end.

(** No unlink pass among the calls stamps the message [i]. *)
Definition neverStamped (i : string) : Z → list ProcessorCall → Store → Prop :=
  alongCalls (sparesMessage i).

(** The message [i] is stored with a real UID. *)
Definition restored (i : string) (s : Store) : Prop :=
  ∃ m, Messages s !! i = Some m ∧ remoteUID m < UINT32_MAX - 2.
End Histories.

(** The rows of the Message table are stored under their ids. *)
Definition keyed (s : Store) : Prop :=
  ∀ i m, Messages s !! i = Some m → id m = i.

(** ** Predicates used by the statements *)

(** Every state a computation can leave is related to the one it started
    from. *)
Definition preserves {St A} (R : St → St → Prop) (m : M St A) : Prop :=
  ∀ s, R s (m s).2.

(** A part of the store (a table, the deltas) is the same. *)
Definition same {X} (F : Store → X) (s s' : Store) : Prop := F s' = F s.

(** No observable attribute of the local message differs from the remote
    one: unread, starred, draft, UID, folder binding, Gmail labels. *)
Definition unchangedAttributes (local : Message) (remote : IMAPMessage) (folder : Folder) : Prop :=
  unread local = negb (flagSeen remote) ∧ starred local = flagFlagged remote ∧
  draft local = flagDraft remote ∧ remoteUID local = uid remote ∧
  remoteFolderId local = f_id folder ∧ remoteXGMLabels local = gmailLabels remote.

#[global] Instance unchangedAttributes_dec local remote folder :
  Decision (unchangedAttributes local remote folder).
Proof. unfold unchangedAttributes. apply _. Defined.

(** The local message with the flags, UID, folder binding, labels and
    [syncedAt] of an update. *)
Definition updatedMessage (local : Message) (remote : IMAPMessage) (folder : Folder)
    (syncDataTimestamp : Z) : Message :=
  {| id := id local; accountId := accountId local; threadId := threadId local;
     headerMessageId := headerMessageId local; subject := subject local; date := date local;
     to_ := to_ local; cc := cc local; bcc := bcc local; from_ := from_ local;
     unread := negb (flagSeen remote); starred := flagFlagged remote;
     draft := flagDraft remote; remoteUID := uid remote;
     remoteFolderId := f_id folder; clientFolderId := f_id folder;
     remoteXGMLabels := gmailLabels remote; syncedAt := syncDataTimestamp;
     snippet := snippet local; files := files local |}.

Definition messageDelta (ty : DeltaType) (i : string) : Delta :=
  {| d_type := ty; d_class := "Message"; d_id := i |}.

(** The Message and Thread tables, the thread references and the deltas
    are the same. *)
Definition sameMail (s s' : Store) : Prop :=
  same Messages s s' ∧ same deltas s s' ∧ same Threads s s' ∧ same ThreadReferences s s'.

(** [INSERT OR IGNORE] of a thread reference. *)
Definition addReference (rows : list ThreadReference) (r : ThreadReference)
    : list ThreadReference :=
  if bool_decide (r ∈ rows) then rows else rows ++ [r].

Definition referenceRow (threadId accountId headerMessageId : string) : ThreadReference :=
  {| r_threadId := threadId; r_accountId := accountId; r_headerMessageId := headerMessageId |}.

Definition threadDelta (ty : DeltaType) (i : string) : Delta :=
  {| d_type := ty; d_class := "Thread"; d_id := i |}.

(** The thread a new message is attached to when one is known, in the
    words of section 4.2.2: a thread with the Gmail thread id when the server
    provides one; otherwise, for a Message-Id that is not auto-generated, a
    thread that a ThreadReference row of the account names for the
    Message-Id of the message or one of its first 50 references. *)
Definition reconciledThread (mMsg : IMAPMessage) (accountId : string) (s : Store)
    : option Thread :=
  let refs := default [] (references (header mMsg)) in
  if decide (gmailThreadID mMsg ≠ 0) then
    head (filter (λ t, gThrId t = gmailThreadID mMsg) (map_to_list (Threads s)).*2)
  else if isMessageIDAutoGenerated (header mMsg) then None
  else
    head (omap (λ r,
            if decide (r_accountId r = accountId ∧
                       r_headerMessageId r ∈ messageID (header mMsg) :: take 50 refs)
            then Threads s !! r_threadId r else None)
          (ThreadReferences s)).

Definition deltaOf `{MailModel T} (ty : DeltaType) (row : T) : Delta :=
  {| d_type := ty; d_class := tableName (T:=T); d_id := modelId row |}.

Definition emitted (emit : bool) (d : Delta) (s : Store) : Store :=
  if emit then withDeltas (λ ds, ds ++ [d]) s else s.

(** The message carries an unlink marker already. *)
Definition marked (m : Message) : Prop := remoteUID m > UINT32_MAX - 5.

(** The marker of a phase. *)
Definition marker (phase : Z) : Z := wrap32 (UINT32_MAX - phase).

(** What an unlink pass in the given phase does to a message it selects. *)
Definition stamp (phase : Z) (m : Message) : Message :=
  if bool_decide (marked m) then m else setRemoteUID (marker phase) m.

(** The save of one selected message, on the Message table. *)
Definition stampRow (phase : Z) (M : gmap string Message) (m : Message) : gmap string Message :=
  if bool_decide (marked m) then M else alter (λ _, setRemoteUID (marker phase) m) (id m) M.

(** The message is one the deletion pass of a phase looks for: it belongs
    to the account and carries the marker of the phase. *)
Definition stillUnlinked (account : Account) (phase : Z) (m : Message) : Prop :=
  accountId m = acc_id account ∧ remoteUID m = marker phase.

#[global] Instance stillUnlinked_dec account phase m : Decision (stillUnlinked account phase m).
Proof. unfold stillUnlinked. apply _. Defined.

(** What a deletion pass may do to the Message table: the store stays
    keyed, no row appears or changes, and the rows the pass does not look
    for stay. *)
Definition onlyDeletes (account : Account) (phase : Z) (s s' : Store) : Prop :=
  keyed s' ∧
  (∀ i m', Messages s' !! i = Some m' → Messages s !! i = Some m') ∧
  (∀ i m, Messages s !! i = Some m → ¬ stillUnlinked account phase m →
          Messages s' !! i = Some m).

(** How a call of the processor, made in a phase on a store, may change a
    stored message. *)
Inductive rowStep `{MailUtils} (phase : Z) (s : Store)
    : ProcessorCall → Message → Message → Prop :=
| row_same c m : rowStep phase s c m m
| row_upserted mMsg folder ts m :
    idForMessage (f_accountId folder) (f_path folder) mMsg = id m →
    syncedAt m ≤ ts →
    rowStep phase s (CallInsertFallbackToUpdate mMsg folder ts) m
      (updatedMessage m mMsg folder ts)
| row_updated remote folder ts m :
    syncedAt m ≤ ts →
    rowStep phase s (CallUpdateMessage (id m) remote folder ts) m
      (updatedMessage m remote folder ts)
| row_stamped query m :
    m ∈ selectAll query s → ¬ marked m →
    rowStep phase s (CallUnlink query) m (setRemoteUID (marker phase) m)
| row_body parser m fs sn :
    rowStep phase s (CallRetrievedMessageBody (id m) parser) m
      (setFiles fs (setSnippet sn m)).

(** The other phase. *)
Definition flipped (phase : Z) : Z := if bool_decide (phase = 1) then 2 else 1.

(** Nothing but the attachment files on disk differs. *)
Definition onlyDisk (s s' : Store) : Prop := s' = withDisk (λ _, disk s') s.

(** A part of the state of a worker is the same. *)
Definition sameW {X} (F : Worker → X) (w w' : Worker) : Prop := F w' = F w.

(** The worker after one reading of the clock. *)
Definition tick (w : Worker) : Worker :=
  {| store := store w; unlinkPhase := unlinkPhase w; sent := sent w;
     clockReads := S (clockReads w) |}.

(** A full scan of the folder is due, in the words of section 4.3.1:
    [fullScanHead] is unset or, on a server without QRESYNC, more than ten
    minutes have elapsed since the last scan. *)
Definition scanDue `{IMAPSession} (folder : Folder) (now : Z) : Prop :=
  localStatus folder !! "fullScanHead" = None ∨
  (IMAPCapabilityQResync storedCapabilities = false ∧
   now - default 0 (localStatus folder !! "fullScanTime") > TEN_MINUTES).

#[global] Instance scanDue_dec `{IMAPSession} folder now : Decision (scanDue folder now).
Proof. unfold scanDue. apply _. Defined.

(** The processor calls of the CONDSTORE loop, for the messages the server
    reports as modified or added: an update of the stored message when the
    deterministic id was stored when the loop started, an insert (with its
    fallback) when it was not. *)
Definition condstoreCalls `{MailUtils} (folder : Folder) (syncDataTimestamp : Z)
    (s0 : Store) (modifiedOrAdded : list IMAPMessage) : list ProcessorCall :=
  (λ msg,
     let i := idForMessage (f_accountId folder) (f_path folder) msg in
     match Messages s0 !! i with
     | Some _ => CallUpdateMessage i msg folder syncDataTimestamp
     | None => CallInsertFallbackToUpdate msg folder syncDataTimestamp
     end) <$> modifiedOrAdded.

(** The query for the messages of a folder with the given UIDs. *)
Definition uidsQuery (folder : Folder) (uids : list Z) : Query :=
  equalAny "folderImapUID" (CInt <$> uids) (equal "folderId" (CStr (f_id folder)) Query_).

(** ** Relations between the states of a pass *)

(** The rows of the Message table stay stored under their ids and no row
    goes away. *)
Definition keepsRows (s s' : Store) : Prop :=
  keyed s → keyed s' ∧ ∀ i, is_Some (Messages s !! i) → is_Some (Messages s' !! i).

(** The same, between the stores of two states of a worker, whose phase
    is the same. *)
Definition keepsRowsW (w w' : Worker) : Prop :=
  unlinkPhase w' = unlinkPhase w ∧ keepsRows (store w) (store w').

(** A remote folder that [syncFoldersAndLabels] syncs as a folder: it can
    be selected and, on Gmail, its role is all, spam or trash (the others
    are labels). *)
Definition syncedAsFolder `{MailUtils} `{IMAPSession} (remote : IMAPFolder) : bool :=
  negb (noSelect remote) &&
  negb (IMAPCapabilityGmail storedCapabilities &&
        bool_decide (roleForFolder remote ≠ "all") &&
        bool_decide (roleForFolder remote ≠ "spam") &&
        bool_decide (roleForFolder remote ≠ "trash")).

(** The id, path and role of a folder. *)
Definition folderKey (f : Folder) : string * string * string :=
  (f_id f, f_path f, f_role f).

(** The id, path and role the helpers of [MailUtils] give a remote folder. *)
Definition remoteFolderKey `{MailUtils} (remote : IMAPFolder) : string * string * string :=
  (idForFolder (imf_path remote), imf_path remote, roleForFolder remote).

(** A map of folders by id, as [findAllMap] builds it. *)
Definition keyedFolders (known : gmap string Folder) : Prop :=
  ∀ k l, known !! k = Some l → f_id l = k.

(** ** models/task.cpp

    A task is a JSON object. The constructor of the base class
    [MailModel(id, accountId)] is not among the sources: the object it
    leaves is a parameter of [newTask]. *)

Inductive JSON : Type :=
| JNull
| JBool (b : bool)
| JNumber (n : Z)
| JString (s : string)
| JStructured (dump : string).     (* an array or an object, by its text *)

(** [Task::Task(string constructorName, string accountId, json
    taskSpecificData)], for task-specific data that is an object. *)
Definition newTask (base : gmap string JSON) (constructorName : string)
    (taskSpecificData : gmap string JSON) : gmap string JSON :=
  let _data := <["__cls" := JString constructorName]> base in
  let _data := <["status" := JString "local"]> _data in
  foldl (λ _data it, <[it.1 := it.2]> _data) _data (map_to_list taskSpecificData).

(** [_data[key].get<string>()]: [operator[]] adds a null member when the
    key is missing, and [get] throws a type error for a value that is not
    a string. *)
Definition getString (key : string) : M (gmap string JSON) string :=
  λ _data,
    match _data !! key with
    | Some (JString s) => (inr s, _data)
    | Some _ => (inl (StringExn "type_error"), _data)
    | None => (inl (StringExn "type_error"), <[key := JNull]> _data)
    end.

Definition Task_status : M (gmap string JSON) string := getString "status".

Definition Task_setStatus (s : string) : M (gmap string JSON) unit :=
  modify (insert "status" (JString s)).

Definition Task_shouldCancel : M (gmap string JSON) bool :=
  λ _data,
    match _data !! "should_cancel" with
    | None => (inr false, _data)
    | Some (JBool b) => (inr b, _data)
    | Some _ => (inl (StringExn "type_error"), _data)
    end.

Definition Task_setShouldCancel : M (gmap string JSON) unit :=
  modify (insert "should_cancel" (JBool true)).

(** [_data["error"]]: a null member is added when the key is missing. *)
Definition Task_error : M (gmap string JSON) JSON :=
  λ _data,
    match _data !! "error" with
    | Some e => (inr e, _data)
    | None => (inr JNull, <["error" := JNull]> _data)
    end.

Definition Task_setError (e : JSON) : M (gmap string JSON) unit :=
  modify (insert "error" e).

Definition Task_constructorName : M (gmap string JSON) string := getString "__cls".

Definition Task_columnsForQuery : list string :=
  ["id"; "data"; "accountId"; "version"; "status"].

(** The rows of the Thread table are stored under their ids. *)
Definition keyedThreads (s : Store) : Prop :=
  ∀ k t, Threads s !! k = Some t → t_id t = k.

(** Every stored message points to a stored thread (and the two tables
    hold their rows under their ids). *)
Definition threadsLinked (s : Store) : Prop :=
  keyed s ∧ keyedThreads s ∧
  ∀ i m, Messages s !! i = Some m → is_Some (Threads s !! threadId m).

(** ** Fixtures for the examples *)

Definition exampleUtils : MailUtils :=
  {| idForMessage := λ _ _ mMsg, messageID (header mMsg);
     idForFolder := λ path, path;
     roleForFolder := λ f, if bool_decide (imf_path f = "INBOX") then "inbox" else "";
     contactKeyForEmail := λ e, e;
     pathForFile := λ f, file_id f;
     idForThread := λ msgId, "t:" +:+ msgId;
     idForFile := λ m a, id m +:+ ":" +:+ partID a;
     idForContact := λ _ e, e;
     searchContent := λ c, ct_email c;
     isSentByUser := λ _, false |}.

(** A host on which nothing fails. *)
Definition healthyHost : Host :=
  {| sqliteFault := λ _, None; writeToFileFails := λ _, false;
     clock := λ n, 1000 + Z.of_nat n;
     defaultSyncDataTimestamp := λ n, 1000 + Z.of_nat n |}.

(** A host whose SQL engine refuses every insert into the File table with
    SQLITE_FULL (13). *)
Definition fullDiskHost : Host :=
  {| sqliteFault := λ stmt, match stmt with
                            | InsertInto tbl _ => if bool_decide (tbl = "File") then Some 13 else None
                            | _ => None
                            end;
     writeToFileFails := λ _, false;
     clock := λ n, 1000 + Z.of_nat n;
     defaultSyncDataTimestamp := λ n, 1000 + Z.of_nat n |}.

Definition exampleAccount : Account := {| acc_id := "1" |}.

Definition exampleHeader (mid subj : string) : MessageHeader :=
  {| messageID := mid; isMessageIDAutoGenerated := false; references := None;
     h_subject := subj; h_date := 900; h_to := []; h_cc := []; h_bcc := []; h_from := [] |}.

Definition exampleRemote (u : Z) (mid : string) : IMAPMessage :=
  {| uid := u; flagSeen := false; flagFlagged := false; flagDraft := false;
     gmailLabels := []; gmailThreadID := 0; header := exampleHeader mid "hello" |}.

Definition folderA : Folder :=
  {| f_id := "A"; f_accountId := "1"; f_path := "A"; f_role := ""; localStatus := ∅ |}.

Definition folderB : Folder :=
  {| f_id := "B"; f_accountId := "1"; f_path := "B"; f_role := ""; localStatus := ∅ |}.

Definition inbox : Folder :=
  {| f_id := "INBOX"; f_accountId := "1"; f_path := "INBOX"; f_role := "inbox";
     localStatus := ∅ |}.

(** A message stored in folder A under UID 42. *)
Definition exampleMessage : Message :=
  setThreadId "t:m1" (@newMessage exampleUtils (exampleRemote 42 "m1") folderA 500).

Definition exampleStore : Store :=
  withMessages (insert "m1" exampleMessage) emptyStore.

(** The scenario of a message that moves from folder A (UID 42) to folder
    B (UID 7) and is then deleted on the server. *)
Definition queryA42 : Query :=
  equalAny "folderImapUID" [CInt 42] (equal "folderId" (CStr "A") Query_).

Definition queryB7 : Query :=
  equalAny "folderImapUID" [CInt 7] (equal "folderId" (CStr "B") Query_).

Definition seenInB : ProcessorCall :=
  CallInsertFallbackToUpdate (exampleRemote 7 "m1") folderB 600.

Definition exampleWorker : Worker := newWorker exampleStore.

(** A fetched body with one attachment. *)
Definition exampleParser : MessageParser :=
  {| htmlRendering := "<p>hello</p>"; flattenedText := "hello";
     attachments := [{| partID := "1"; att_filename := "a.png";
                        att_contentID := None; att_data := "PNG" |}];
     htmlInlineAttachments := [] |}.

(** Servers that accept the account, with a folder list in which no folder
    has the role all or inbox. *)
Definition serversWithoutInbox : AuthServers :=
  {| imap_connect := ErrorNone;
     imap_fetchAllFolders := inr [{| imf_path := "Sent"; noSelect := false |}];
     imap_transcript := "";
     smtp_connect := ErrorNone;
     smtp_loginIfNeeded := ErrorNone;
     smtp_transcript := "" |}.

Definition exampleStatus : IMAPFolderStatus :=
  {| uidNext := 6; uidValidity := 1; highestModSeqValue := 0; messageCount := 1 |}.

(** A remote mailbox that does not change: one folder, INBOX, that holds
    one message under UID 5; the server has neither CONDSTORE nor QRESYNC. *)
Definition exampleSession : IMAPSession :=
  {| storedCapabilities :=
       {| IMAPCapabilityCondstore := false; IMAPCapabilityQResync := false;
          IMAPCapabilityGmail := false |};
     fetchAllFolders := inr [{| imf_path := "INBOX"; noSelect := false |}];
     folderStatus := λ _, (ErrorNone, exampleStatus);
     fetchMessagesByUID := λ _ range,
       inr (filter (λ m, location range ≤ uid m < location range + length_ range)
              [exampleRemote 5 "m1"]);
     syncMessagesByUID := λ _ _ _, inl 1;
     fetchMessageByUID := λ _ _,
       inr {| htmlRendering := "<p>hello</p>"; flattenedText := "hello";
              attachments := []; htmlInlineAttachments := [] |} |}.

(** The worker after a first and after a second sync cycle against
    [exampleSession], from an empty store. *)
Definition afterFirstSync : Worker :=
  (@syncNow exampleUtils healthyHost exampleSession exampleAccount (newWorker emptyStore)).2.

Definition afterSecondSync : Worker :=
  (@syncNow exampleUtils healthyHost exampleSession exampleAccount afterFirstSync).2.

Definition afterThirdSync : Worker :=
  (@syncNow exampleUtils healthyHost exampleSession exampleAccount afterSecondSync).2.

(** The delta of a save of the INBOX folder. *)
Definition inboxDelta : Delta :=
  {| d_type := Persist; d_class := "Folder"; d_id := "INBOX" |}.

(** The INBOX folder when its full scan has reached UID 1, a hundred
    seconds before the clock of [healthyHost] starts. *)
Definition scannedInbox : Folder :=
  setLocalStatus (<["fullScanHead" := 1]> (<["fullScanTime" := 900]> ∅)) inbox.

(** The INBOX folder with the [highestmodseq] of [exampleStatus]. *)
Definition syncedInbox : Folder :=
  setLocalStatus (<["highestmodseq" := 0]> ∅) inbox.

(** A host whose SQL engine fails every statement with SQLITE_IOERR (10). *)
Definition failingHost : Host :=
  {| sqliteFault := λ _, Some 10; writeToFileFails := λ _, false;
     clock := λ n, 1000 + Z.of_nat n;
     defaultSyncDataTimestamp := λ n, 1000 + Z.of_nat n |}.

(** Folder B with a stored [highestmodseq] of 3, and a QRESYNC server on
    which the modseq of the folder is 5: since modseq 3 the message m1 has
    appeared in the folder under UID 7, a new message m2 under UID 8, and
    the UIDs 5 and 42 have vanished. *)
Definition staleFolderB : Folder :=
  setLocalStatus (<["highestmodseq" := 3]> ∅) folderB.

Definition changedStatus : IMAPFolderStatus :=
  {| uidNext := 9; uidValidity := 1; highestModSeqValue := 5; messageCount := 2 |}.

Definition changedResult : IMAPSyncResult :=
  {| modifiedOrAddedMessages := [exampleRemote 7 "m1"; exampleRemote 8 "m2"];
     vanishedMessages := Some [5; 42] |}.

Definition qresyncSession : IMAPSession :=
  {| storedCapabilities :=
       {| IMAPCapabilityCondstore := true; IMAPCapabilityQResync := true;
          IMAPCapabilityGmail := false |};
     fetchAllFolders := inr [{| imf_path := "B"; noSelect := false |}];
     folderStatus := λ _, (ErrorNone, changedStatus);
     fetchMessagesByUID := λ _ _, inr [];
     syncMessagesByUID := λ _ _ _, inr changedResult;
     fetchMessageByUID := λ _ _, inl 1 |}.

(** The store of the example with one more message, m3, stored in folder
    B under UID 5. *)
Definition storeWithB5 : Store :=
  withMessages
    (insert "m3" (setThreadId "t:m3" (@newMessage exampleUtils (exampleRemote 5 "m3") folderB 500)))
    exampleStore.

(** The store after a later sync, at time 900, has written m1 again. An
    object that was loaded before, [exampleMessage], still says that m1
    was synced at time 500. *)
Definition refreshedStore : Store :=
  withMessages
    (insert "m1" (updatedMessage exampleMessage (exampleRemote 42 "m1") folderA 900))
    emptyStore.

(** The store in which m1 was unlinked in phase 2. *)
Definition stampedStore : Store :=
  @runCall exampleUtils healthyHost exampleAccount 2 (CallUnlink queryA42) exampleStore.

(** A server whose folder list cannot be fetched. *)
Definition downSession : IMAPSession :=
  {| storedCapabilities :=
       {| IMAPCapabilityCondstore := false; IMAPCapabilityQResync := false;
          IMAPCapabilityGmail := false |};
     fetchAllFolders := inl 1;
     folderStatus := λ _, (1, exampleStatus);
     fetchMessagesByUID := λ _ _, inl 1;
     syncMessagesByUID := λ _ _ _, inl 1;
     fetchMessageByUID := λ _ _, inl 1 |}.

(** Folder B in the middle of a full scan, with its head at UID 2000. *)
Definition scanningFolderB : Folder :=
  setLocalStatus (<["fullScanHead" := 2000]> (<["fullScanTime" := 900]> ∅)) folderB.

(** A thread that has no search row yet. *)
Definition exampleThread : Thread :=
  @newThread exampleUtils "m1" "1" "hello" 0.

(** * Frame and inversion lemmas *)

Section Frames.
Context {St : Type} (R : St → St → Prop) `{!PreOrder R}.

Lemma preserves_ret {A} (x : A) : preserves R (ret x).
Proof. intros s. simpl. reflexivity. Qed.

Lemma preserves_throw {A} e : preserves R (@throw St A e).
Proof. intros s. simpl. reflexivity. Qed.

Lemma preserves_get : preserves R (@get St).
Proof. intros s. simpl. reflexivity. Qed.

Lemma preserves_bind {A B} (m : M St A) (k : A → M St B) :
  preserves R m → (∀ x, preserves R (k x)) → preserves R (bind m k).
Proof.
  intros Hm Hk s. unfold bind. specialize (Hm s).
  destruct (m s) as [[e|x] s1]; simpl in *; [done|].
  etrans; [exact Hm|apply Hk].
Qed.

Lemma preserves_modify (f : St → St) : (∀ s, R s (f s)) → preserves R (modify f).
Proof. intros Hf s. apply Hf. Qed.

Lemma preserves_try_catch {A} (body : M St A) handler :
  preserves R body → (∀ e, preserves R (handler e)) → preserves R (try_catch body handler).
Proof.
  intros Hb Hh s. unfold try_catch. specialize (Hb s).
  destruct (body s) as [[e|x] s1]; simpl in *; [|done].
  etrans; [exact Hb|apply Hh].
Qed.

Lemma preserves_foldM {A B} (f : B → A → M St B) l :
  (∀ acc x, preserves R (f acc x)) → ∀ acc, preserves R (foldM f acc l).
Proof.
  intros Hf. induction l as [|x l IH]; intros acc; simpl.
  - apply preserves_ret.
  - apply preserves_bind; [apply Hf|]. intros; apply IH.
Qed.

Lemma preserves_forM_ {A} (l : list A) (f : A → M St unit) :
  (∀ x, preserves R (f x)) → preserves R (forM_ l f).
Proof. intros Hf. apply preserves_foldM. intros _ x. apply Hf. Qed.

Lemma preserves_if {A} (b : bool) (m1 m2 : M St A) :
  preserves R m1 → preserves R m2 → preserves R (if b then m1 else m2).
Proof. by destruct b. Qed.
End Frames.

Section StoreFrames.
Context `{Host} (R : Store → Store → Prop) `{!PreOrder R}.

Lemma preserves_exec stmt : preserves R (exec stmt).
Proof. unfold exec. destruct (sqliteFault stmt); [apply preserves_throw|apply preserves_ret]; done. Qed.

Lemma preserves_transaction {A} (body : M Store A) :
  preserves R body → preserves R (transaction body).
Proof.
  intros Hb s. unfold transaction. specialize (Hb s).
  destruct (body s) as [[e|x] s1]; simpl in *; [reflexivity|done].
Qed.

Lemma preserves_find `{MailModel T} q : preserves R (find (T:=T) q).
Proof. intros s. simpl. reflexivity. Qed.

Lemma preserves_findAll `{MailModel T} q : preserves R (findAll (T:=T) q).
Proof. intros s. simpl. reflexivity. Qed.
End StoreFrames.

#[global] Instance same_preorder {X} (F : Store → X) : PreOrder (same F).
Proof. split; [by intros s|]. intros s1 s2 s3 H1 H2. unfold same in *. congruence. Qed.

#[global] Instance conj_preorder (R1 R2 : Store → Store → Prop) :
  PreOrder R1 → PreOrder R2 → PreOrder (λ s s', R1 s s' ∧ R2 s s').
Proof.
  intros P1 P2. split.
  - intros s. split; reflexivity.
  - intros s1 s2 s3 [A1 A2] [B1 B2]. split; etrans; eauto.
Qed.

Ltac frame_step :=
  lazymatch goal with
  | |- preserves _ (bind _ _) => apply preserves_bind; [try apply _| |intros ?]
  | |- preserves _ (ret _) => apply preserves_ret; try apply _
  | |- preserves _ (throw _) => apply preserves_throw; try apply _
  | |- preserves _ get => apply preserves_get; try apply _
  | |- preserves _ (exec _) => apply preserves_exec; try apply _
  | |- preserves _ (modify _) => apply preserves_modify; intros ?; try (by repeat split)
  | |- preserves _ (transaction _) => apply preserves_transaction; [try apply _|]
  | |- preserves _ (try_catch _ _) => apply preserves_try_catch; [try apply _| |intros ?]
  | |- preserves _ (forM_ _ _) => apply preserves_forM_; [try apply _|intros ?]
  | |- preserves _ (foldM _ _ _) => apply preserves_foldM; [try apply _|intros ? ?]
  | |- preserves _ (find _) => apply preserves_find; try apply _
  | |- preserves _ (findAll _) => apply preserves_findAll; try apply _
  | |- preserves _ (emitDelta _ _) => unfold emitDelta
  | |- preserves _ (saveNew _ _) => unfold saveNew
  | |- preserves _ (saveLoaded _ _) => unfold saveLoaded
  | |- preserves _ (save _ _ _) => unfold save
  | |- preserves _ (remove _) => unfold remove
  | |- preserves _ (if ?b then _ else _) => destruct b
  | |- preserves _ (match ?x with _ => _ end) => destruct x
  end.

Ltac frame := repeat (cbv zeta; frame_step).

Section UpdateMessage.
Context `{MailUtils} `{Host}.

Lemma updateMessage_cases local remote folder ts s :
  updateMessage local remote folder ts s =
    if decide (syncedAt local > ts) then (inr local, s)
    else if decide (unchangedAttributes local remote folder) then (inr local, s)
    else match sqliteFault (UpdateRow "Message" (id local)) with
         | Some code => (inl (SQLiteException code), s)
         | None =>
             let local' := updatedMessage local remote folder ts in
             (inr local',
              withDeltas (λ ds, ds ++ [messageDelta Persist (id local)])
                (withMessages (alter (λ _, local') (id local)) s))
         end.
Proof.
  unfold updateMessage. rewrite bool_decide_decide.
  destruct (decide (syncedAt local > ts)); [done|].
  unfold unchangedAttributes. simpl.
  destruct (decide _) as [(Hu & Hs & Hd & Hi & Hf & Hl)|Hne].
  - rewrite !bool_decide_decide.
    rewrite !decide_False by (intros Hx; apply Hx; congruence). done.
  - assert (Hfalse :
      (if bool_decide (gmailLabels remote ≠ remoteXGMLabels local) then false
       else if bool_decide (f_id folder ≠ remoteFolderId local) then false
       else if bool_decide (uid remote ≠ remoteUID local) then false
       else if bool_decide (flagDraft remote ≠ draft local) then false
       else if bool_decide (flagFlagged remote ≠ starred local) then false
       else if bool_decide (negb (flagSeen remote) ≠ unread local) then false
       else true) = false).
    { repeat case_bool_decide; try done. exfalso. apply Hne.
      repeat split; apply dec_stable; congruence. }
    rewrite Hfalse.
    unfold transaction, saveLoaded, bind, exec; simpl.
    destruct (sqliteFault _); done.
Qed.
End UpdateMessage.

#[global] Instance sameMail_preorder : PreOrder sameMail.
Proof.
  split.
  - intros s. by repeat split.
  - intros s1 s2 s3 (A1 & A2 & A3 & A4) (B1 & B2 & B3 & B4).
    unfold sameMail, same in *. repeat split; congruence.
Qed.

Lemma run_preserves {St A} (R : St → St → Prop) (m : M St A) s r s' :
  preserves R m → m s = (r, s') → R s s'.
Proof. intros Hm E. specialize (Hm s). by rewrite E in Hm. Qed.

Lemma bind_inr {St A B} (m : M St A) (k : A → M St B) s x s2 :
  bind m k s = (inr x, s2) → ∃ y s1, m s = (inr y, s1) ∧ k y s1 = (inr x, s2).
Proof.
  unfold bind. destruct (m s) as [[e|y] s1]; [done|]. intros E. by exists y, s1.
Qed.

Lemma transaction_inr `{Host} {A} (body : M Store A) s x s' :
  transaction body s = (inr x, s') → body s = (inr x, s').
Proof. unfold transaction. by destruct (body s) as [[e|y] s1]. Qed.

Lemma transaction_inl `{Host} {A} (body : M Store A) s e s' :
  transaction body s = (inl e, s') → s' = s.
Proof. unfold transaction. destruct (body s) as [[e'|y] s1]; congruence. Qed.

Section ProcessorFrames.
Context `{MailUtils} `{Host}.
Variable account : Account.

Lemma appendToThreadSearchContent_frame thread m b :
  preserves sameMail (appendToThreadSearchContent thread m b).
Proof. unfold appendToThreadSearchContent. frame. Qed.

Lemma appendToThreadSearchContent_thread thread m b s thread' s' :
  appendToThreadSearchContent thread m b s = (inr thread', s') →
  t_id thread' = t_id thread ∧ t_accountId thread' = t_accountId thread ∧
  t_subject thread' = t_subject thread ∧ gThrId thread' = gThrId thread.
Proof.
  unfold appendToThreadSearchContent, bind, get, exec, modify, ret, throw.
  repeat case_bool_decide; destruct (sqliteFault _); intros E; simplify_eq; done.
Qed.

Lemma upsertContacts_frame message : preserves sameMail (upsertContacts message).
Proof. unfold upsertContacts, saveLoaded, saveNew. frame. Qed.

Lemma insertOrIgnoreReference_run r s :
  insertOrIgnoreReference r s =
    match sqliteFault (InsertOrIgnore "ThreadReference" (r_headerMessageId r)) with
    | Some code => (inl (SQLiteException code), s)
    | None => (inr tt, withThreadReferences (λ rows, addReference rows r) s)
    end.
Proof. unfold insertOrIgnoreReference, bind, exec. by destruct (sqliteFault _). Qed.

Lemma upsertThreadReferences_frame tid aid hmid refs :
  preserves (λ s s', same Messages s s' ∧ same deltas s s' ∧ same Threads s s')
    (upsertThreadReferences tid aid hmid refs).
Proof.
  assert (PreOrder (λ s s', same Messages s s' ∧ same deltas s s' ∧ same Threads s s')).
  { split; [by intros s|]. intros s1 s2 s3 (A1 & A2 & A3) (B1 & B2 & B3).
    unfold same in *. repeat split; congruence. }
  unfold upsertThreadReferences, insertOrIgnoreReference. frame.
Qed.

Lemma forM_references_inr tid aid l s s' :
  forM_ l (λ address, insertOrIgnoreReference (referenceRow tid aid address)) s = (inr tt, s') →
  ThreadReferences s' = foldl addReference (ThreadReferences s) (referenceRow tid aid <$> l).
Proof.
  revert s. induction l as [|a l IH]; intros s; simpl.
  - unfold forM_, ret; simpl. by intros [= <-].
  - unfold forM_; simpl. intros E. apply bind_inr in E as (y & s1 & E1 & E2).
    rewrite insertOrIgnoreReference_run in E1.
    destruct (sqliteFault _); simplify_eq. apply IH in E2. rewrite E2. done.
Qed.

Lemma upsertThreadReferences_inr tid aid hmid refs s s' :
  upsertThreadReferences tid aid hmid refs s = (inr tt, s') →
  ThreadReferences s' =
    foldl addReference (ThreadReferences s) (referenceRow tid aid <$> hmid :: take 100 refs).
Proof.
  unfold upsertThreadReferences. intros E.
  apply bind_inr in E as (y & s1 & E1 & E2).
  rewrite insertOrIgnoreReference_run in E1.
  destruct (sqliteFault _); simplify_eq.
  assert (Ht : take (100 `min` length refs) refs = take 100 refs).
  { destruct (decide (100 ≤ length refs)%nat).
    - by rewrite Nat.min_l.
    - rewrite Nat.min_r by lia. rewrite !take_ge by lia. done. }
  rewrite Ht in E2.
  apply (forM_references_inr tid aid) in E2. rewrite E2. reflexivity.
Qed.
End ProcessorFrames.

Lemma matches_equal `{MailModel T} col v (row : T) :
  matches (equal col v Query_) row = true ↔ column col row = Some v.
Proof.
  unfold matches, equal, clauseHolds; simpl. rewrite andb_true_r.
  destruct (column col row) as [w|]; [|done].
  rewrite bool_decide_eq_true, list_elem_of_singleton. split; congruence.
Qed.

Lemma selectAll_equal `{MailModel T} col v s :
  selectAll (T:=T) (equal col v Query_) s =
    filter (λ row, column col row = Some v) (map_to_list (table s)).*2.
Proof.
  unfold selectAll, applyLimit; simpl. apply list_filter_iff. intros row. apply matches_equal.
Qed.

Lemma take_min_length {A} n (l : list A) : take (n `min` length l) l = take n l.
Proof.
  destruct (decide (n ≤ length l)%nat).
  - by rewrite Nat.min_l.
  - rewrite Nat.min_r by lia. rewrite !take_ge by lia. done.
Qed.

Section StoreRuns.
Context `{Host} `{MailModel T}.

Lemma saveLoaded_run (row : T) emit s :
  saveLoaded row emit s =
    match sqliteFault (UpdateRow (tableName (T:=T)) (modelId row)) with
    | Some code => (inl (SQLiteException code), s)
    | None => (inr tt, emitted emit (deltaOf Persist row)
                         (withTable (alter (λ _, row) (modelId row)) s))
    end.
Proof.
  unfold saveLoaded, bind, exec, modify, emitDelta, emitted.
  destruct (sqliteFault _); [done|]. by destruct emit.
Qed.

Lemma saveNew_run (row : T) emit s :
  saveNew row emit s =
    match sqliteFault (InsertInto (tableName (T:=T)) (modelId row)) with
    | Some code => (inl (SQLiteException code), s)
    | None =>
        match table s !! modelId row with
        | Some _ => (inl (SQLiteException SQLITE_CONSTRAINT), s)
        | None => (inr tt, emitted emit (deltaOf Persist row)
                             (withTable (insert (modelId row) row) s))
        end
    end.
Proof.
  unfold saveNew, bind, exec, modify, emitDelta, emitted, get.
  destruct (sqliteFault _); [done|]. simpl.
  destruct (table s !! modelId row); [done|]. by destruct emit.
Qed.

Lemma remove_run (row : T) s :
  remove row s =
    match sqliteFault (DeleteFrom (tableName (T:=T)) (modelId row)) with
    | Some code => (inl (SQLiteException code), s)
    | None => (inr tt, withDeltas (λ ds, ds ++ [deltaOf Unpersist row])
                         (withTable (delete (modelId row)) s))
    end.
Proof.
  unfold remove, bind, exec, modify, emitDelta. by destruct (sqliteFault _).
Qed.
End StoreRuns.

Section InsertMessage.
Context `{MailUtils} `{Host}.
Variable account : Account.

Lemma insertMessage_inl mMsg folder ts s e s' :
  insertMessage account mMsg folder ts s = (inl e, s') → s' = s.
Proof. unfold insertMessage. apply transaction_inl. Qed.

Lemma insertMessage_inr mMsg folder ts s msg s' :
  insertMessage account mMsg folder ts s = (inr msg, s') →
  let refs := default [] (references (header mMsg)) in
  let msg0 := newMessage mMsg folder ts in
  let found := reconciledThread mMsg (f_accountId folder) s in
  let thread0 := default (newThread (id msg0) (acc_id account) (subject msg0)
                            (gmailThreadID mMsg)) found in
  ∃ thread1,
    msg = setThreadId (t_id thread0) msg0 ∧
    t_id thread1 = t_id thread0 ∧ t_accountId thread1 = t_accountId thread0 ∧
    t_subject thread1 = t_subject thread0 ∧
    Messages s !! id msg0 = None ∧
    Messages s' = <[id msg0 := msg]> (Messages s) ∧
    Threads s' = match found with
                 | Some _ => alter (λ _, thread1) (t_id thread0) (Threads s)
                 | None => <[t_id thread0 := thread1]> (Threads s)
                 end ∧
    (found = None → Threads s !! t_id thread0 = None) ∧
    ThreadReferences s' =
      foldl addReference (ThreadReferences s)
        (referenceRow (t_id thread0) (t_accountId thread0) <$>
           messageID (header mMsg) :: take 100 refs) ∧
    deltas s' = deltas s ++ [threadDelta Persist (t_id thread0);
                             messageDelta Persist (id msg0)].
Proof.
  intros E refs msg0 found thread0. unfold insertMessage in E. apply transaction_inr in E.
  cbv zeta in E. rewrite take_min_length in E.
  apply bind_inr in E as (found' & s0 & Efound & E).
  assert (s0 = s ∧ found' = reconciledThread mMsg (f_accountId folder) s) as [-> ->].
  { unfold reconciledThread. rewrite bool_decide_decide in Efound.
    destruct (decide (gmailThreadID mMsg ≠ 0)).
    - unfold find in Efound. rewrite selectAll_equal in Efound. simplify_eq. split; [done|].
      f_equal. apply list_filter_iff. intros t.
      change (column "gThrId" t) with (Some (CInt (gThrId t))).
      split; intros; congruence.
    - destruct (isMessageIDAutoGenerated (header mMsg)); cbn [negb] in Efound.
      + unfold ret in Efound. by simplify_eq.
      + unfold findThreadByReferences in Efound. simplify_eq. split; [done|].
        f_equal. apply list_omap_ext.
        apply Forall2_same_length_lookup_2; [done|]. intros i r r' Hr Hr'.
        simplify_eq. clear E.
        destruct (decide (r_accountId r = f_accountId folder ∧
                          r_headerMessageId r ∈ messageID (header mMsg)
                            :: take 50 (default [] (references (header mMsg))))) as [B|B].
        * rewrite bool_decide_true; [done|exact B].
        * rewrite bool_decide_false; [done|exact B]. }
  fold found msg0 in E.
  set (thread0' := match found with Some t => t | None => _ end) in E.
  assert (thread0' = thread0) as Ht0 by done. clearbody thread0'. subst thread0'.
  apply bind_inr in E as (thread1 & s1 & Eapp & E).
  pose proof (run_preserves _ _ _ _ _ (appendToThreadSearchContent_frame _ _ _) Eapp)
    as (M1 & D1 & T1 & R1).
  apply appendToThreadSearchContent_thread in Eapp as (I1 & A1 & S1 & _).
  apply bind_inr in E as ([] & s2 & Esave & E).
  apply bind_inr in E as ([] & s3 & Emsg & E).
  apply bind_inr in E as ([] & s4 & Erefs & E).
  apply bind_inr in E as ([] & s5 & Econ & E).
  unfold ret in E. simplify_eq.
  pose proof (run_preserves _ _ _ _ _ (upsertContacts_frame _) Econ) as (M5 & D5 & T5 & R5).
  pose proof (run_preserves _ _ _ _ _ (upsertThreadReferences_frame _ _ _ _) Erefs)
    as (M4 & D4 & T4).
  apply upsertThreadReferences_inr in Erefs.
  unfold same in *.
  exists thread1.
  (* the save of the thread *)
  assert (Messages s2 = Messages s1 ∧ ThreadReferences s2 = ThreadReferences s1 ∧
          deltas s2 = deltas s1 ++ [threadDelta Persist (t_id thread0)] ∧
          Threads s2 = match found with
                       | Some _ => alter (λ _, thread1) (t_id thread0) (Threads s1)
                       | None => <[t_id thread0 := thread1]> (Threads s1)
                       end ∧
          (found = None → Threads s1 !! t_id thread0 = None)) as (M2 & R2 & D2 & T2 & N2).
  { unfold save in Esave. clearbody found. destruct found as [t|].
    - rewrite bool_decide_true in Esave by eauto.
      rewrite saveLoaded_run in Esave.
      destruct (sqliteFault _); [done|]. injection Esave as <-. simpl.
      unfold deltaOf, threadDelta; simpl. rewrite I1. done.
    - rewrite bool_decide_false in Esave by (by intros [? ?]).
      rewrite saveNew_run in Esave.
      destruct (sqliteFault _); [done|]. simpl in Esave.
      destruct (Threads s1 !! t_id thread1) eqn:El; [done|]. injection Esave as <-. simpl.
      unfold deltaOf, threadDelta; simpl. rewrite I1 in *. done. }
  (* the save of the message *)
  assert (Messages s2 !! id msg0 = None ∧
          Messages s3 = <[id msg0 := setThreadId (t_id thread0) msg0]> (Messages s2) ∧
          Threads s3 = Threads s2 ∧ ThreadReferences s3 = ThreadReferences s2 ∧
          deltas s3 = deltas s2 ++ [messageDelta Persist (id msg0)])
    as (N3 & M3 & T3 & R3 & D3).
  { rewrite saveNew_run in Emsg.
    destruct (sqliteFault _); [done|]. simpl in Emsg.
    destruct (Messages s2 !! _) eqn:El in Emsg; [done|]. injection Emsg as <-.
    split; [exact El|]. done. }
  split_and!; [done|done|done|done|..].
  - rewrite <- M1, <- M2. exact N3.
  - rewrite M5, M4, M3, M2, M1. done.
  - rewrite T5, T4, T3, T2, T1. done.
  - intros Hn. rewrite <- T1. auto.
  - rewrite R5, Erefs, R3, R2, R1, A1, I1. done.
  - rewrite D5, D4, D3, D2, D1, <- app_assoc. done.
Qed.
End InsertMessage.

Section Keyed.
Implicit Types (s : Store) (m : Message).

Lemma elem_of_rows s m :
  keyed s → m ∈ (map_to_list (Messages s)).*2 ↔ Messages s !! id m = Some m.
Proof.
  intros Hk. rewrite list_elem_of_fmap. split.
  - intros ([k m'] & -> & Hin). apply elem_of_map_to_list in Hin. simpl.
    by rewrite (Hk _ _ Hin).
  - intros Hl. exists (id m, m). split; [done|]. by apply elem_of_map_to_list.
Qed.

Lemma rows_NoDup s : keyed s → NoDup (map_to_list (Messages s)).*2.
Proof.
  intros Hk. apply NoDup_fmap_2_strong; [|apply NoDup_map_to_list].
  intros [k1 m1] [k2 m2] H1 H2 Heq. simpl in Heq. subst m2.
  apply elem_of_map_to_list in H1, H2.
  by rewrite <- (Hk _ _ H1), <- (Hk _ _ H2).
Qed.

Lemma selectAll_elem q s m :
  keyed s → m ∈ selectAll q s → Messages s !! id m = Some m ∧ matches q m = true.
Proof.
  intros Hk Hin. unfold selectAll, applyLimit in Hin.
  assert (m ∈ filter (λ row, matches q row = true) (map_to_list (Messages s)).*2) as Hf.
  { destruct (q_limit q); [|done].
    apply elem_of_take in Hin as (k & Hk' & _). by eapply list_elem_of_lookup_2. }
  apply list_elem_of_filter in Hf as [Hm Hr]. split; [|done]. by apply elem_of_rows.
Qed.

Lemma selectAll_no_limit q s m :
  keyed s → q_limit q = None →
  m ∈ selectAll q s ↔ Messages s !! id m = Some m ∧ matches q m = true.
Proof.
  intros Hk Hl. unfold selectAll, applyLimit. rewrite Hl, list_elem_of_filter.
  rewrite elem_of_rows by done. tauto.
Qed.

Lemma selectAll_NoDup q s : keyed s → NoDup (selectAll (T:=Message) q s).
Proof.
  intros Hk. unfold selectAll, applyLimit.
  pose proof (NoDup_filter (λ row, matches q row = true) _ (rows_NoDup s Hk)) as Hn.
  destruct (q_limit q); [|done]. eapply sublist_NoDup; [exact Hn|apply sublist_take].
Qed.

Lemma selectAll_by_id s i :
  keyed s →
  selectAll (equal "id" (CStr i) Query_) s =
    match Messages s !! i with Some m => [m] | None => [] end.
Proof.
  intros Hk.
  assert (∀ m, m ∈ selectAll (equal "id" (CStr i) Query_) s ↔ Messages s !! i = Some m) as Hin.
  { intros m. rewrite selectAll_no_limit by done. rewrite matches_equal.
    change (column "id" m) with (Some (CStr (id m))). split.
    - intros [Hl Hid]. by simplify_eq.
    - intros Hl. pose proof (Hk _ _ Hl) as <-. done. }
  pose proof (selectAll_NoDup (equal "id" (CStr i) Query_) s Hk) as Hn.
  destruct (Messages s !! i) as [m|] eqn:El.
  - apply Permutation_singleton_r. apply NoDup_Permutation; [done|apply NoDup_singleton|].
    intros x. rewrite Hin, list_elem_of_singleton. split; congruence.
  - destruct (selectAll _ s) as [|x l] eqn:Es; [done|].
    assert (x ∈ x :: l) as Hx by left. by apply Hin in Hx.
Qed.

Lemma find_by_id `{Host} s i :
  keyed s → find (equal "id" (CStr i) Query_) s = (inr (Messages s !! i), s).
Proof.
  intros Hk. unfold find. rewrite selectAll_by_id by done. by destruct (Messages s !! i).
Qed.
End Keyed.

Section Unlink.
Context `{MailUtils} `{Host}.

Lemma unlinkMessages_inr l phase s s' :
  unlinkMessages l phase s = (inr tt, s') →
  s' = withMessages (λ M, foldl (stampRow phase) M l) s.
Proof.
  revert s. induction l as [|m l IH]; intros s; unfold unlinkMessages, forM_; simpl.
  - unfold ret. intros [= <-]. destruct s; reflexivity.
  - intros E. apply bind_inr in E as ([] & s1 & E1 & E2).
    apply IH in E2. subst s'.
    assert (Messages s1 = stampRow phase (Messages s) m ∧
            s1 = withMessages (λ _, Messages s1) s) as [E3 E4].
    { unfold stampRow, marked.
      destruct (bool_decide (remoteUID m > UINT32_MAX - 5)).
      - unfold ret in E1. injection E1 as <-. split; [done|]. by destruct s.
      - rewrite saveLoaded_run in E1. destruct (sqliteFault _); [done|].
        injection E1 as <-. done. }
    rewrite E4. unfold withMessages; simpl. by rewrite E3.
Qed.

Lemma foldl_stampRow_lookup phase (M0 : gmap string Message) l i :
  (∀ k m, M0 !! k = Some m → id m = k) →
  (∀ m, m ∈ l → M0 !! id m = Some m) →
  foldl (stampRow phase) M0 l !! i =
    match M0 !! i with
    | Some m => Some (if bool_decide (id m ∈ id <$> l) then stamp phase m else m)
    | None => None
    end.
Proof.
  intros Hk. induction l as [|x l IH] using rev_ind; intros Hl.
  - simpl. by destruct (M0 !! i).
  - rewrite foldl_app. simpl.
    assert (M0 !! id x = Some x) as Hx by (apply Hl, elem_of_app; right; left).
    assert (∀ m, m ∈ l → M0 !! id m = Some m) as Hl'
      by (intros m Hm; apply Hl, elem_of_app; by left).
    specialize (IH Hl'). rewrite fmap_app. simpl.
    assert (∀ m, id m ≠ id x →
              bool_decide (id m ∈ (id <$> l) ++ [id x]) = bool_decide (id m ∈ id <$> l))
      as Hother.
    { intros m Hne. apply bool_decide_ext. rewrite elem_of_app, list_elem_of_singleton.
      tauto. }
    assert (bool_decide (id x ∈ (id <$> l) ++ [id x]) = true) as Hself.
    { apply bool_decide_eq_true. apply elem_of_app. right. left. }
    unfold stampRow at 1. destruct (bool_decide (marked x)) eqn:Hmx.
    + rewrite IH. destruct (M0 !! i) as [m|] eqn:Em; [|done]. f_equal.
      pose proof (Hk _ _ Em) as Hid.
      destruct (decide (id m = id x)) as [Heq|Hne].
      * assert (m = x) as -> by congruence.
        rewrite Hself. unfold stamp. rewrite Hmx. by destruct (bool_decide _).
      * by rewrite Hother.
    + destruct (decide (i = id x)) as [->|Hne].
      * rewrite lookup_alter_eq, IH, Hx. simpl.
        rewrite Hself. unfold stamp. by rewrite Hmx.
      * rewrite lookup_alter_ne by done. rewrite IH.
        destruct (M0 !! i) as [m|] eqn:Em; [|done]. f_equal.
        pose proof (Hk _ _ Em) as Hid. rewrite Hother by congruence. done.
Qed.

(** An unlink pass either fails and leaves the store as it was, or
    stamps the selected messages that carry no marker and changes nothing
    else. *)
Lemma unlinkMessagesMatchingQuery_run query phase s :
  keyed s →
  match unlinkMessagesMatchingQuery query phase s with
  | (inl _, s') => s' = s
  | (inr _, s') =>
      ∃ M', s' = withMessages (λ _, M') s ∧
        ∀ i, M' !! i =
          match Messages s !! i with
          | Some m => Some (if bool_decide (id m ∈ id <$> selectAll query s)
                            then stamp phase m else m)
          | None => None
          end
  end.
Proof.
  intros Hk. unfold unlinkMessagesMatchingQuery, transaction, bind, findAll.
  destruct (unlinkMessages _ phase s) as [[e|[]] s'] eqn:E; [done|].
  apply unlinkMessages_inr in E. subst s'.
  eexists. split; [done|]. intros i. apply foldl_stampRow_lookup; [exact Hk|].
  intros m Hm. by apply selectAll_elem in Hm as [? _].
Qed.
End Unlink.

Section Delete.
Context `{MailUtils} `{Host}.
Variable account : Account.

Lemma stillUnlinkedQuery_matches phase m :
  matches (stillUnlinkedQuery account phase) m = true ↔ stillUnlinked account phase m.
Proof.
  unfold matches, stillUnlinkedQuery, clauseHolds, stillUnlinked; simpl.
  change (messageColumn "accountId" m) with (Some (CStr (accountId m))).
  change (messageColumn "remoteUID" m) with (Some (CInt (remoteUID m))).
  rewrite andb_true_r, andb_true_iff, !bool_decide_eq_true, !list_elem_of_singleton.
  unfold marker. split; intros [A B]; split; congruence.
Qed.

Lemma forM_remove_inr (l : list Message) s s' :
  forM_ l (λ msg, remove msg) s = (inr tt, s') →
  s' = withDeltas (λ ds, ds ++ (deltaOf Unpersist <$> l))
         (withMessages (λ M, foldl (λ M m, delete (id m) M) M l) s).
Proof.
  revert s. induction l as [|m l IH]; intros s; unfold forM_; simpl.
  - unfold ret. intros [= <-]. destruct s; unfold withDeltas, withMessages; simpl.
    by rewrite app_nil_r.
  - intros E. apply bind_inr in E as ([] & s1 & E1 & E2).
    apply IH in E2. subst s'. rewrite remove_run in E1.
    destruct (sqliteFault _); [done|]. injection E1 as <-.
    unfold withDeltas, withMessages; simpl. by rewrite <- app_assoc.
Qed.

Lemma foldl_delete_lookup (M0 : gmap string Message) (l : list Message) i :
  foldl (λ M m, delete (id m) M) M0 l !! i =
    if bool_decide (i ∈ id <$> l) then None else M0 !! i.
Proof.
  revert M0. induction l as [|x l IH]; intros M0; [done|].
  rewrite fmap_cons. cbn [foldl]. rewrite IH.
  destruct (decide (i = id x)) as [->|Hne].
  - rewrite lookup_delete_eq. rewrite (bool_decide_true (id x ∈ id x :: _)) by left.
    by destruct (bool_decide _).
  - rewrite lookup_delete_ne by done.
    case_bool_decide as A; case_bool_decide as B; try done.
    + exfalso. apply B. by right.
    + apply elem_of_cons in B as [B|B]; done.
Qed.

Lemma onlyDeletes_trans phase s1 s2 s3 :
  onlyDeletes account phase s1 s2 → onlyDeletes account phase s2 s3 →
  onlyDeletes account phase s1 s3.
Proof.
  intros (K2 & A2 & B2) (K3 & A3 & B3). split_and!; [done|..].
  - intros i m' Hm. auto.
  - intros i m Hm Hn. auto.
Qed.

(** One turn of the loop either fails and leaves the store as it was, or
    removes the chunk it selected. *)
Lemma deleteChunk_run phase s :
  let l := selectAll (stillUnlinkedQuery account phase) s in
  match deleteChunk account phase s with
  | (inl _, s') => s' = s
  | (inr more, s') =>
      more = negb (bool_decide (length l < chunkSize)%nat) ∧
      s' = withDeltas (λ ds, ds ++ (deltaOf Unpersist <$> l))
             (withMessages (λ M, foldl (λ M m, delete (id m) M) M l) s)
  end.
Proof.
  intros l. unfold deleteChunk, transaction, bind, findAll. fold l.
  destruct (forM_ l (λ msg : Message, remove msg) s) as [[e|[]] s1] eqn:E; [done|].
  apply forM_remove_inr in E. by subst s1.
Qed.

Lemma deleteChunk_onlyDeletes phase s r s' :
  keyed s → deleteChunk account phase s = (r, s') → onlyDeletes account phase s s'.
Proof.
  intros Hk E. pose proof (deleteChunk_run phase s) as Hrun. rewrite E in Hrun.
  destruct r as [e|more]; simpl in Hrun.
  - subst s'. by repeat split.
  - destruct Hrun as [_ ->]. unfold onlyDeletes, keyed. simpl.
    assert (∀ i m', foldl (λ M m, delete (id m) M) (Messages s)
                      (selectAll (stillUnlinkedQuery account phase) s) !! i = Some m' →
                    Messages s !! i = Some m') as Hsub.
    { intros i m'. rewrite foldl_delete_lookup. by destruct (bool_decide _). }
    split_and!.
    + intros i m' Hm. apply Hk. by apply Hsub.
    + exact Hsub.
    + intros i m Hm Hn.
      rewrite foldl_delete_lookup. rewrite bool_decide_false; [done|].
      intros Hin. apply list_elem_of_fmap in Hin as (x & Hix & Hx).
      apply selectAll_elem in Hx as [Hx Hq]; [|done].
      rewrite <- Hix in Hx. assert (x = m) as -> by congruence.
      by apply stillUnlinkedQuery_matches in Hq.
Qed.

Lemma selectAll_limit_short n q s :
  (length (selectAll (T:=Message) (limit n q) s) < n)%nat →
  selectAll (limit n q) s = selectAll (T:=Message) {| clauses := clauses q; q_limit := None |} s.
Proof.
  unfold selectAll, applyLimit, matches; simpl. rewrite length_take. intros Hl.
  apply take_ge. lia.
Qed.

(** The loop: with enough fuel it is left because [more] became false,
    and then no message the pass looks for is left; whatever happens, it
    only deletes. *)
Lemma deleteLoop_spec phase fuel s :
  keyed s → (size (Messages s) < fuel)%nat →
  match deleteLoop account fuel phase s with
  | (inr b, s') =>
      b = true ∧ (∀ i m', Messages s' !! i = Some m' → ¬ stillUnlinked account phase m') ∧
      onlyDeletes account phase s s'
  | (inl _, s') => onlyDeletes account phase s s'
  end.
Proof.
  revert s. induction fuel as [|fuel IH]; intros s Hk Hsize; [lia|].
  simpl. unfold bind.
  destruct (deleteChunk account phase s) as [[e|more] s1] eqn:E.
  { by eapply deleteChunk_onlyDeletes. }
  pose proof (deleteChunk_onlyDeletes _ _ _ _ Hk E) as Hod.
  pose proof (deleteChunk_run phase s) as Hrun. rewrite E in Hrun.
  simpl in Hrun. destruct Hrun as [Hmore Hs1].
  symmetry in Hmore. destruct more.
  - (* a full chunk was removed: the table got smaller *)
    assert (size (Messages s1) < size (Messages s))%nat as Hlt.
    { apply negb_true_iff, bool_decide_eq_false in Hmore.
      destruct (selectAll (stillUnlinkedQuery account phase) s) as [|x l'] eqn:El.
      { unfold chunkSize in Hmore; simpl in Hmore; lia. }
      assert (x ∈ selectAll (stillUnlinkedQuery account phase) s) as Hx
        by (rewrite El; left).
      apply selectAll_elem in Hx as [Hx _]; [|done].
      apply map_subset_size. split.
      - apply map_subseteq_spec. intros i m Hm. by apply Hod.
      - intros Hsub. rewrite map_subseteq_spec in Hsub. specialize (Hsub _ _ Hx).
        rewrite Hs1 in Hsub. simpl in Hsub.
        rewrite foldl_delete_lookup in Hsub.
        destruct (bool_decide _); [done|]. by rewrite lookup_delete_eq in Hsub. }
    specialize (IH s1 (proj1 Hod) ltac:(lia)).
    destruct (deleteLoop account fuel phase s1) as [[e|b] s2].
    + by eapply onlyDeletes_trans.
    + destruct IH as (-> & Hnone & Hod2). split_and!; [done|done|].
      by eapply onlyDeletes_trans.
  - unfold ret. split_and!; [done| |done].
    apply negb_false_iff, bool_decide_eq_true in Hmore.
    intros i m' Hm' Hq.
    pose proof (proj1 (proj2 Hod) _ _ Hm') as Hm.
    rewrite Hs1 in Hm'. simpl in Hm'. rewrite foldl_delete_lookup in Hm'.
    rewrite bool_decide_true in Hm'; [done|].
    apply list_elem_of_fmap. exists m'. split; [by rewrite (Hk _ _ Hm)|].
    unfold stillUnlinkedQuery. unfold stillUnlinkedQuery in Hmore.
    rewrite selectAll_limit_short by exact Hmore.
    apply selectAll_no_limit; [done|done|]. split; [by rewrite (Hk _ _ Hm)|].
    by apply stillUnlinkedQuery_matches.
Qed.

Lemma deleteMessagesStillUnlinkedFromPhase_spec phase s :
  keyed s →
  match deleteMessagesStillUnlinkedFromPhase account phase s with
  | (inr b, s') =>
      b = true ∧ (∀ i m', Messages s' !! i = Some m' → ¬ stillUnlinked account phase m') ∧
      onlyDeletes account phase s s'
  | (inl _, s') => onlyDeletes account phase s s'
  end.
Proof.
  intros Hk. unfold deleteMessagesStillUnlinkedFromPhase. apply deleteLoop_spec; [done|lia].
Qed.

(** When the SQL engine refuses no deletion, the loop does not throw. *)
Lemma deleteLoop_healthy phase fuel s :
  (∀ i, sqliteFault (DeleteFrom "Message" i) = None) →
  ∃ b s', deleteLoop account fuel phase s = (inr b, s').
Proof.
  intros Hh. revert s. induction fuel as [|fuel IH]; intros s; simpl.
  - by eexists _, _.
  - unfold bind.
    assert (∃ more s1, deleteChunk account phase s = (inr more, s1)) as (more & s1 & ->).
    { unfold deleteChunk, transaction, bind, findAll.
      assert (∀ l s, ∃ s1, forM_ l (λ msg : Message, remove msg) s = (inr tt, s1)) as Hall.
      { clear -Hh. intros l. induction l as [|m l IHl]; intros s; unfold forM_; simpl.
        - by eexists.
        - unfold bind. rewrite remove_run. change (tableName (T:=Message)) with "Message".
          change (modelId m) with (id m). rewrite Hh. apply IHl. }
      destruct (Hall (selectAll (stillUnlinkedQuery account phase) s) s) as [s1 ->].
      by eexists _, _. }
    destruct more; [apply IH|]. by eexists _, _.
Qed.
End Delete.

Section Calls.
Context `{MailUtils} `{Host}.
Variable account : Account.

Lemma keyed_alter s (m' : Message) i :
  keyed s → id m' = i → keyed (withMessages (alter (λ _, m') i) s).
Proof.
  intros Hk Hid k m. simpl. destruct (decide (k = i)) as [->|Hne].
  - rewrite lookup_alter_eq. destruct (Messages s !! i); simpl; congruence.
  - rewrite lookup_alter_ne by done. apply Hk.
Qed.

(** An update of a stored message changes no other row, and the row
    itself only to the updated message, with a later [syncedAt]. *)
Lemma updateMessage_rows local remote folder ts s :
  keyed s → Messages s !! id local = Some local →
  let s' := (updateMessage local remote folder ts s).2 in
  keyed s' ∧
  ∀ i m, Messages s !! i = Some m →
    ∃ m', Messages s' !! i = Some m' ∧
      (m' = m ∨ (m = local ∧ syncedAt m ≤ ts ∧ m' = updatedMessage m remote folder ts)).
Proof.
  intros Hk Hl. rewrite updateMessage_cases.
  destruct (decide (syncedAt local > ts)); [by eauto|].
  destruct (decide (unchangedAttributes local remote folder)); [by eauto|].
  destruct (sqliteFault _); [by eauto|]. cbv zeta. unfold keyed. simpl. split.
  - intros k m. destruct (decide (k = id local)) as [->|Hne].
    + rewrite lookup_alter_eq, Hl. simpl. by intros [= <-].
    + rewrite lookup_alter_ne by done. apply Hk.
  - intros i m Hm. destruct (decide (i = id local)) as [->|Hne].
    + assert (m = local) as -> by congruence.
      rewrite lookup_alter_eq, Hl. simpl. eexists. split; [done|]. right.
      split_and!; [done|lia|done].
    + rewrite lookup_alter_ne by done. eauto.
Qed.

Lemma retrievedFiles_frame message parser files0 :
  preserves (same Messages)
    (foldM (λ (files : list File) (a : Attachment),
      let f := newFile message a in
      let duplicate := existsb (λ other, bool_decide (partId other = partID a)) files in
      let f := if bool_decide (contentId f = None) &&
                  strstr (htmlRendering parser) ("cid:" +:+ filename f)
               then setContentId (filename f) f else f in
      if negb duplicate then
        retrievedFileData f (att_data a);;
        ret (files ++ [f])
      else ret files) files0 (attachments parser ++ htmlInlineAttachments parser)).
Proof. unfold retrievedFileData. frame. Qed.

Lemma retrievedMessageBody_rows message parser s :
  let s' := (retrievedMessageBody message parser s).2 in
  Messages s' = Messages s ∨
  ∃ fs sn, Messages s' =
    alter (λ _, setFiles fs (setSnippet sn message)) (id message) (Messages s).
Proof.
  destruct (retrievedMessageBody message parser s) as [r s1] eqn:E. simpl.
  unfold retrievedMessageBody in E. cbv zeta in E. unfold bind at 1 in E.
  destruct (foldM _ [] _ s) as [[e|files] s0] eqn:Efiles.
  { left. injection E as <- <-.
    by apply (run_preserves _ _ _ _ _ (retrievedFiles_frame message parser []) Efiles). }
  pose proof (run_preserves _ _ _ _ _ (retrievedFiles_frame message parser []) Efiles) as M0.
  unfold same in M0. rename E into Etx.
  destruct r as [e|msg].
  { left. apply transaction_inl in Etx. by rewrite Etx. }
  right. apply transaction_inr in Etx.
  apply bind_inr in Etx as ([] & s2 & E2 & Etx).
  apply bind_inr in Etx as ([] & s3 & E3 & Etx).
  apply bind_inr in Etx as ([] & s4 & E4 & Etx).
  apply bind_inr in Etx as (thread & s5 & E5 & Etx).
  apply bind_inr in Etx as ([] & s6 & E6 & Etx).
  apply bind_inr in Etx as ([] & s7 & E7 & Etx).
  unfold ret in Etx. injection Etx as <- <-.
  assert (Messages s2 = Messages s0) as M2.
  { eapply (run_preserves (same Messages)); [|exact E2]. apply preserves_exec; apply _. }
  assert (Messages s3 = Messages s2) as M3.
  { eapply (run_preserves (same Messages)); [|exact E3]. frame. }
  assert (Messages s4 = Messages s3) as M4.
  { eapply (run_preserves (same Messages)); [|exact E4]. unfold saveFiles. frame. }
  assert (Messages s5 = Messages s4) as M5.
  { eapply (run_preserves (same Messages)); [|exact E5]. frame. }
  assert (Messages s6 = Messages s5) as M6.
  { destruct thread as [t|].
    - apply bind_inr in E6 as (t' & s6' & E6 & E6').
      unfold ret in E6'. injection E6' as <-.
      by apply (run_preserves _ _ _ _ _ (appendToThreadSearchContent_frame _ _ _) E6).
    - unfold ret in E6. by injection E6 as <-. }
  rewrite saveLoaded_run in E7. destruct (sqliteFault _); [done|].
  injection E7 as <-. simpl. eexists _, _. rewrite M6, M5, M4, M3, M2, M0. done.
Qed.

(** The insert with its fallback, on a keyed store: what the insert
    returns; or, exactly when the insert failed with SQLITE_CONSTRAINT and
    the message is stored, the update of the stored message; or the error
    of the insert, with the store as it was. *)
Lemma insertFallbackToUpdateMessage_run mMsg folder ts s :
  keyed s →
  insertFallbackToUpdateMessage account mMsg folder ts s =
    match insertMessage account mMsg folder ts s with
    | (inr msg, s') => (inr msg, s')
    | (inl e, _) =>
        if decide (e = SQLiteException 19) then
          match Messages s !! idForMessage (f_accountId folder) (f_path folder) mMsg with
          | Some local => updateMessage local mMsg folder ts s
          | None => (inl e, s)
          end
        else (inl e, s)
    end.
Proof.
  intros Hk. unfold insertFallbackToUpdateMessage, try_catch.
  destruct (insertMessage account mMsg folder ts s) as [[e|msg] s'] eqn:E; [|done].
  apply insertMessage_inl in E. subst s'.
  destruct e as [code| |]; try (by rewrite decide_False).
  rewrite bool_decide_decide.
  destruct (decide (code ≠ 19)) as [Hne|Heq].
  - rewrite decide_False by congruence. done.
  - apply dec_stable in Heq. subst code. rewrite decide_True by done.
    unfold bind. rewrite find_by_id by done.
    by destruct (Messages s !! _).
Qed.

Lemma insertFallbackToUpdateMessage_rows phase mMsg folder ts s :
  keyed s →
  let s' := (insertFallbackToUpdateMessage account mMsg folder ts s).2 in
  keyed s' ∧
  ∀ i m, Messages s !! i = Some m →
    ∃ m', Messages s' !! i = Some m' ∧
      rowStep phase s (CallInsertFallbackToUpdate mMsg folder ts) m m'.
Proof.
  intros Hk. rewrite insertFallbackToUpdateMessage_run by done.
  destruct (insertMessage account mMsg folder ts s) as [[e|msg] s1] eqn:E.
  - destruct (decide _); [|split; [done|intros; eexists; split; [done|constructor]]].
    destruct (Messages s !! _) as [local|] eqn:El;
      [|split; [done|intros; eexists; split; [done|constructor]]].
    pose proof (Hk _ _ El) as Hid. rewrite <- Hid in El.
    destruct (updateMessage_rows local mMsg folder ts s Hk El) as [Hk' Hrows].
    split; [done|]. intros i m Hm. destruct (Hrows i m Hm) as (m' & Hm' & Hcase).
    exists m'. split; [done|]. destruct Hcase as [->|(-> & Hle & ->)]; [constructor|].
    by constructor.
  - apply insertMessage_inr in E. cbv zeta in E.
    destruct E as (thread1 & -> & _ & _ & _ & Hnone & HM & _). simpl. split.
    + intros k m. rewrite HM. destruct (decide (k = id (newMessage mMsg folder ts))) as [->|Hne].
      * rewrite lookup_insert_eq. by intros [= <-].
      * rewrite lookup_insert_ne by done. apply Hk.
    + intros i m Hm. exists m. split; [|constructor]. rewrite HM.
      rewrite lookup_insert_ne; [done|]. intros <-. congruence.
Qed.

(** A call changes stored messages only as [rowStep] says, removes none,
    and keeps the store keyed. *)
Lemma runCall_rows phase c s :
  keyed s →
  keyed (runCall account phase c s) ∧
  ∀ i m, Messages s !! i = Some m →
    ∃ m', Messages (runCall account phase c s) !! i = Some m' ∧ rowStep phase s c m m'.
Proof.
  intros Hk. destruct c as [mMsg folder ts|lid remote folder ts|query|lid parser]; simpl.
  - by apply insertFallbackToUpdateMessage_rows.
  - destruct (Messages s !! lid) as [local|] eqn:El;
      [|split; [done|intros; eexists; split; [done|constructor]]].
    pose proof (Hk _ _ El) as Hid. subst lid.
    destruct (updateMessage_rows local remote folder ts s Hk El) as [Hk' Hrows].
    split; [done|]. intros i m Hm. destruct (Hrows i m Hm) as (m' & Hm' & Hcase).
    exists m'. split; [done|]. destruct Hcase as [->|(-> & Hle & ->)]; [constructor|].
    by constructor.
  - pose proof (unlinkMessagesMatchingQuery_run query phase s Hk) as Hrun.
    destruct (unlinkMessagesMatchingQuery query phase s) as [[e|[]] s1]; simpl.
    + subst s1. split; [done|intros; eexists; split; [done|constructor]].
    + destruct Hrun as (M' & -> & HM'). simpl. split.
      * intros k m. rewrite HM'. destruct (Messages s !! k) as [m0|] eqn:Em0; [|done].
        intros [= <-]. pose proof (Hk _ _ Em0). unfold stamp.
        by repeat case_bool_decide.
      * intros i m Hm. rewrite HM', Hm. eexists. split; [done|].
        case_bool_decide as Hin; [|constructor].
        unfold stamp. case_bool_decide as Hmk; [constructor|].
        constructor; [|done].
        apply list_elem_of_fmap in Hin as (x & Hix & Hx).
        pose proof Hx as Hx'. apply selectAll_elem in Hx' as [Hx' _]; [|done].
        rewrite <- Hix, (Hk _ _ Hm), Hm in Hx'. congruence.
  - destruct (Messages s !! lid) as [local|] eqn:El;
      [|split; [done|intros; eexists; split; [done|constructor]]].
    pose proof (Hk _ _ El) as Hid. subst lid.
    destruct (retrievedMessageBody_rows local parser s) as [HM|(fs & sn & HM)].
    + split.
      * intros k m. rewrite HM. apply Hk.
      * intros i m Hm. rewrite HM. eexists. split; [done|constructor].
    + split.
      * intros k m. rewrite HM. destruct (decide (k = id local)) as [->|Hne].
        -- rewrite lookup_alter_eq, El. simpl. by intros [= <-].
        -- rewrite lookup_alter_ne by done. apply Hk.
      * intros i m Hm. rewrite HM. destruct (decide (i = id local)) as [->|Hne].
        -- rewrite lookup_alter_eq, El. simpl. eexists. split; [done|].
           assert (m = local) as -> by congruence. constructor.
        -- rewrite lookup_alter_ne by done. eexists. split; [done|constructor].
Qed.
End Calls.

Section Cycles.
Context `{MailUtils} `{Host}.
Variable account : Account.

Lemma runCalls_snoc phase calls c s :
  runCalls account phase (calls ++ [c]) s =
    runCall account phase c (runCalls account phase calls s).
Proof. unfold runCalls. by rewrite foldl_app. Qed.

Lemma runCalls_app phase calls1 calls2 s :
  runCalls account phase (calls1 ++ calls2) s =
    runCalls account phase calls2 (runCalls account phase calls1 s).
Proof. unfold runCalls. by rewrite foldl_app. Qed.

Lemma runCalls_keyed phase calls s :
  keyed s → keyed (runCalls account phase calls s).
Proof.
  revert s. induction calls as [|c calls IH]; intros s Hk; [done|].
  simpl. apply IH. by apply runCall_rows.
Qed.

Lemma alongCalls_app ok phase calls1 calls2 s :
  alongCalls account ok phase (calls1 ++ calls2) s ↔
  alongCalls account ok phase calls1 s ∧
  alongCalls account ok phase calls2 (runCalls account phase calls1 s).
Proof.
  revert s. induction calls1 as [|c calls1 IH]; intros s; simpl; [tauto|].
  rewrite IH. tauto.
Qed.

Lemma alongCalls_Forall (ok : ProcessorCall → Prop) phase calls s :
  Forall ok calls → alongCalls account (λ _, ok) phase calls s.
Proof.
  intros Hall. revert s. induction Hall as [|c calls Hc Hall IH]; intros s; simpl; [done|].
  split; [done|apply IH].
Qed.

Lemma alongCalls_and ok1 ok2 phase calls s :
  alongCalls account ok1 phase calls s → alongCalls account ok2 phase calls s →
  alongCalls account (λ s c, ok1 s c ∧ ok2 s c) phase calls s.
Proof.
  revert s. induction calls as [|c calls IH]; intros s; simpl; [done|].
  intros [A1 A2] [B1 B2]. split; [done|by apply IH].
Qed.

(** A property of the stored message [i] that every permitted call
    keeps holds at the end of a history of permitted calls. *)
Lemma runCalls_invariant phase (ok : Store → ProcessorCall → Prop)
    (P : Message → Prop) i :
  (∀ s c m m', keyed s → Messages s !! i = Some m → ok s c → P m →
               rowStep phase s c m m' → P m') →
  ∀ calls s m, keyed s → Messages s !! i = Some m → P m →
    alongCalls account ok phase calls s →
    ∃ m', Messages (runCalls account phase calls s) !! i = Some m' ∧ P m'.
Proof.
  intros Hstep calls. induction calls as [|c calls IH]; intros s m Hk Hm HP Hok.
  - by exists m.
  - destruct Hok as [Hc Hok]. simpl.
    destruct (runCall_rows account phase c s Hk) as [Hk' Hrows].
    destruct (Hrows i m Hm) as (m1 & Hm1 & Hrow).
    eapply IH; [exact Hk'|exact Hm1| |exact Hok].
    exact (Hstep s c m m1 Hk Hm Hc HP Hrow).
Qed.

Lemma flipPhaseAndDelete_run w :
  (flipPhaseAndDelete account w).2 =
    withStore (λ s, (deleteMessagesStillUnlinkedFromPhase account
                       (flipped (unlinkPhase w)) s).2)
      (setUnlinkPhase (flipped (unlinkPhase w)) w).
Proof.
  unfold flipPhaseAndDelete, bind, get, modify, onStore, flipped, withStore, setUnlinkPhase.
  simpl.
  by destruct (deleteMessagesStillUnlinkedFromPhase account _ (store w)) as [[e|b] s'].
Qed.

Lemma cycle_phase calls w : unlinkPhase (cycle account calls w) = flipped (unlinkPhase w).
Proof. unfold cycle. by rewrite flipPhaseAndDelete_run. Qed.

Lemma cycle_store calls w :
  store (cycle account calls w) =
    (deleteMessagesStillUnlinkedFromPhase account (flipped (unlinkPhase w))
       (runCalls account (unlinkPhase w) calls (store w))).2.
Proof. unfold cycle. by rewrite flipPhaseAndDelete_run. Qed.

Lemma deletion_keyed phase s :
  keyed s → keyed (deleteMessagesStillUnlinkedFromPhase account phase s).2.
Proof.
  intros Hk. pose proof (deleteMessagesStillUnlinkedFromPhase_spec account phase s Hk) as Hs.
  destruct (deleteMessagesStillUnlinkedFromPhase account phase s) as [[e|b] s']; simpl.
  - apply Hs.
  - apply Hs.
Qed.

(** The deletion pass of a phase leaves the messages it does not look
    for. *)
Lemma deletion_spares phase s i m :
  keyed s → Messages s !! i = Some m → ¬ stillUnlinked account phase m →
  Messages (deleteMessagesStillUnlinkedFromPhase account phase s).2 !! i = Some m.
Proof.
  intros Hk Hm Hn.
  pose proof (deleteMessagesStillUnlinkedFromPhase_spec account phase s Hk) as Hs.
  destruct (deleteMessagesStillUnlinkedFromPhase account phase s) as [[e|b] s']; simpl.
  - by apply Hs.
  - by apply Hs.
Qed.

(** When the SQL engine refuses no deletion, the deletion pass of a
    phase removes the messages it looks for. *)
Lemma deletion_removes phase s i m :
  (∀ k, sqliteFault (DeleteFrom "Message" k) = None) →
  keyed s → Messages s !! i = Some m → stillUnlinked account phase m →
  Messages (deleteMessagesStillUnlinkedFromPhase account phase s).2 !! i = None.
Proof.
  intros Hh Hk Hm Hq.
  pose proof (deleteMessagesStillUnlinkedFromPhase_spec account phase s Hk) as Hs.
  destruct (deleteLoop_healthy account phase (S (size (Messages s))) s Hh) as (b & s' & E).
  unfold deleteMessagesStillUnlinkedFromPhase in *. rewrite E in *. simpl.
  destruct Hs as (_ & Hnone & _ & Hsub & _).
  destruct (Messages s' !! i) as [m'|] eqn:Em'; [|done].
  pose proof (Hsub _ _ Em') as Hm'. assert (m' = m) as -> by congruence.
  by apply Hnone in Em'.
Qed.
End Cycles.

(** * Two-phase unlink *)

Section TwoPhase.
Context `{MailUtils} `{Host}.
Variable account : Account.

Lemma marker_phase p : p = 1 ∨ p = 2 → marker p = UINT32_MAX - p.
Proof. by intros [-> | ->]. Qed.

Lemma marker_marked p m : p = 1 ∨ p = 2 → remoteUID m = marker p → marked m.
Proof. unfold marked. intros [-> | ->] ->; by vm_compute. Qed.

Lemma flipped_other p : p = 1 ∨ p = 2 → marker (flipped p) ≠ marker p.
Proof. by intros [-> | ->]. Qed.

Lemma flipped_flipped p : p = 1 ∨ p = 2 → flipped (flipped p) = p.
Proof. by intros [-> | ->]. Qed.

Lemma flipped_phase p : p = 1 ∨ p = 2 → flipped p = 1 ∨ flipped p = 2.
Proof. intros [-> | ->]; [by right|by left]. Qed.

Lemma real_not_marker p u : p = 1 ∨ p = 2 → u < UINT32_MAX - 2 → u ≠ marker p.
Proof. intros [-> | ->] Hu ->; by vm_compute in Hu. Qed.

(** A message that carries the marker of a phase keeps it, whatever the
    phase of the calls, as long as no call observes it on the remote. *)
Lemma unobserved_step p i phase s c m m' :
  p = 1 ∨ p = 2 → ¬ observes i c →
  (remoteUID m = marker p ∧ accountId m = acc_id account ∧ id m = i) →
  rowStep phase s c m m' →
  remoteUID m' = marker p ∧ accountId m' = acc_id account ∧ id m' = i.
Proof.
  intros Hp Hobs (Hu & Ha & Hi) Hrow. inversion Hrow; subst; clear Hrow; try done.
  exfalso. eauto using marker_marked.
Qed.

(** A message with a real UID keeps one under calls that report real
    UIDs and do not stamp it. *)
Lemma real_step i phase s c m m' :
  (reportsRealUID c ∧ sparesMessage i s c) →
  (remoteUID m < UINT32_MAX - 2 ∧ id m = i) →
  rowStep phase s c m m' →
  remoteUID m' < UINT32_MAX - 2 ∧ id m' = i.
Proof.
  intros [Hreal Hspare] [Hu Hi] Hrow. inversion Hrow; subst; clear Hrow; try done.
  exfalso. simpl in Hspare. unfold marked in *. eauto.
Qed.

(** In a cycle of the other phase, a message that does not carry the
    marker of phase [p] does not get it. *)
Lemma other_phase_step p i s c m m' :
  p = 1 ∨ p = 2 → reportsRealUID c →
  (remoteUID m ≠ marker p ∧ id m = i) →
  rowStep (flipped p) s c m m' →
  remoteUID m' ≠ marker p ∧ id m' = i.
Proof.
  intros Hp Hreal [Hu Hi] Hrow. inversion Hrow; subst; clear Hrow; try done; simpl in *;
    (split; [|done]); first [by apply real_not_marker | by apply flipped_other].
Qed.

(** What the unlink pass that opens the scenario leaves: the message
    carries the marker of the phase. *)
Lemma unlink_sets_marker query p s m0 :
  keyed s → m0 ∈ selectAll query s → ¬ marked m0 →
  (unlinkMessagesMatchingQuery query p s).1 = inr tt →
  Messages (runCall account p (CallUnlink query) s) !! id m0 =
    Some (setRemoteUID (marker p) m0).
Proof.
  intros Hk Hsel Hnm Hok. simpl.
  pose proof (unlinkMessagesMatchingQuery_run query p s Hk) as Hrun.
  destruct (unlinkMessagesMatchingQuery query p s) as [[e|[]] s1]; [done|].
  destruct Hrun as (M' & -> & HM'). simpl. rewrite HM'.
  pose proof Hsel as Hrow. apply selectAll_elem in Hrow as [Hrow _]; [|done].
  rewrite Hrow. rewrite bool_decide_true by (by apply list_elem_of_fmap_2).
  unfold stamp. by rewrite bool_decide_false.
Qed.

(** C1. Two-phase survival. A message that an unlink pass of cycle N stamps
    with the marker of the phase:
    - carries [UINT32_MAX - unlinkPhase] after the pass;
    - if no call of the rest of cycle N and of cycle N+1 observes it,
      and it belongs to the account of the worker, it is gone from the
      store after cycle N+1 (the SQL engine refusing no deletion);
    - if a call of the rest of cycle N observes it and restores a real
      UID, and no later unlink pass of cycle N stamps it again, it is
      still in the store after cycle N+1;
    - if a call of cycle N+1 observes it and restores a real UID, it is
      still in the store after cycle N+1.
    The calls that follow a re-observation report real UIDs. *)
Theorem two_phase_survival (w0 : Worker) (query : Query) (m0 : Message)
    (rest callsN1 : list ProcessorCall) :
  let p := unlinkPhase w0 in
  let i := id m0 in
  let s1 := runCall account p (CallUnlink query) (store w0) in
  let wN := cycle account (CallUnlink query :: rest) w0 in
  let wN1 := cycle account callsN1 wN in
  (p = 1 ∨ p = 2) → keyed (store w0) →
  m0 ∈ selectAll query (store w0) → ¬ marked m0 →
  (unlinkMessagesMatchingQuery query p (store w0)).1 = inr tt →
  (remoteUID <$> Messages s1 !! i = Some (UINT32_MAX - p)) ∧
  (accountId m0 = acc_id account →
   (∀ k, sqliteFault (DeleteFrom "Message" k) = None) →
   Forall (λ c, ¬ observes i c) (rest ++ callsN1) →
   Messages (store wN1) !! i = None) ∧
  (∀ r1 c r2, rest = r1 ++ c :: r2 → observes i c →
     restored i (runCalls account p (r1 ++ [c]) s1) →
     neverStamped account i p r2 (runCalls account p (r1 ++ [c]) s1) →
     Forall reportsRealUID (r2 ++ callsN1) →
     is_Some (Messages (store wN1) !! i)) ∧
  (∀ r1 c r2, callsN1 = r1 ++ c :: r2 → observes i c →
     restored i (runCalls account (unlinkPhase wN) (r1 ++ [c]) (store wN)) →
     Forall reportsRealUID r2 →
     is_Some (Messages (store wN1) !! i)).
Proof.
  intros p i s1 wN wN1 Hp Hk Hsel Hnm Hok.
  pose proof (unlink_sets_marker query p (store w0) m0 Hk Hsel Hnm Hok) as Hm1.
  fold s1 i in Hm1.
  assert (keyed s1) as Hk1 by (by apply runCall_rows).
  assert (store wN = (deleteMessagesStillUnlinkedFromPhase account (flipped p)
                        (runCalls account p rest s1)).2) as HsN
    by (unfold wN; by rewrite cycle_store).
  assert (unlinkPhase wN = flipped p) as HpN by (unfold wN; by rewrite cycle_phase).
  assert (store wN1 = (deleteMessagesStillUnlinkedFromPhase account p
                        (runCalls account (flipped p) callsN1 (store wN))).2) as HsN1.
  { unfold wN1. rewrite cycle_store, HpN. by rewrite flipped_flipped. }
  assert (keyed (runCalls account p rest s1)) as Hk2 by (by apply runCalls_keyed).
  assert (keyed (store wN)) as HkN by (rewrite HsN; by apply deletion_keyed).
  assert (keyed (runCalls account (flipped p) callsN1 (store wN))) as Hk4
    by (by apply runCalls_keyed).
  split_and!.
  - rewrite Hm1. simpl. by rewrite marker_phase.
  - (* not observed again *)
    intros Hacc Hh Hall. apply Forall_app in Hall as [HallN HallN1].
    destruct (runCalls_invariant account p (λ _ c, ¬ observes i c)
                (λ m, remoteUID m = marker p ∧ accountId m = acc_id account ∧ id m = i) i)
      with (calls := rest) (s := s1) (m := setRemoteUID (marker p) m0)
      as (m2 & Hm2 & HP2); [|done|done|done|by apply alongCalls_Forall|].
    { intros s c m m' _ _ Hc HP Hrow. by eapply unobserved_step. }
    assert (Messages (store wN) !! i = Some m2) as HmN.
    { rewrite HsN. apply deletion_spares; [done|done|].
      intros [_ Hu]. destruct HP2 as [Hu2 _]. rewrite Hu2 in Hu.
      by eapply flipped_other. }
    destruct (runCalls_invariant account (flipped p) (λ _ c, ¬ observes i c)
                (λ m, remoteUID m = marker p ∧ accountId m = acc_id account ∧ id m = i) i)
      with (calls := callsN1) (s := store wN) (m := m2)
      as (m4 & Hm4 & HP4); [|done|done|done|by apply alongCalls_Forall|].
    { intros s c m m' _ _ Hc HP Hrow. by eapply unobserved_step. }
    rewrite HsN1. eapply deletion_removes; [done|done|exact Hm4|].
    split; apply HP4.
  - (* observed again in cycle N *)
    intros r1 c r2 Hrest Hobs (mA & HmA & HuA) Hspared Hreal.
    apply Forall_app in Hreal as [Hreal2 HrealN1].
    assert (keyed (runCalls account p (r1 ++ [c]) s1)) as HkA by (by apply runCalls_keyed).
    destruct (runCalls_invariant account p (λ s c, reportsRealUID c ∧ sparesMessage i s c)
                (λ m, remoteUID m < UINT32_MAX - 2 ∧ id m = i) i)
      with (calls := r2) (s := runCalls account p (r1 ++ [c]) s1) (m := mA)
      as (m2 & Hm2 & HP2); [|done|done|by split; [|apply HkA]| |].
    { intros s c' m m' _ _ Hc HP Hrow. by eapply real_step. }
    { apply alongCalls_and; [by apply alongCalls_Forall|done]. }
    rewrite <- runCalls_app in Hm2.
    replace ((r1 ++ [c]) ++ r2) with rest in Hm2 by (by rewrite Hrest, <- app_assoc).
    assert (Messages (store wN) !! i = Some m2) as HmN.
    { rewrite HsN. apply deletion_spares; [done|done|].
      intros [_ Hu]. destruct HP2 as [Hu2 _].
      by eapply (real_not_marker (flipped p)); [apply flipped_phase|exact Hu2|]. }
    destruct (runCalls_invariant account (flipped p) (λ _ c, reportsRealUID c)
                (λ m, remoteUID m ≠ marker p ∧ id m = i) i)
      with (calls := callsN1) (s := store wN) (m := m2)
      as (m4 & Hm4 & HP4); [|done|done| |by apply alongCalls_Forall|].
    { intros s c' m m' _ _ Hc HP Hrow. by eapply other_phase_step. }
    { split; [|apply HP2]. apply real_not_marker; [done|apply HP2]. }
    exists m4. rewrite HsN1. apply deletion_spares; [done|done|].
    intros [_ Hu]. by destruct HP4.
  - (* observed again in cycle N+1 *)
    intros r1 c r2 HN1 Hobs (mA & HmA & HuA) Hreal. rewrite HpN in HmA.
    assert (keyed (runCalls account (flipped p) (r1 ++ [c]) (store wN))) as HkA
      by (by apply runCalls_keyed).
    destruct (runCalls_invariant account (flipped p) (λ _ c, reportsRealUID c)
                (λ m, remoteUID m ≠ marker p ∧ id m = i) i)
      with (calls := r2) (s := runCalls account (flipped p) (r1 ++ [c]) (store wN)) (m := mA)
      as (m4 & Hm4 & HP4); [|done|done| |by apply alongCalls_Forall|].
    { intros s c' m m' _ _ Hc HP Hrow. by eapply other_phase_step. }
    { split; [by apply real_not_marker|apply HkA, HmA]. }
    rewrite <- runCalls_app in Hm4.
    replace ((r1 ++ [c]) ++ r2) with callsN1 in Hm4 by (by rewrite HN1, <- app_assoc).
    exists m4. rewrite HsN1. apply deletion_spares; [done|done|].
    intros [_ Hu]. by destruct HP4.
Qed.
End TwoPhase.

(** * Message upsert *)

Section Upsert.
Context `{MailUtils} `{Host}.
Variable account : Account.

Lemma rowStep_syncedAt phase s c m m' : rowStep phase s c m m' → syncedAt m ≤ syncedAt m'.
Proof. intros Hrow. inversion Hrow; subst; simpl; lia. Qed.

(** C3. [updateMessage] leaves the store as it is when the local message
    was synced after [syncDataTimestamp], and when no observable
    attribute differs; otherwise it sets the flags, UID, folder binding,
    labels and [syncedAt] of the stored message in one transaction, which
    either commits with one delta or fails and changes nothing. When the
    message handed over is not older than the stored row, as a message
    that was just loaded, the [syncedAt] of the stored row does not
    decrease, whatever the call does; no other row changes. So over any
    history of processor calls, in which an update is handed the
    stored message, the [syncedAt] of a stored message does not
    decrease. *)
Theorem updateMessage_spec (local : Message) (remote : IMAPMessage) (folder : Folder)
    (syncDataTimestamp : Z) (s : Store) :
  (syncedAt local > syncDataTimestamp →
     updateMessage local remote folder syncDataTimestamp s = (inr local, s)) ∧
  (unchangedAttributes local remote folder →
     updateMessage local remote folder syncDataTimestamp s = (inr local, s)) ∧
  (syncedAt local ≤ syncDataTimestamp → ¬ unchangedAttributes local remote folder →
     let local' := updatedMessage local remote folder syncDataTimestamp in
     updateMessage local remote folder syncDataTimestamp s =
       match sqliteFault (UpdateRow "Message" (id local)) with
       | Some code => (inl (SQLiteException code), s)
       | None =>
           (inr local',
            withDeltas (λ ds, ds ++ [messageDelta Persist (id local)])
              (withMessages (alter (λ _, local') (id local)) s))
       end) ∧
  (∀ stored, Messages s !! id local = Some stored → syncedAt stored ≤ syncedAt local →
     ∃ stored',
       Messages (updateMessage local remote folder syncDataTimestamp s).2 !! id local
         = Some stored' ∧
       syncedAt stored ≤ syncedAt stored') ∧
  (∀ i, i ≠ id local →
     Messages (updateMessage local remote folder syncDataTimestamp s).2 !! i
       = Messages s !! i) ∧
  (∀ phase calls i m, keyed s → Messages s !! i = Some m →
     ∃ m', Messages (runCalls account phase calls s) !! i = Some m' ∧
           syncedAt m ≤ syncedAt m').
Proof.
  split_and!.
  - intros Hnewer. rewrite updateMessage_cases. by rewrite decide_True.
  - intros Hsame. rewrite updateMessage_cases.
    destruct (decide _); [done|]. by rewrite decide_True.
  - intros Hle Hdiff. rewrite updateMessage_cases.
    rewrite decide_False by lia. by rewrite decide_False.
  - intros stored Hstored Hfresh. rewrite updateMessage_cases.
    destruct (decide (syncedAt local > syncDataTimestamp));
      [exists stored; split; [done|lia]|].
    destruct (decide (unchangedAttributes local remote folder));
      [exists stored; split; [done|lia]|].
    destruct (sqliteFault _); [exists stored; split; [done|lia]|].
    cbv zeta. simpl. rewrite lookup_alter_eq, Hstored. simpl.
    eexists. split; [done|]. simpl. lia.
  - intros i Hne. rewrite updateMessage_cases.
    destruct (decide (syncedAt local > syncDataTimestamp)); [done|].
    destruct (decide (unchangedAttributes local remote folder)); [done|].
    destruct (sqliteFault _); [done|].
    cbv zeta. simpl. by rewrite lookup_alter_ne.
  - intros phase calls i m Hk Hm.
    apply (runCalls_invariant account phase (λ _ _, True)
             (λ m', syncedAt m ≤ syncedAt m') i) with (m := m); [|done|done|lia|].
    + intros s0 c m1 m2 _ _ _ Hle Hrow. apply rowStep_syncedAt in Hrow. lia.
    + by apply alongCalls_Forall, Forall_true.
Qed.

(** C4. [insertFallbackToUpdateMessage] first attempts the insert. When
    the insert goes through, its message is returned. When it fails with
    SQLITE_CONSTRAINT (19) and a message with the deterministic id is
    stored, the result is that of [updateMessage] on the stored message,
    and the message returned is the stored one, updated. Every other
    failure of the insert, and a constraint failure with no message
    stored under the id, is thrown again, with the store as it was. *)
Theorem insertFallbackToUpdateMessage_spec (mMsg : IMAPMessage) (folder : Folder)
    (syncDataTimestamp : Z) (s : Store) :
  keyed s →
  let mid := idForMessage (f_accountId folder) (f_path folder) mMsg in
  match insertMessage account mMsg folder syncDataTimestamp s with
  | (inr msg, s') =>
      insertFallbackToUpdateMessage account mMsg folder syncDataTimestamp s = (inr msg, s') ∧
      id msg = mid ∧ Messages s !! mid = None ∧ Messages s' !! mid = Some msg
  | (inl e, _) =>
      if decide (e = SQLiteException 19) then
        match Messages s !! mid with
        | Some local =>
            insertFallbackToUpdateMessage account mMsg folder syncDataTimestamp s =
              updateMessage local mMsg folder syncDataTimestamp s ∧
            ∀ r s', updateMessage local mMsg folder syncDataTimestamp s = (inr r, s') →
                    id r = mid ∧ Messages s' !! mid = Some r
        | None =>
            insertFallbackToUpdateMessage account mMsg folder syncDataTimestamp s = (inl e, s)
        end
      else
        insertFallbackToUpdateMessage account mMsg folder syncDataTimestamp s = (inl e, s)
  end.
Proof.
  intros Hk mid. rewrite insertFallbackToUpdateMessage_run by done. fold mid.
  destruct (insertMessage account mMsg folder syncDataTimestamp s) as [[e|msg] s'] eqn:E.
  - destruct (decide _); [|done]. destruct (Messages s !! mid) as [local|] eqn:El; [|done].
    split; [done|]. intros r s1. rewrite updateMessage_cases.
    pose proof (Hk _ _ El) as Hid.
    repeat (case_decide; [intros [= <- <-]; by rewrite Hid|]).
    destruct (sqliteFault _); [done|]. cbv zeta. intros [= <- <-]. simpl.
    split; [done|]. by rewrite Hid, lookup_alter_eq, El.
  - apply insertMessage_inr in E. cbv zeta in E.
    destruct E as (thread1 & -> & _ & _ & _ & Hnone & HM & _).
    split_and!; [done|done|done|]. rewrite HM. apply lookup_insert_eq.
Qed.

(** C5. The thread of an inserted message. It is the reconciled thread
    when there is one: a thread with the Gmail thread id when the server
    provides one; otherwise, for a Message-Id that is not auto-generated,
    a thread that a ThreadReference row of the account gives for the
    Message-Id of the message or one of its first 50 references.
    Otherwise it is a new thread, which takes its subject from the
    message. After the save the ThreadReference table holds a row of the
    thread for the Message-Id of the message and for each of its first
    100 references. *)
Theorem thread_reconciliation (mMsg : IMAPMessage) (folder : Folder)
    (syncDataTimestamp : Z) (s : Store) (msg : Message) (s' : Store) :
  insertMessage account mMsg folder syncDataTimestamp s = (inr msg, s') →
  let refs := default [] (references (header mMsg)) in
  let own := messageID (header mMsg) in
  let found := reconciledThread mMsg (f_accountId folder) s in
  (* which thread was looked up *)
  (gmailThreadID mMsg ≠ 0 →
     match found with
     | Some t => gThrId t = gmailThreadID mMsg ∧ ∃ k, Threads s !! k = Some t
     | None => ∀ k t, Threads s !! k = Some t → gThrId t ≠ gmailThreadID mMsg
     end) ∧
  (gmailThreadID mMsg = 0 → isMessageIDAutoGenerated (header mMsg) = false →
     match found with
     | Some t => ∃ r, r ∈ ThreadReferences s ∧ r_accountId r = f_accountId folder ∧
                      r_headerMessageId r ∈ own :: take 50 refs ∧
                      Threads s !! r_threadId r = Some t
     | None => ∀ r, r ∈ ThreadReferences s → r_accountId r = f_accountId folder →
                    r_headerMessageId r ∈ own :: take 50 refs →
                    Threads s !! r_threadId r = None
     end) ∧
  (gmailThreadID mMsg = 0 → isMessageIDAutoGenerated (header mMsg) = true → found = None) ∧
  (* the thread of the message *)
  match found with
  | Some t =>
      threadId msg = t_id t ∧
      ThreadReferences s' =
        foldl addReference (ThreadReferences s)
          (referenceRow (t_id t) (t_accountId t) <$> own :: take 100 refs)
  | None =>
      threadId msg = idForThread (id msg) ∧
      Threads s !! threadId msg = None ∧
      (∃ t, Threads s' !! threadId msg = Some t ∧ t_subject t = h_subject (header mMsg)) ∧
      ThreadReferences s' =
        foldl addReference (ThreadReferences s)
          (referenceRow (threadId msg) (acc_id account) <$> own :: take 100 refs)
  end.
Proof.
  intros E refs own found. apply insertMessage_inr in E. cbv zeta in E.
  fold found refs own in E.
  destruct E as (thread1 & -> & Hid & Hacc & Hsubj & _ & _ & HT & Hfresh & HR & _).
  split_and!.
  - intros Hg. unfold found, reconciledThread. rewrite decide_True by done.
    destruct (head _) as [t|] eqn:Eh.
    + apply head_Some_elem_of, list_elem_of_filter in Eh as [Hgt Hin].
      split; [done|]. apply list_elem_of_fmap in Hin as ([k t'] & -> & Hin).
      exists k. by apply elem_of_map_to_list.
    + apply head_None in Eh. intros k t Hkt Hgt.
      assert (t ∈ filter (λ t, gThrId t = gmailThreadID mMsg) (map_to_list (Threads s)).*2)
        as Hin.
      { apply list_elem_of_filter. split; [done|]. apply list_elem_of_fmap.
        exists (k, t). split; [done|]. by apply elem_of_map_to_list. }
      rewrite Eh in Hin. by apply elem_of_nil in Hin.
  - intros Hg Hauto. unfold found, reconciledThread.
    rewrite decide_False by (intros Hne; by apply Hne). rewrite Hauto.
    destruct (head _) as [t|] eqn:Eh.
    + apply head_Some_elem_of, list_elem_of_omap in Eh as (r & Hr & Hcase).
      case_decide as Hd; [|done]. destruct Hd as [Ha Hh]. by exists r.
    + apply head_None in Eh. intros r Hr Ha Hh.
      destruct (Threads s !! r_threadId r) as [t|] eqn:Et; [|done].
      assert (t ∈ omap (λ r, if decide (r_accountId r = f_accountId folder ∧
                                       r_headerMessageId r ∈ own :: take 50 refs)
                             then Threads s !! r_threadId r else None)
                       (ThreadReferences s)) as Hin.
      { apply list_elem_of_omap. exists r. split; [done|]. by rewrite decide_True. }
      unfold own, refs in Hin. rewrite Eh in Hin. by apply elem_of_nil in Hin.
  - intros Hg Hauto. unfold found, reconciledThread.
    rewrite decide_False by (intros Hne; by apply Hne). by rewrite Hauto.
  - destruct found as [t|]; simpl in *.
    + split; [done|]. exact HR.
    + split_and!; [done|by apply Hfresh| |exact HR].
      exists thread1. split; [|by rewrite Hsubj].
      rewrite HT. apply lookup_insert_eq.
Qed.
End Upsert.

(** * Unlink passes *)

Section UnlinkPass.
Context `{MailUtils} `{Host}.
Variable account : Account.

(** C10. An unlink pass leaves a message that carries an unlink marker
    ([remoteUID > UINT32_MAX - 5]) as it is: it keeps its marker, and the
    deletion pass of the phase of that marker, when it completes, removes
    it. Of every other message the pass selects it changes the
    [remoteUID] only, to [UINT32_MAX - phase], and a message it does not
    select it leaves as it is. The pass emits no delta and touches
    nothing but the Message table; when it fails, nothing changes. *)
Theorem unlink_pass_spec (query : Query) (phase : Z) (s : Store) :
  keyed s →
  let r := (unlinkMessagesMatchingQuery query phase s).1 in
  let s' := (unlinkMessagesMatchingQuery query phase s).2 in
  s' = withMessages (λ _, Messages s') s ∧
  deltas s' = deltas s ∧
  (∀ e, r = inl e → s' = s) ∧
  (∀ i m, Messages s !! i = Some m → marked m →
     Messages s' !! i = Some m ∧
     ∀ q b s'', stillUnlinked account q m →
       deleteMessagesStillUnlinkedFromPhase account q s' = (inr b, s'') →
       Messages s'' !! i = None) ∧
  (∀ m, m ∈ selectAll query s → ¬ marked m → r = inr tt →
     Messages s' !! id m = Some (setRemoteUID (marker phase) m)) ∧
  (∀ i m, Messages s !! i = Some m → m ∉ selectAll query s → Messages s' !! i = Some m) ∧
  (∀ i, Messages s !! i = None → Messages s' !! i = None) ∧
  (0 ≤ phase ≤ UINT32_MAX → marker phase = UINT32_MAX - phase).
Proof.
  intros Hk r s'.
  pose proof (unlinkMessagesMatchingQuery_run query phase s Hk) as Hrun.
  assert (keyed s') as Hk' by (apply (runCall_rows account phase (CallUnlink query) s Hk)).
  unfold r, s' in *. clear r s'.
  destruct (unlinkMessagesMatchingQuery query phase s) as [[e|[]] s1]; simpl in *.
  - subst s1. split_and!; try done.
    + by destruct s.
    + intros i m Hm Hmk. split; [done|]. intros q b s'' Hq Hdel.
      pose proof (deleteMessagesStillUnlinkedFromPhase_spec account q s Hk) as Hs.
      rewrite Hdel in Hs. destruct Hs as (_ & Hnone & _ & Hsub & _).
      destruct (Messages s'' !! i) as [m'|] eqn:Em'; [|done].
      pose proof (Hsub _ _ Em') as Hm'. assert (m' = m) as -> by congruence.
      by apply Hnone in Em'.
    + intros [Hlo Hhi]. unfold marker, wrap32. apply Z.mod_small.
      unfold UINT32_MAX in *. lia.
  - destruct Hrun as (M' & -> & HM'). simpl in *.
    assert (∀ i m, Messages s !! i = Some m → marked m → M' !! i = Some m) as Hkeep.
    { intros i m Hm Hmk. rewrite HM', Hm. unfold stamp.
      rewrite (bool_decide_true (marked m)) by done. by destruct (bool_decide _). }
    split_and!; try done.
    + intros i m Hm Hmk. split; [by apply Hkeep|]. intros q b s'' Hq Hdel.
      pose proof (deleteMessagesStillUnlinkedFromPhase_spec account q _ Hk') as Hs.
      rewrite Hdel in Hs. destruct Hs as (_ & Hnone & _ & Hsub & _).
      destruct (Messages s'' !! i) as [m'|] eqn:Em'; [|done].
      pose proof (Hsub _ _ Em') as Hm'. simpl in Hm'.
      rewrite (Hkeep _ _ Hm Hmk) in Hm'. assert (m' = m) as -> by congruence.
      by apply Hnone in Em'.
    + intros m Hsel Hnm _. rewrite HM'.
      pose proof Hsel as Hrow. apply selectAll_elem in Hrow as [Hrow _]; [|done].
      rewrite Hrow. rewrite bool_decide_true by (by apply list_elem_of_fmap_2).
      unfold stamp. by rewrite bool_decide_false.
    + intros i m Hm Hnsel. rewrite HM', Hm. rewrite bool_decide_false; [done|].
      intros Hin. apply list_elem_of_fmap in Hin as (x & Hix & Hx).
      pose proof Hx as Hx'. apply selectAll_elem in Hx' as [Hx' _]; [|done].
      rewrite <- Hix, (Hk _ _ Hm), Hm in Hx'. congruence.
    + intros i Hi. by rewrite HM', Hi.
    + intros [Hlo Hhi]. unfold marker, wrap32. apply Z.mod_small.
      unfold UINT32_MAX in *. lia.
Qed.

Lemma unlinkMessages_marked l phase s :
  Forall marked l → unlinkMessages l phase s = (inr tt, s).
Proof.
  intros Hall. revert s. induction Hall as [|m l Hm Hall IH]; intros s; [done|].
  unfold unlinkMessages, forM_ in *. simpl. unfold bind.
  rewrite bool_decide_true by done. simpl. apply IH.
Qed.

(** C2. Idempotence of the processor. Run a second time with the same input, on the
    store and the local message the first run left, [updateMessage],
    [insertFallbackToUpdateMessage], [unlinkMessagesMatchingQuery] (for a
    query without a limit, in phase 1 or 2) and
    [deleteMessagesStillUnlinkedFromPhase] leave the store as it is: no
    row changes and no delta is emitted. *)
Theorem processor_idempotence :
  (∀ local remote folder ts s local1 s1,
     updateMessage local remote folder ts s = (inr local1, s1) →
     updateMessage local1 remote folder ts s1 = (inr local1, s1)) ∧
  (∀ mMsg folder ts s m s1, keyed s →
     insertFallbackToUpdateMessage account mMsg folder ts s = (inr m, s1) →
     (insertFallbackToUpdateMessage account mMsg folder ts s1).2 = s1) ∧
  (∀ query phase s s1, keyed s → q_limit query = None → phase = 1 ∨ phase = 2 →
     unlinkMessagesMatchingQuery query phase s = (inr tt, s1) →
     unlinkMessagesMatchingQuery query phase s1 = (inr tt, s1)) ∧
  (∀ phase s s1, keyed s →
     deleteMessagesStillUnlinkedFromPhase account phase s = (inr true, s1) →
     deleteMessagesStillUnlinkedFromPhase account phase s1 = (inr true, s1)).
Proof.
  assert (∀ local remote folder ts, syncedAt local ≤ ts →
            unchangedAttributes (updatedMessage local remote folder ts) remote folder)
    as Hupd by (intros; by repeat split).
  assert (∀ local remote folder ts s local1 s1,
            updateMessage local remote folder ts s = (inr local1, s1) →
            updateMessage local1 remote folder ts s1 = (inr local1, s1)) as Hupdate.
  { intros local remote folder ts s local1 s1. rewrite !updateMessage_cases.
    destruct (decide (syncedAt local > ts)) as [Hgt|Hle].
    { intros [= <- <-]. by rewrite decide_True. }
    destruct (decide (unchangedAttributes local remote folder)) as [Hsame|Hdiff].
    { intros [= <- <-]. rewrite decide_False by done. by rewrite decide_True. }
    destruct (sqliteFault _); [done|]. cbv zeta. intros [= <- <-].
    rewrite decide_False by (simpl; lia). rewrite decide_True; [done|]. apply Hupd. lia. }
  split_and!; [exact Hupdate|..].
  - intros mMsg folder ts s m s1 Hk E.
    assert (keyed s1) as Hk1.
    { pose proof (insertFallbackToUpdateMessage_rows account 1 mMsg folder ts s Hk) as [Hk1 _].
      by rewrite E in Hk1. }
    set (mid := idForMessage (f_accountId folder) (f_path folder) mMsg).
    (* after the first run the message is stored, and an update of it changes nothing *)
    assert (∃ local1, Messages s1 !! mid = Some local1 ∧
              updateMessage local1 mMsg folder ts s1 = (inr local1, s1)) as (local1 & Hl1 & Hu1).
    { rewrite insertFallbackToUpdateMessage_run in E by done. fold mid in E.
      destruct (insertMessage account mMsg folder ts s) as [[e|msg] s0] eqn:Ei.
      - destruct (decide _); [|done].
        destruct (Messages s !! mid) as [local|] eqn:El; [|done].
        pose proof (Hupdate _ _ _ _ _ _ _ E) as Hu. exists m. split; [|done].
        pose proof (Hk _ _ El) as Hid. rewrite updateMessage_cases in E.
        repeat (case_decide; [by injection E as <- <-|]).
        destruct (sqliteFault _); [done|]. cbv zeta in E. injection E as <- <-.
        simpl. by rewrite Hid, lookup_alter_eq, El.
      - injection E as <- <-. apply insertMessage_inr in Ei. cbv zeta in Ei.
        destruct Ei as (thread1 & -> & _ & _ & _ & _ & HM & _).
        eexists. split; [rewrite HM; apply lookup_insert_eq|].
        rewrite updateMessage_cases. rewrite decide_False by (simpl; lia).
        rewrite decide_True; [done|]. by repeat split. }
    rewrite insertFallbackToUpdateMessage_run by done. fold mid.
    destruct (insertMessage account mMsg folder ts s1) as [[e|msg] s2] eqn:Ei2.
    + destruct (decide _); [|done]. by rewrite Hl1, Hu1.
    + apply insertMessage_inr in Ei2. cbv zeta in Ei2.
      destruct Ei2 as (thread1 & _ & _ & _ & _ & Hnone & _). fold mid in Hl1.
      unfold mid in Hl1. simpl in Hnone. congruence.
  - intros query phase s s1 Hk Hlim Hp E.
    pose proof (unlinkMessagesMatchingQuery_run query phase s Hk) as Hrun.
    assert (keyed s1) as Hk1.
    { pose proof (runCall_rows account phase (CallUnlink query) s Hk) as [Hk1 _].
      simpl in Hk1. by rewrite E in Hk1. }
    rewrite E in Hrun. destruct Hrun as (M' & -> & HM').
    unfold unlinkMessagesMatchingQuery, transaction, bind, findAll.
    rewrite unlinkMessages_marked; [done|].
    apply Forall_forall. intros m' Hsel.
    apply selectAll_no_limit in Hsel as [Hrow Hmatch]; [|done|done].
    simpl in Hrow. rewrite HM' in Hrow.
    destruct (Messages s !! id m') as [m|] eqn:Em; [|done].
    case_bool_decide as Hin.
    + injection Hrow as <-. unfold stamp. case_bool_decide as Hmk; [done|].
      eapply marker_marked; [exact Hp|done].
    + injection Hrow as <-. exfalso. apply Hin. apply list_elem_of_fmap_2.
      apply selectAll_no_limit; [done|done|]. by split.
  - intros phase s s1 Hk E.
    pose proof (deleteMessagesStillUnlinkedFromPhase_spec account phase s Hk) as Hs.
    rewrite E in Hs. destruct Hs as (_ & Hnone & Hk1 & _).
    assert (selectAll (T:=Message) (stillUnlinkedQuery account phase) s1 = []) as Hempty.
    { destruct (selectAll (T:=Message) _ s1) as [|x l] eqn:Es; [done|]. exfalso.
      assert (x ∈ selectAll (stillUnlinkedQuery account phase) s1) as Hx
        by (rewrite Es; left).
      apply selectAll_elem in Hx as [Hrow Hmatch]; [|done].
      apply stillUnlinkedQuery_matches in Hmatch. by eapply Hnone. }
    unfold deleteMessagesStillUnlinkedFromPhase. simpl.
    unfold bind, deleteChunk, transaction, bind, findAll. rewrite Hempty. done.
Qed.
End UnlinkPass.

(** * Suppressed database errors *)

Section Suppressed.
Context `{MailUtils} `{Host}.
Variable account : Account.

#[local] Instance onlyDisk_preorder : PreOrder onlyDisk.
Proof.
  split.
  - intros s. unfold onlyDisk. by destruct s.
  - intros s1 s2 s3 H12 H23. unfold onlyDisk in *. rewrite H23, H12. by destruct s1.
Qed.

Lemma saveFiles_returns files s : ∃ s', saveFiles files s = (inr tt, s').
Proof.
  unfold saveFiles, forM_. revert s. induction files as [|file files IH]; intros s; simpl.
  - by eexists.
  - unfold bind at 1, try_catch. rewrite saveNew_run.
    destruct (sqliteFault _); [apply IH|].
    destruct (table s !! modelId file); apply IH.
Qed.

Lemma retrievedMessageBody_inl message parser s e s' :
  retrievedMessageBody message parser s = (inl e, s') → onlyDisk s s'.
Proof.
  unfold retrievedMessageBody. cbv zeta. unfold bind at 1.
  destruct (foldM _ [] _ s) as [[e0|files] s0] eqn:Efiles.
  - intros [= <- <-]. eapply (run_preserves onlyDisk); [|exact Efiles].
    unfold retrievedFileData. frame.
  - intros Etx. apply transaction_inl in Etx. subst s'.
    eapply (run_preserves onlyDisk); [|exact Efiles].
    unfold retrievedFileData. frame.
Qed.

Lemma retrievedMessageBody_inr message parser s msg s' :
  retrievedMessageBody message parser s = (inr msg, s') →
  sqliteFault (ReplaceInto "MessageBody" (id message)) = None ∧
  sqliteFault (UpdateRow "Message" (id message)) = None ∧
  MessageBodies s' !! id message = Some (htmlRendering parser).
Proof.
  unfold retrievedMessageBody. cbv zeta. intros E.
  apply bind_inr in E as (files & s0 & Efiles & Etx).
  apply transaction_inr in Etx.
  apply bind_inr in Etx as ([] & s2 & E2 & Etx).
  apply bind_inr in Etx as ([] & s3 & E3 & Etx).
  apply bind_inr in Etx as ([] & s4 & E4 & Etx).
  apply bind_inr in Etx as (thread & s5 & E5 & Etx).
  apply bind_inr in Etx as ([] & s6 & E6 & Etx).
  apply bind_inr in Etx as ([] & s7 & E7 & Etx).
  unfold ret in Etx. injection Etx as <- <-.
  unfold exec in E2. destruct (sqliteFault (ReplaceInto _ _)) eqn:F2; [done|].
  rewrite saveLoaded_run in E7. simpl in E7.
  destruct (sqliteFault (UpdateRow _ _)) eqn:F7; [done|].
  split_and!; [done|done|].
  unfold modify in E3. injection E3 as <-. injection E7 as <-. simpl.
  assert (MessageBodies s4 = MessageBodies (withMessageBodies (insert (id message)
            (htmlRendering parser)) s2)) as B4.
  { eapply (run_preserves (same MessageBodies)); [|exact E4]. unfold saveFiles. frame. }
  assert (MessageBodies s5 = MessageBodies s4) as B5.
  { eapply (run_preserves (same MessageBodies)); [|exact E5]. frame. }
  assert (MessageBodies s6 = MessageBodies s5) as B6.
  { eapply (run_preserves (same MessageBodies)); [|exact E6].
    unfold appendToThreadSearchContent. frame. }
  rewrite B6, B5, B4. simpl. apply lookup_insert_eq.
Qed.

(** C8. The database errors the processor suppresses:
    a SQLITE_CONSTRAINT failure of the insert of a message whose id is
    stored, which is turned into an update; and, in
    [retrievedMessageBody], every SQLite exception thrown while the File
    rows are saved, whatever its code. Every other failure of the insert
    is thrown again with the store as it was, and a refused write of the
    body or of the message makes [retrievedMessageBody] throw, with the
    tables as they were. *)
Theorem suppressed_database_errors :
  (∀ mMsg folder ts s e s', keyed s →
     insertMessage account mMsg folder ts s = (inl e, s') →
     e ≠ SQLiteException 19 ∨
       Messages s !! idForMessage (f_accountId folder) (f_path folder) mMsg = None →
     insertFallbackToUpdateMessage account mMsg folder ts s = (inl e, s)) ∧
  (∀ files s, ∃ s', saveFiles files s = (inr tt, s')) ∧
  (∀ message parser s code,
     sqliteFault (ReplaceInto "MessageBody" (id message)) = Some code ∨
     sqliteFault (UpdateRow "Message" (id message)) = Some code →
     ∃ e s', retrievedMessageBody message parser s = (inl e, s')) ∧
  (∀ message parser s e s',
     retrievedMessageBody message parser s = (inl e, s') → onlyDisk s s').
Proof.
  split_and!.
  - intros mMsg folder ts s e s' Hk E Hcase.
    rewrite insertFallbackToUpdateMessage_run by done. rewrite E.
    destruct (decide (e = SQLiteException 19)) as [->|Hne]; [|done].
    destruct Hcase as [Hne|Hnone]; [done|]. by rewrite Hnone.
  - apply saveFiles_returns.
  - intros message parser s code Hfault.
    destruct (retrievedMessageBody message parser s) as [[e|msg] s'] eqn:E; [by eauto|].
    apply retrievedMessageBody_inr in E as (F1 & F2 & _).
    destruct Hfault; congruence.
  - apply retrievedMessageBody_inl.
Qed.
End Suppressed.

(** * The background worker *)

#[global] Instance sameW_preorder {X} (F : Worker → X) : PreOrder (sameW F).
Proof. split; [by intros w|]. intros w1 w2 w3 H1 H2. unfold sameW in *. congruence. Qed.

Lemma preserves_onStore {A} (R : Worker → Worker → Prop) (m : M Store A) :
  (∀ w f, R w (withStore f w)) → preserves R (onStore m).
Proof. intros HR w. unfold onStore. destruct (m (store w)) as [r s']. apply HR. Qed.

Lemma onStore_run {A} (m : M Store A) w :
  onStore m w = ((m (store w)).1, withStore (λ _, (m (store w)).2) w).
Proof. unfold onStore. by destruct (m (store w)). Qed.

Ltac wframe_step :=
  lazymatch goal with
  | |- preserves _ (onStore _) => apply preserves_onStore; intros ? ?; reflexivity
  | |- preserves _ (let '(_, _) := ?x in _) => destruct x
  | _ => frame_step
  end.

Ltac wframe := repeat (cbv zeta; wframe_step).

Section FullScan.
Context `{MailUtils} `{Host} `{IMAPSession}.
Variable account : Account.

Lemma syncFolderUIDRange_sent folder range w :
  sent (syncFolderUIDRange account folder range w).2 =
    sent w ++ [CmdFetchMessagesByUID (f_path folder) range].
Proof.
  unfold syncFolderUIDRange. unfold bind at 1.
  unfold send at 1, modify. cbv beta iota.
  match goal with |- sent (?m ?w1).2 = _ =>
    assert (preserves (sameW sent) m) as Hp; [|exact (Hp w1)] end.
  wframe.
Qed.

Lemma startingFullScan_run folder w :
  let stored := localStatus folder !! "fullScanHead" in
  startingFullScan folder w =
    (inr (bool_decide (scanDue folder (clock (clockReads w)) ∨ stored = Some UINT32_MAX)),
     if bool_decide (default UINT32_MAX stored = UINT32_MAX) ||
        IMAPCapabilityQResync storedCapabilities
     then w else tick w).
Proof.
  intros stored. unfold startingFullScan. fold stored. cbv zeta.
  destruct (bool_decide (default UINT32_MAX stored = UINT32_MAX)) eqn:Eu.
  - apply bool_decide_eq_true in Eu. simpl. unfold ret. f_equal. f_equal. symmetry.
    apply bool_decide_eq_true. unfold scanDue. fold stored.
    destruct stored as [h|]; simpl in *.
    + right. congruence.
    + left. by left.
  - apply bool_decide_eq_false in Eu. simpl.
    assert (stored ≠ None ∧ stored ≠ Some UINT32_MAX) as [Hn Hs].
    { destruct stored; simpl in *; split; congruence. }
    destruct (IMAPCapabilityQResync storedCapabilities) eqn:Eq; simpl.
    + unfold ret. f_equal. f_equal. symmetry. apply bool_decide_eq_false.
      unfold scanDue. fold stored. rewrite Eq. intros [[?|[? _]]|?]; done.
    + unfold bind, time_0, ret, tick. f_equal. f_equal. apply bool_decide_ext.
      unfold scanDue. fold stored. rewrite Eq.
      split; [intros Ht; left; by right|]. intros [[?|[_ ?]]|?]; done.
Qed.

(** C6. One step of the incremental full scan. A new scan is triggered
    when a scan is due ([fullScanHead] unset, or no QRESYNC and more than
    ten minutes since the last scan; the code also takes a stored head of
    [UINT32_MAX] for an unset one). A fresh scan starts at the remote
    [uidNext] with a chunk of 200, a scan in progress goes on from the
    stored head with a chunk of 1000. When the head is 1 the scan is
    finished: the function returns false and neither fetches nor changes
    anything. Otherwise it requests the UID range that starts at
    [max (head - chunk) 1], or at 1 when the folder has fewer messages
    than the chunk, and ends at the head, and, unless the range scan
    throws, stores the start of the range as the new head, stores the
    scan time and returns true. *)
Theorem full_scan_step (folder : Folder) (remoteStatus : IMAPFolderStatus) (w : Worker) :
  let ls := localStatus folder in
  let stored := ls !! "fullScanHead" in
  let now := clock (clockReads w) in
  let fresh := bool_decide (scanDue folder now ∨ stored = Some UINT32_MAX) in
  let head := if fresh then uidNext remoteStatus else default UINT32_MAX stored in
  let chunk := if fresh then 200 else 1000 in
  let lo := if bool_decide (messageCount remoteStatus < chunk) then 1
            else Z.max (head - chunk) 1 in
  let w1 := (startingFullScan folder w).2 in
  let ls1 := if fresh then <["uidnext" := uidNext remoteStatus]> ls else ls in
  let range := RangeMake lo (wrap64 (head - lo)) in
  let r := syncFolderFullScanIncremental account folder remoteStatus w in
  (scanDue folder now → fresh = true) ∧
  (store w1 = store w ∧ sent w1 = sent w) ∧
  (head = 1 → r = (inr (setLocalStatus ls1 folder, false), w1)) ∧
  (head ≠ 1 →
     r = match syncFolderUIDRange account (setLocalStatus ls1 folder) range w1 with
         | (inl e, w2) => (inl e, w2)
         | (inr _, w2) =>
             (inr (setLocalStatus
                     (<["fullScanTime" := clock (clockReads w2)]>
                        (<["fullScanHead" := lo]> ls1)) folder, true),
              tick w2)
         end ∧
     sent r.2 = sent w ++ [CmdFetchMessagesByUID (f_path folder) range]) ∧
  (0 < head → head < 2 ^ 64 → location range + length_ range = head ∧ 1 ≤ lo ≤ head) ∧
  (∀ f b w', r = (inr (f, b), w') → (b = false ↔ head = 1)).
Proof.
  intros ls stored now fresh head chunk lo w1 ls1 range r.
  pose proof (startingFullScan_run folder w) as Hstart. cbv zeta in Hstart.
  fold ls stored now fresh in Hstart.
  assert (store w1 = store w ∧ sent w1 = sent w) as Hw1.
  { unfold w1. rewrite Hstart. simpl. by destruct (_ || _). }
  assert (lo = if bool_decide (messageCount remoteStatus < chunk) then 1
               else if bool_decide (head > chunk) then head - chunk else 1) as Hlo.
  { unfold lo. destruct (bool_decide (messageCount remoteStatus < chunk)); [done|].
    destruct (bool_decide (head > chunk)) eqn:E;
      [apply bool_decide_eq_true in E|apply bool_decide_eq_false in E]; lia. }
  assert (r = if bool_decide (head = 1) then (inr (setLocalStatus ls1 folder, false), w1)
              else match syncFolderUIDRange account (setLocalStatus ls1 folder) range w1 with
                   | (inl e, w2) => (inl e, w2)
                   | (inr _, w2) =>
                       (inr (setLocalStatus
                               (<["fullScanTime" := clock (clockReads w2)]>
                                  (<["fullScanHead" := lo]> ls1)) folder, true),
                        tick w2)
                   end) as Hr.
  { unfold r, syncFolderFullScanIncremental. cbv zeta. unfold bind at 1.
    fold ls stored. unfold w1. rewrite Hstart. cbn [snd].
    set (w1' := if _ || _ then w else tick w).
    unfold range. rewrite Hlo. unfold head, chunk, ls1. clearbody fresh.
    destruct fresh.
    - destruct (bool_decide (uidNext remoteStatus = 1)); [done|].
      unfold bind. by destruct (syncFolderUIDRange _ _ _ _) as [[e|[]] w2].
    - destruct (bool_decide (default UINT32_MAX stored = 1)); [done|].
      unfold bind. by destruct (syncFolderUIDRange _ _ _ _) as [[e|[]] w2]. }
  split_and!.
  - intros Hdue. apply bool_decide_eq_true. by left.
  - apply Hw1.
  - apply Hw1.
  - intros Hh. rewrite Hr. by rewrite bool_decide_true.
  - intros Hh. rewrite Hr. rewrite bool_decide_false by done. split; [done|].
    pose proof (syncFolderUIDRange_sent (setLocalStatus ls1 folder) range w1) as Hs.
    destruct (syncFolderUIDRange _ _ _ _) as [[e|[]] w2]; simpl in *;
      rewrite Hs; by destruct Hw1 as [_ ->].
  - intros Hpos Hbound. unfold range, lo. simpl.
    assert (0 < chunk) as Hchunk by (unfold chunk; by destruct fresh).
    assert (1 ≤ lo ≤ head) as Hrange.
    { unfold lo. destruct (bool_decide (messageCount remoteStatus < chunk)); lia. }
    split; [|exact Hrange]. unfold wrap64. fold lo. rewrite Z.mod_small by lia. lia.
  - intros f b w' Er. rewrite Hr in Er. case_bool_decide as Hh.
    + injection Er as <- <- <-. done.
    + destruct (syncFolderUIDRange _ _ _ _) as [[e|[]] w2]; [done|].
      injection Er as <- <- <-. done.
Qed.
End FullScan.

(** ** The CONDSTORE path *)

Section Condstore.
Context `{MailUtils} `{Host} `{IMAPSession}.
Variable account : Account.

Lemma findAllMap_by_ids (ids : list string) s i :
  keyed s →
  (findAllMap (T:=Message) (equalAny "id" (CStr <$> ids) Query_) s).1 =
    inr (list_to_map ((λ row, (modelId row, row)) <$>
           selectAll (equalAny "id" (CStr <$> ids) Query_) s)) ∧
  (list_to_map ((λ row : Message, (modelId row, row)) <$>
      selectAll (equalAny "id" (CStr <$> ids) Query_) s) : gmap string Message) !! i =
    if decide (i ∈ ids) then Messages s !! i else None.
Proof.
  intros Hk. split; [done|].
  set (q := equalAny "id" (CStr <$> ids) Query_).
  assert (∀ m : Message, matches q m = true ↔ id m ∈ ids) as Hmatch.
  { intros m. unfold matches, q, equalAny, clauseHolds; simpl. rewrite andb_true_r.
    change (messageColumn "id" m) with (Some (CStr (id m))).
    rewrite bool_decide_eq_true, list_elem_of_fmap. split.
    - intros (x & [= ->] & Hx). done.
    - intros Hx. by exists (id m). }
  assert (NoDup ((λ row : Message, (modelId row, row)) <$> selectAll q s).*1) as Hnd.
  { rewrite <- list_fmap_compose. apply NoDup_fmap_2_strong; [|by apply selectAll_NoDup].
    intros m1 m2 Hm1 Hm2 Heq. simpl in Heq.
    apply selectAll_elem in Hm1 as [Hm1 _]; [|done].
    apply selectAll_elem in Hm2 as [Hm2 _]; [|done]. congruence. }
  destruct (list_to_map _ !! i) as [m|] eqn:El.
  - apply elem_of_list_to_map in El; [|done].
    apply list_elem_of_fmap in El as (m' & [= -> ->] & Hsel).
    apply selectAll_no_limit in Hsel as [Hrow Hm]; [|done|done].
    apply Hmatch in Hm. simpl. by rewrite decide_True.
  - destruct (decide (i ∈ ids)) as [Hin|]; [|done].
    destruct (Messages s !! i) as [m|] eqn:Em; [|done]. exfalso.
    apply not_elem_of_list_to_map in El. apply El.
    rewrite <- list_fmap_compose. apply list_elem_of_fmap. exists m.
    pose proof (Hk _ _ Em) as Hid. split; [done|].
    apply selectAll_no_limit; [done|done|]. rewrite Hid. split; [done|].
    apply Hmatch. by rewrite Hid.
Qed.

Lemma matches_uidsQuery folder uids (m : Message) :
  matches (uidsQuery folder uids) m = true ↔
  remoteFolderId m = f_id folder ∧ remoteUID m ∈ uids.
Proof.
  unfold matches, uidsQuery, equalAny, equal, clauseHolds; simpl.
  change (messageColumn "folderId" m) with (Some (CStr (remoteFolderId m))).
  change (messageColumn "folderImapUID" m) with (Some (CInt (remoteUID m))).
  rewrite andb_true_r, andb_true_iff, !bool_decide_eq_true, list_elem_of_singleton.
  rewrite list_elem_of_fmap. split.
  - intros [[= A] (u & [= B] & Hu)]. split; congruence.
  - intros [A B]. split; [by rewrite A|]. by exists (remoteUID m).
Qed.

(** An update that returns leaves the message it returns stored; the
    message agrees with the remote one, unless it was synced after the
    timestamp. *)
Lemma updateMessage_stored local remote folder ts s m s' :
  Messages s !! id local = Some local →
  updateMessage local remote folder ts s = (inr m, s') →
  Messages s' !! id local = Some m ∧
  (unchangedAttributes m remote folder ∨ syncedAt m > ts).
Proof.
  intros Hl E. rewrite updateMessage_cases in E.
  destruct (decide (syncedAt local > ts)).
  { injection E as <- <-. split; [done|by right]. }
  destruct (decide (unchangedAttributes local remote folder)).
  { injection E as <- <-. split; [done|by left]. }
  destruct (sqliteFault _); [done|]. cbv zeta in E. injection E as <- <-. simpl.
  split; [by rewrite lookup_alter_eq, Hl|]. left. by repeat split.
Qed.

Lemma insertFallbackToUpdateMessage_stored mMsg folder ts s m s' :
  keyed s →
  insertFallbackToUpdateMessage account mMsg folder ts s = (inr m, s') →
  Messages s' !! idForMessage (f_accountId folder) (f_path folder) mMsg = Some m ∧
  (unchangedAttributes m mMsg folder ∨ syncedAt m > ts).
Proof.
  intros Hk E. rewrite insertFallbackToUpdateMessage_run in E by done.
  set (i := idForMessage (f_accountId folder) (f_path folder) mMsg) in *.
  destruct (insertMessage account mMsg folder ts s) as [[e|msg] s1] eqn:Ei.
  - destruct (decide _); [|done].
    destruct (Messages s !! i) as [local|] eqn:El; [|done].
    pose proof (Hk _ _ El) as Hid. rewrite <- Hid in El.
    destruct (updateMessage_stored local mMsg folder ts s m s' El E) as [Hm HP].
    by rewrite <- Hid.
  - injection E as <- <-. apply insertMessage_inr in Ei. cbv zeta in Ei.
    destruct Ei as (thread1 & -> & _ & _ & _ & Hnone & HM & _).
    split; [rewrite HM; apply lookup_insert_eq|]. left. by repeat split.
Qed.

(** One turn of the loop over the modified or added messages, when the
    loop does not throw: the call made is an update when the id was
    stored when the loop started and an insert when it was not, and the
    message the call returns is stored. *)
Lemma applyModifiedOrAdded_cons folder ts msg msgs
    (local : gmap string Message) w local' w' :
  keyed (store w) →
  (∀ i l, local !! i = Some l → Messages (store w) !! i = Some l) →
  applyModifiedOrAdded account folder ts local (msg :: msgs) w = (inr local', w') →
  let i := idForMessage (f_accountId folder) (f_path folder) msg in
  ∃ local1 w1,
    applyModifiedOrAdded account folder ts local1 msgs w1 = (inr local', w') ∧
    w1 = withStore (runCall account (unlinkPhase w)
                      (match local !! i with
                       | Some _ => CallUpdateMessage i msg folder ts
                       | None => CallInsertFallbackToUpdate msg folder ts
                       end)) w ∧
    (∀ j, is_Some (local1 !! j) ↔ is_Some (local !! j)) ∧
    (∀ j l, local1 !! j = Some l → Messages (store w1) !! j = Some l) ∧
    keyed (store w1) ∧
    ∃ m, Messages (store w1) !! i = Some m ∧
         (unchangedAttributes m msg folder ∨ syncedAt m > ts).
Proof.
  intros Hk Hinv E i. unfold applyModifiedOrAdded in E. simpl in E.
  apply bind_inr in E as (local1 & w1 & E1 & E2). fold i in E1.
  exists local1, w1. split; [exact E2|].
  assert (w1 = withStore (runCall account (unlinkPhase w)
                            (match local !! i with
                             | Some _ => CallUpdateMessage i msg folder ts
                             | None => CallInsertFallbackToUpdate msg folder ts
                             end)) w ∧
          (∀ j, is_Some (local1 !! j) ↔ is_Some (local !! j)) ∧
          (∀ j l, local1 !! j = Some l → Messages (store w1) !! j = Some l) ∧
          ∃ m, Messages (store w1) !! i = Some m ∧
               (unchangedAttributes m msg folder ∨ syncedAt m > ts))
    as (Hw1 & Hdom & Hinv1 & Hrow).
  { destruct (local !! i) as [l|] eqn:El.
    - apply bind_inr in E1 as (l' & w1' & Eu & Er). unfold ret in Er.
      injection Er as <- <-. rewrite onStore_run in Eu. injection Eu as Eu1 Eu2.
      pose proof (Hinv _ _ El) as Hl. pose proof (Hk _ _ Hl) as Hid.
      split_and!.
      + rewrite <- Eu2. unfold withStore. simpl. by rewrite Hl.
      + intros j. rewrite lookup_insert. case_decide; [subst j|done].
        split; intros _; eauto.
      + rewrite <- Eu2. simpl. intros j l0 Hj.
        destruct (updateMessage l msg folder ts (store w)) as [r s1] eqn:Eup.
        simpl in *. subst r. rewrite updateMessage_cases in Eup.
        rewrite lookup_insert in Hj.
        destruct (decide (syncedAt l > ts)).
        { injection Eup as <- <-. case_decide; simplify_eq; eauto. }
        destruct (decide (unchangedAttributes l msg folder)).
        { injection Eup as <- <-. case_decide; simplify_eq; eauto. }
        destruct (sqliteFault _); [done|]. cbv zeta in Eup. injection Eup as <- <-.
        simpl. case_decide as Hj'.
        * subst j. injection Hj as <-. by rewrite Hid, lookup_alter_eq, Hl.
        * rewrite Hid, lookup_alter_ne by congruence. eauto.
      + rewrite <- Eu2. simpl.
        destruct (updateMessage l msg folder ts (store w)) as [r s1] eqn:Eup.
        simpl in *. subst r. rewrite <- Hid in Hl.
        destruct (updateMessage_stored l msg folder ts (store w) l' s1 Hl Eup) as [Hm HP].
        exists l'. by rewrite <- Hid.
    - apply bind_inr in E1 as (m' & w1' & Ei & Er). unfold ret in Er.
      injection Er as <- <-. rewrite onStore_run in Ei. injection Ei as Ei1 Ei2.
      split_and!.
      + rewrite <- Ei2. done.
      + done.
      + rewrite <- Ei2. simpl. intros j l0 Hj.
        pose proof (insertFallbackToUpdateMessage_rows account (unlinkPhase w) msg folder ts
                      (store w) Hk) as [_ Hrows].
        destruct (Hrows j l0 (Hinv _ _ Hj)) as (m2 & Hm2 & Hrow).
        rewrite Hm2. f_equal. inversion Hrow as [|? ? ? ? Hidm| | |]; subst; [done|].
        exfalso. pose proof (Hk _ _ (Hinv _ _ Hj)) as Hid. fold i in Hidm. congruence.
      + rewrite <- Ei2. simpl.
        destruct (insertFallbackToUpdateMessage account msg folder ts (store w))
          as [r s1] eqn:Eup.
        simpl in *. subst r. exists m'.
        by apply (insertFallbackToUpdateMessage_stored msg folder ts (store w) m' s1). }
  split_and!; [done|done|done| |done].
  rewrite Hw1. simpl. by apply runCall_rows.
Qed.

(** The loop over the modified or added messages, when it does not
    throw, is the history of its processor calls. *)
Lemma applyModifiedOrAdded_inr folder ts msgs :
  ∀ (local : gmap string Message) w local' w',
    keyed (store w) →
    (∀ i l, local !! i = Some l → Messages (store w) !! i = Some l) →
    applyModifiedOrAdded account folder ts local msgs w = (inr local', w') →
    w' = withStore
           (runCalls account (unlinkPhase w)
              ((λ msg,
                 let i := idForMessage (f_accountId folder) (f_path folder) msg in
                 match local !! i with
                 | Some _ => CallUpdateMessage i msg folder ts
                 | None => CallInsertFallbackToUpdate msg folder ts
                 end) <$> msgs)) w.
Proof.
  induction msgs as [|msg msgs IH]; intros local w local' w' Hk Hinv E.
  - unfold applyModifiedOrAdded in E. simpl in E. unfold ret in E. injection E as <- <-.
    by destruct w.
  - apply applyModifiedOrAdded_cons in E as (local1 & w1 & E2 & Hw1 & Hdom & Hinv1 & Hk1 & _);
      [|done|done].
    pose proof (IH local1 w1 local' w' Hk1 Hinv1 E2) as Hw'.
    rewrite Hw'. rewrite Hw1. simpl. unfold withStore; simpl. f_equal.
    f_equal. apply list_fmap_ext. intros k msg' _. simpl.
    destruct (Hdom (idForMessage (f_accountId folder) (f_path folder) msg')) as [Hd1 Hd2].
    destruct (local1 !! _) as [?|] eqn:E1', (local !! idForMessage _ _ msg') as [?|] eqn:E0';
      try done.
    + destruct Hd1 as [? ?]; [by eauto|done].
    + destruct Hd2 as [? ?]; [by eauto|done].
Qed.

(** The turns of the loop for other messages leave a stored message as
    it is. *)
Lemma applyModifiedOrAdded_keeps folder ts i msgs :
  ∀ (local : gmap string Message) w local' w' m,
    keyed (store w) →
    (∀ j l, local !! j = Some l → Messages (store w) !! j = Some l) →
    applyModifiedOrAdded account folder ts local msgs w = (inr local', w') →
    (∀ msg, msg ∈ msgs → idForMessage (f_accountId folder) (f_path folder) msg ≠ i) →
    Messages (store w) !! i = Some m → Messages (store w') !! i = Some m.
Proof.
  induction msgs as [|msg msgs IH]; intros local w local' w' m Hk Hinv E Hne Hm.
  - unfold applyModifiedOrAdded in E. simpl in E. unfold ret in E. by injection E as <- <-.
  - apply applyModifiedOrAdded_cons in E as (local1 & w1 & E2 & Hw1 & _ & Hinv1 & Hk1 & _);
      [|done|done].
    eapply (IH local1 w1 local' w'); [done|done|done| |].
    { intros msg' Hin. apply Hne. by right. }
    rewrite Hw1. simpl.
    set (c := match local !! _ with Some _ => _ | None => _ end).
    destruct (runCall_rows account (unlinkPhase w) c (store w) Hk) as [_ Hrows].
    destruct (Hrows i m Hm) as (m1 & Hm1 & Hrow). rewrite Hm1. f_equal.
    pose proof (Hk _ _ Hm) as Hid.
    assert (idForMessage (f_accountId folder) (f_path folder) msg ≠ i) as Hmsg
      by (apply Hne; left).
    unfold c in Hrow. destruct (local !! _);
      inversion Hrow; subst; try done; exfalso; congruence.
Qed.

(** When the loop does not throw, every message the server reported is
    stored under its deterministic id, in the state the last call for
    the id left it in. *)
Lemma applyModifiedOrAdded_stored folder ts msgs :
  ∀ (local : gmap string Message) w local' w',
    keyed (store w) →
    (∀ j l, local !! j = Some l → Messages (store w) !! j = Some l) →
    applyModifiedOrAdded account folder ts local msgs w = (inr local', w') →
    ∀ before msg after, msgs = before ++ msg :: after →
      let i := idForMessage (f_accountId folder) (f_path folder) msg in
      (∀ msg', msg' ∈ after →
         idForMessage (f_accountId folder) (f_path folder) msg' ≠ i) →
      ∃ m, Messages (store w') !! i = Some m ∧
           (unchangedAttributes m msg folder ∨ syncedAt m > ts).
Proof.
  induction msgs as [|msg0 msgs IH];
    intros local w local' w' Hk Hinv E before msg after Hsplit i Hlast.
  - by destruct before.
  - apply applyModifiedOrAdded_cons in E
      as (local1 & w1 & E2 & Hw1 & _ & Hinv1 & Hk1 & m & Hm & HP); [|done|done].
    destruct before as [|b before]; simpl in Hsplit; injection Hsplit as -> ->.
    + exists m. split; [|done].
      by apply (applyModifiedOrAdded_keeps folder ts i after local1 w1 local' w' m).
    + by apply (IH local1 w1 local' w' Hk1 Hinv1 E2 before msg after).
Qed.

(** C7. The CONDSTORE path. When the stored [highestmodseq] equals the
    remote one nothing changes. Otherwise one SYNC of the UIDs from 1 with
    the stored modseq is requested, and no clock is read; when the session
    reports an error the function returns there. When the request succeeds
    and the function returns, the processor calls of [condstoreCalls] have
    been made (insert when the deterministic id was absent, update when it
    was present), and every message the server reported is stored under
    its id, with the attributes of the last report for the id unless the
    stored message is newer than the timestamp. When vanished UIDs are
    reported, every message of the folder with one of these UIDs and no
    unlink marker gets the marker of the phase of the worker, nothing else
    changes and no UID range is fetched; otherwise the shallow scan runs,
    fetching the range from the UID at depth 499 up to [uidNext]. The
    folder returned has [uidnext] and [highestmodseq] written back. *)
Theorem condstore_fast_path (folder : Folder) (remoteStatus : IMAPFolderStatus)
    (w : Worker) (modseq : Z) :
  let remoteModseq := highestModSeqValue remoteStatus in
  let uidnext := uidNext remoteStatus in
  let uids := RangeMake 1 UINT64_MAX in
  let request := CmdSyncMessagesByUID (f_path folder) uids modseq in
  let syncDataTimestamp := defaultSyncDataTimestamp (clockReads w) in
  let p := unlinkPhase w in
  let idOf := idForMessage (f_accountId folder) (f_path folder) in
  let requested (s : Store) :=
    {| store := s; unlinkPhase := p; sent := sent w ++ [request];
       clockReads := clockReads w |} in
  let r := syncFolderChangesViaCondstore account folder remoteStatus w in
  keyed (store w) →
  localStatus folder !! "highestmodseq" = Some modseq →
  (modseq = remoteModseq → r = (inr folder, w)) ∧
  (modseq ≠ remoteModseq →
     (∀ err, syncMessagesByUID (f_path folder) uids modseq = inl err →
        r = (inr folder, requested (store w))) ∧
     (∀ result f w',
        syncMessagesByUID (f_path folder) uids modseq = inr result →
        r = (inr f, w') →
        let s1 := runCalls account p
                    (condstoreCalls folder syncDataTimestamp (store w)
                       (modifiedOrAddedMessages result)) (store w) in
        f = setLocalStatus
              (<["highestmodseq" := remoteModseq]>
                 (<["uidnext" := uidnext]> (localStatus folder))) folder ∧
        (∀ before msg after,
           modifiedOrAddedMessages result = before ++ msg :: after →
           (∀ msg', msg' ∈ after → idOf msg' ≠ idOf msg) →
           ∃ m, Messages s1 !! idOf msg = Some m ∧
                (unchangedAttributes m msg folder ∨ syncedAt m > syncDataTimestamp)) ∧
        match vanishedMessages result with
        | Some deletedUIDs =>
            let vanished (m : Message) :=
              remoteFolderId m = f_id folder ∧ remoteUID m ∈ deletedUIDs in
            w' = requested
                   (withMessages
                      (fmap (λ m, if decide (vanished m ∧ ¬ marked m)
                                  then setRemoteUID (marker p) m else m)) s1)
        | None =>
            let bottomUID := fetchMessageUIDAtDepth folder 499 uidnext s1 in
            w' = (syncFolderChangesViaShallowScan account folder remoteStatus
                    (requested s1)).2 ∧
            sent w' = sent w ++
              [request;
               CmdFetchMessagesByUID (f_path folder)
                 (RangeMake bottomUID (wrap32 (uidnext - bottomUID)))]
        end)).
Proof.
  intros remoteModseq uidnext uids request ts p idOf requested r Hk Hms.
  subst r. unfold syncFolderChangesViaCondstore. rewrite Hms. cbv zeta.
  fold remoteModseq uidnext uids. split.
  - intros ->. by rewrite bool_decide_eq_true_2.
  - intros Hne. rewrite bool_decide_eq_false_2 by done.
    split.
    + intros err ->. done.
    + intros result f w' -> E.
      unfold bind at 1 in E. unfold send at 1, modify in E. cbv beta iota in E.
      unfold bind at 1 in E. unfold get at 1 in E. cbv beta iota in E.
      cbn [clockReads] in E. fold ts in E.
      match type of E with bind _ _ ?st = _ => change st with (requested (store w)) in E end.
      set (s1 := runCalls account p
                   (condstoreCalls folder ts (store w) (modifiedOrAddedMessages result))
                   (store w)).
      assert (keyed s1) as Hk1 by (by apply runCalls_keyed).
      apply bind_inr in E as (local & w0 & El & E).
      rewrite onStore_run in El.
      set (ids := idForMessage (f_accountId folder) (f_path folder) <$>
                    modifiedOrAddedMessages result) in *.
      destruct (findAllMap_by_ids ids (store w) "" Hk) as [Hfm _].
      change (store (requested (store w))) with (store w) in El.
      rewrite Hfm in El. injection El as <- <-.
      apply bind_inr in E as (local' & w2 & Eloop & E).
      assert (∀ i l,
                (list_to_map ((λ row : Message, (modelId row, row)) <$>
                   selectAll (equalAny "id" (CStr <$> ids) Query_) (store w))
                   : gmap string Message) !! i = Some l →
                Messages (store w) !! i = Some l) as Hinv.
      { intros i l Hil.
        destruct (findAllMap_by_ids ids (store w) i Hk) as [_ Hl].
        assert ((if decide (i ∈ ids) then Messages (store w) !! i else None) = Some l)
          as Hc by (rewrite <- Hl; exact Hil).
        by case_decide. }
      pose proof Eloop as Estored.
      apply applyModifiedOrAdded_inr in Eloop; [|done|exact Hinv].
      assert (w2 = requested s1) as Hw2.
      { rewrite Eloop. unfold withStore, requested; simpl. f_equal.
        unfold s1, condstoreCalls. f_equal. apply list_fmap_ext. intros k msg Hmsg. simpl.
        destruct (findAllMap_by_ids ids (store w)
                    (idForMessage (f_accountId folder) (f_path folder) msg) Hk) as [_ Hl].
        rewrite decide_True in Hl.
        2:{ apply list_elem_of_fmap. exists msg. split; [done|].
            by eapply list_elem_of_lookup_2. }
        change (modelId (T:=Message)) with id in Hl. by rewrite Hl. }
      clear Eloop. subst w2. apply bind_inr in E as (f1 & w3 & Ef & E).
      unfold ret in E. injection E as <- <-.
      assert (∀ before msg after,
                modifiedOrAddedMessages result = before ++ msg :: after →
                (∀ msg', msg' ∈ after → idOf msg' ≠ idOf msg) →
                ∃ m, Messages s1 !! idOf msg = Some m ∧
                     (unchangedAttributes m msg folder ∨ syncedAt m > ts)) as Hstored.
      { intros before msg after Hsplit Hlast.
        exact (applyModifiedOrAdded_stored folder ts (modifiedOrAddedMessages result) _
                 (requested (store w)) local' (requested s1) Hk Hinv Estored
                 before msg after Hsplit Hlast). }
      destruct (vanishedMessages result) as [deletedUIDs|].
      * apply bind_inr in Ef as (deleted & w4 & Ed & Ef).
        rewrite onStore_run in Ed. simpl in Ed. injection Ed as <- <-.
        apply bind_inr in Ef as (w5 & w6 & Eg & Ef).
        unfold get in Eg. injection Eg as <- <-.
        apply bind_inr in Ef as ([] & w7 & Eu & Ef).
        unfold ret in Ef. injection Ef as <- <-.
        rewrite onStore_run in Eu. injection Eu as Eres <-.
        split; [done|]. split; [exact Hstored|].
        cbn [store unlinkPhase withStore] in Eres |- *.
        fold (uidsQuery folder deletedUIDs) in Eres |- *.
        set (q := uidsQuery folder deletedUIDs) in *.
        assert (unlinkMessagesFromFolder (selectAll q s1) p s1 =
                unlinkMessagesMatchingQuery q p s1) as Heq
          by (unfold unlinkMessagesFromFolder, unlinkMessagesMatchingQuery, transaction, bind,
                findAll; reflexivity).
        rewrite Heq in Eres |- *.
        pose proof (unlinkMessagesMatchingQuery_run q p s1 Hk1) as Hrun.
        destruct (unlinkMessagesMatchingQuery q p s1) as [[e|[]] s2]; [done|].
        destruct Hrun as (M' & -> & HM'). unfold requested, withStore, withMessages; simpl.
        f_equal. f_equal. apply map_eq. intros i. rewrite HM', lookup_fmap.
        destruct (Messages s1 !! i) as [m|] eqn:Em; [|done]. simpl. f_equal.
        pose proof (Hk1 _ _ Em) as Hid. rewrite <- Hid in Em.
        assert (id m ∈ id <$> selectAll q s1 ↔
                remoteFolderId m = f_id folder ∧ remoteUID m ∈ deletedUIDs) as Hsel.
        { rewrite <- matches_uidsQuery. split.
          - intros Hin. apply list_elem_of_fmap in Hin as (x & Hx & Hin).
            apply selectAll_elem in Hin as [Hxs Hq]; [|done].
            rewrite <- Hx in Hxs. assert (x = m) as -> by congruence. done.
          - intros Hq. apply list_elem_of_fmap_2. by apply selectAll_no_limit. }
        destruct (decide _) as [[Hi Hm]|Hn].
        -- rewrite bool_decide_true by (by apply Hsel). unfold stamp.
           by rewrite bool_decide_false.
        -- destruct (bool_decide (id m ∈ id <$> selectAll q s1)) eqn:Eb; [|done].
           apply bool_decide_eq_true in Eb. apply Hsel in Eb. unfold stamp.
           rewrite bool_decide_true; [done|]. destruct (decide (marked m)); [done|tauto].
      * unfold syncFolderChangesViaShallowScan in Ef |- *.
        unfold bind at 1 in Ef. unfold get at 1 in Ef. cbv beta iota in Ef.
        unfold bind at 1. unfold get at 1. cbv beta iota.
        apply bind_inr in Ef as ([] & w4 & Er & Ef).
        unfold ret in Ef. injection Ef as <- <-.
        pose proof (syncFolderUIDRange_sent account folder
          (RangeMake (fetchMessageUIDAtDepth folder 499 uidnext (store (requested s1)))
             (wrap32 (uidnext - fetchMessageUIDAtDepth folder 499 uidnext
                                  (store (requested s1))))) (requested s1)) as Hsent.
        fold uidnext in Er. rewrite Er in Hsent. simpl in Hsent.
        split_and!.
        -- unfold setLocalStatus; simpl. by rewrite insert_insert_eq.
        -- exact Hstored.
        -- unfold bind. fold uidnext. by rewrite Er.
        -- rewrite Hsent. by rewrite <- app_assoc.
Qed.
End Condstore.

(** * The test of an account *)

Section TestAuth.
Context `{MailUtils}.
Variable ErrorCodeToTypeMap : gmap Z string.

(** C9. When the IMAP connection and the folder list succeed and no
    folder has the role all or inbox, [err] is [ErrorInvalidAccount] when
    the SMTP part starts, and [smtp.connect(&err)] stores its own code
    over it: with an SMTP server that accepts the account the reply has a
    null error and the exit code is 0. *)
Theorem runTestAuth_without_required_role (servers : AuthServers) (account : Account)
    (folders : list IMAPFolder) :
  imap_connect servers = ErrorNone →
  imap_fetchAllFolders servers = inr folders →
  Forall (λ f, roleForFolder f ≠ "all" ∧ roleForFolder f ≠ "inbox") folders →
  smtp_connect servers = ErrorNone →
  smtp_loginIfNeeded servers = ErrorNone →
  let reply := runTestAuth ErrorCodeToTypeMap servers account in
  reply.1 = 0 ∧ error reply.2 = None ∧ error_service reply.2 = "smtp" ∧
  reply_account reply.2 = Some account.
Proof.
  intros Hc Hf _ Hs Hl. unfold runTestAuth. rewrite Hc, Hf, Hs, Hl. done.
Qed.
End TestAuth.

Lemma runTestAuth_without_required_role_witness :
  @imap_fetchAllFolders serversWithoutInbox = inr [{| imf_path := "Sent"; noSelect := false |}] ∧
  (let reply := @runTestAuth exampleUtils ∅ serversWithoutInbox exampleAccount in
   reply.1 = 0 ∧ error reply.2 = None ∧ error_service reply.2 = "smtp" ∧
   reply_account reply.2 = Some exampleAccount).
Proof.
  split; [reflexivity|].
  apply (@runTestAuth_without_required_role exampleUtils ∅ serversWithoutInbox exampleAccount
           [{| imf_path := "Sent"; noSelect := false |}]); try reflexivity.
  repeat constructor; vm_compute; discriminate.
Defined.

(** * Examples on concrete stores *)

Lemma keyed_emptyStore : keyed emptyStore.
Proof. intros i m Hm. unfold emptyStore in Hm. simpl in Hm. by rewrite lookup_empty in Hm. Qed.

Lemma keyed_exampleStore : keyed exampleStore.
Proof.
  intros i m Hm. unfold exampleStore in Hm. simpl in Hm.
  apply lookup_insert_Some in Hm as [[<- <-]|[_ Hm]]; [done|].
  unfold emptyStore in Hm. simpl in Hm. by rewrite lookup_empty in Hm.
Qed.

Lemma selectAll_queryA42 : selectAll queryA42 exampleStore = [exampleMessage].
Proof. by vm_compute. Qed.

(** The message m1 is unlinked from folder A, seen again in folder B in
    the same cycle, and is stored after the next cycle. *)
Lemma two_phase_survival_witness :
  let wN := @cycle exampleUtils healthyHost exampleAccount
              [CallUnlink queryA42; seenInB] exampleWorker in
  is_Some (Messages (store (@cycle exampleUtils healthyHost exampleAccount [] wN)) !! "m1").
Proof.
  intros wN.
  assert (unlinkPhase exampleWorker = 1 ∨ unlinkPhase exampleWorker = 2) as Hp
    by (left; reflexivity).
  assert (exampleMessage ∈ selectAll queryA42 (store exampleWorker)) as Hin.
  { change (store exampleWorker) with exampleStore. rewrite selectAll_queryA42. left. }
  assert (¬ marked exampleMessage) as Hm by (vm_compute; discriminate).
  destruct (@two_phase_survival exampleUtils healthyHost exampleAccount exampleWorker
              queryA42 exampleMessage [seenInB] [] Hp keyed_exampleStore Hin Hm eq_refl)
    as (_ & _ & Hseen & _).
  apply (Hseen [] seenInB []).
  - reflexivity.
  - reflexivity.
  - eexists. split; [by vm_compute|]. by vm_compute.
  - exact I.
  - constructor.
Defined.

(** The message m1 is unlinked from folder A in cycle N, seen again in
    folder B in the same cycle, which restores a real UID, and unlinked
    from folder B later in that cycle: it is deleted at the end of cycle
    N+1. *)
Lemma two_phase_reobserved_then_deleted :
  let run := @runCalls exampleUtils healthyHost exampleAccount 1 in
  let wN := @cycle exampleUtils healthyHost exampleAccount
              [CallUnlink queryA42; seenInB; CallUnlink queryB7] exampleWorker in
  let wN1 := @cycle exampleUtils healthyHost exampleAccount [] wN in
  unlinkPhase exampleWorker = 1 ∧
  remoteUID <$> Messages exampleStore !! "m1" = Some 42 ∧
  remoteUID <$> Messages (run [CallUnlink queryA42] exampleStore) !! "m1"
    = Some (UINT32_MAX - 1) ∧
  remoteUID <$> Messages (run [CallUnlink queryA42; seenInB] exampleStore) !! "m1"
    = Some 7 ∧
  remoteUID <$> Messages (store wN) !! "m1" = Some (UINT32_MAX - 1) ∧
  Messages (store wN1) !! "m1" = None.
Proof. by vm_compute. Qed.

(** A second and a third sync cycle against a remote mailbox that does not
    change each emit a delta: the folder is saved at the end of its sync. *)
Lemma second_sync_emits_a_delta :
  (@syncNow exampleUtils healthyHost exampleSession exampleAccount afterFirstSync).1
    = inr false ∧
  deltas (store afterSecondSync) = deltas (store afterFirstSync) ++ [inboxDelta] ∧
  deltas (store afterThirdSync) = deltas (store afterSecondSync) ++ [inboxDelta] ∧
  Messages (store afterSecondSync) = Messages (store afterFirstSync).
Proof. by vm_compute. Qed.

(** The update of m1 as seen in folder B is idempotent. *)
Lemma processor_idempotence_witness :
  let s1 := (@updateMessage healthyHost exampleMessage (exampleRemote 7 "m1") folderB 600
               exampleStore).2 in
  let local1 := updatedMessage exampleMessage (exampleRemote 7 "m1") folderB 600 in
  @updateMessage healthyHost local1 (exampleRemote 7 "m1") folderB 600 s1 = (inr local1, s1).
Proof.
  intros s1 local1.
  destruct (@processor_idempotence exampleUtils healthyHost exampleAccount) as (Hu & _).
  apply (Hu exampleMessage (exampleRemote 7 "m1") folderB 600 exampleStore local1 s1).
  by vm_compute.
Defined.

(** An update with an older timestamp leaves m1 alone; an update of the
    stored message with a later one moves its [syncedAt] forward. *)
Lemma updateMessage_spec_witness :
  syncedAt exampleMessage > 400 ∧
  @updateMessage healthyHost exampleMessage (exampleRemote 7 "m1") folderB 400 exampleStore
    = (inr exampleMessage, exampleStore) ∧
  ∃ stored',
    Messages (@updateMessage healthyHost exampleMessage (exampleRemote 7 "m1") folderB 600
                exampleStore).2 !! "m1" = Some stored' ∧
    500 ≤ syncedAt stored'.
Proof.
  split; [reflexivity|]. split.
  - apply (proj1 (@updateMessage_spec exampleUtils healthyHost exampleAccount exampleMessage
                    (exampleRemote 7 "m1") folderB 400 exampleStore)).
    reflexivity.
  - destruct (@updateMessage_spec exampleUtils healthyHost exampleAccount exampleMessage
                (exampleRemote 7 "m1") folderB 600 exampleStore) as (_ & _ & _ & Hfresh & _).
    apply (Hfresh exampleMessage); [reflexivity|reflexivity].
Defined.

(** An update through an object that was loaded before a later sync
    lowers the [syncedAt] of the stored message: m1 is stored with
    [syncedAt] 900, the object handed over says 500, and after the update
    with timestamp 600 the stored message says 600. *)
Lemma stale_update_lowers_syncedAt :
  let s' := (@updateMessage healthyHost exampleMessage (exampleRemote 7 "m1") folderB 600
               refreshedStore).2 in
  id exampleMessage = "m1" ∧ syncedAt exampleMessage = 500 ∧
  syncedAt <$> Messages refreshedStore !! "m1" = Some 900 ∧
  syncedAt <$> Messages s' !! "m1" = Some 600 ∧
  ¬ (∀ m m', Messages refreshedStore !! "m1" = Some m → Messages s' !! "m1" = Some m' →
             syncedAt m ≤ syncedAt m').
Proof.
  intros s'.
  assert (syncedAt <$> Messages refreshedStore !! "m1" = Some 900) as Hbefore by reflexivity.
  assert (syncedAt <$> Messages s' !! "m1" = Some 600) as Hafter by (by vm_compute).
  split_and!; [reflexivity|reflexivity|exact Hbefore|exact Hafter|].
  intros Hmono.
  destruct (Messages refreshedStore !! "m1") as [m|] eqn:Em; [|done].
  destruct (Messages s' !! "m1") as [m'|] eqn:Em'; [|done].
  specialize (Hmono m m' eq_refl eq_refl). simpl in Hbefore, Hafter.
  injection Hbefore as Hb. injection Hafter as Ha. lia.
Qed.

(** m1 is stored: the insert is refused and the stored message is
    updated. *)
Lemma insertFallbackToUpdateMessage_spec_witness :
  @insertFallbackToUpdateMessage exampleUtils healthyHost exampleAccount
      (exampleRemote 7 "m1") folderB 600 exampleStore
    = @updateMessage healthyHost exampleMessage (exampleRemote 7 "m1") folderB 600 exampleStore.
Proof.
  pose proof (@insertFallbackToUpdateMessage_spec exampleUtils healthyHost exampleAccount
                (exampleRemote 7 "m1") folderB 600 exampleStore keyed_exampleStore) as Hs.
  cbv zeta in Hs.
  assert (@insertMessage exampleUtils healthyHost exampleAccount (exampleRemote 7 "m1")
            folderB 600 exampleStore = (inl (SQLiteException 19), exampleStore)) as Hi
    by (by vm_compute).
  rewrite Hi in Hs.
  assert (Messages exampleStore
            !! @idForMessage exampleUtils (f_accountId folderB) (f_path folderB)
                 (exampleRemote 7 "m1") = Some exampleMessage) as Hl by (by vm_compute).
  rewrite decide_True in Hs by done. rewrite Hl in Hs. exact (proj1 Hs).
Defined.

(** A message m2 that the store does not hold starts a thread of its own. *)
Lemma thread_reconciliation_witness :
  let r := @insertMessage exampleUtils healthyHost exampleAccount (exampleRemote 7 "m2")
             folderB 600 exampleStore in
  ∃ msg, r.1 = inr msg ∧ threadId msg = "t:m2" ∧
         (∃ t, Threads r.2 !! "t:m2" = Some t ∧ t_subject t = "hello").
Proof.
  intros r.
  set (m2 := setThreadId "t:m2" (@newMessage exampleUtils (exampleRemote 7 "m2") folderB 600)).
  assert (r.1 = inr m2) as Hr by (by vm_compute).
  assert (r = (inr m2, r.2)) as Er by (rewrite <- Hr; by destruct r).
  exists m2. split; [done|]. split; [reflexivity|].
  pose proof (@thread_reconciliation exampleUtils healthyHost exampleAccount
                (exampleRemote 7 "m2") folderB 600 exampleStore m2 r.2 Er) as Ht.
  cbv zeta in Ht. destruct Ht as (_ & _ & _ & Ht).
  assert (reconciledThread (exampleRemote 7 "m2") (f_accountId folderB) exampleStore = None)
    as Hn by (by vm_compute).
  rewrite Hn in Ht. destruct Ht as (_ & _ & Hthr & _). exact Hthr.
Defined.

(** The unlink pass over folder A in phase 1 stamps m1 with the marker of
    the phase. *)
Lemma unlink_pass_spec_witness :
  Messages (@unlinkMessagesMatchingQuery healthyHost queryA42 1 exampleStore).2 !! "m1"
    = Some (setRemoteUID (UINT32_MAX - 1) exampleMessage).
Proof.
  pose proof (@unlink_pass_spec exampleUtils healthyHost exampleAccount queryA42 1
                exampleStore keyed_exampleStore) as Hs.
  cbv zeta in Hs. destruct Hs as (_ & _ & _ & _ & Hstamp & _).
  apply (Hstamp exampleMessage).
  - rewrite selectAll_queryA42. left.
  - vm_compute. discriminate.
  - by vm_compute.
Defined.

(** With the File table refusing inserts with SQLITE_FULL, which is not a
    constraint violation, [retrievedMessageBody] returns normally: the body
    is stored, the message is saved with its file, and the File row is
    missing. *)
Lemma file_insert_error_suppressed :
  let r := @retrievedMessageBody exampleUtils fullDiskHost exampleMessage exampleParser
             exampleStore in
  @sqliteFault fullDiskHost (InsertInto "File" "m1:1") = Some 13 ∧
  (13 ≠ SQLITE_CONSTRAINT) ∧
  file_id <$> files exampleMessage = [] ∧
  (∃ m, r.1 = inr m ∧ file_id <$> files m = ["m1:1"]) ∧
  MessageBodies r.2 !! "m1" = Some "<p>hello</p>" ∧
  Files r.2 = ∅ ∧
  deltas r.2 = [messageDelta Persist "m1"].
Proof.
  intros r. split_and!; try (by vm_compute).
  eexists. split; by vm_compute.
Qed.

(** On a host whose SQL engine fails every statement, the error of the
    insert of m2 reaches the caller of [insertFallbackToUpdateMessage]. *)
Lemma suppressed_database_errors_witness :
  @insertFallbackToUpdateMessage exampleUtils failingHost exampleAccount
      (exampleRemote 7 "m2") folderB 600 exampleStore
    = (inl (SQLiteException 10), exampleStore).
Proof.
  destruct (@suppressed_database_errors exampleUtils failingHost exampleAccount) as (Hi & _).
  apply (Hi (exampleRemote 7 "m2") folderB 600 exampleStore (SQLiteException 10)
            (@insertMessage exampleUtils failingHost exampleAccount (exampleRemote 7 "m2")
               folderB 600 exampleStore).2).
  - exact keyed_exampleStore.
  - by vm_compute.
  - left. discriminate.
Defined.

(** A folder whose scan has reached UID 1 less than ten minutes ago is
    finished: no range is fetched and the value is false. A folder that
    was never scanned starts a scan at [uidNext]: with one message in the
    folder the first step fetches all the UIDs below it. *)
Lemma full_scan_step_witness :
  @syncFolderFullScanIncremental exampleUtils healthyHost exampleSession exampleAccount
      scannedInbox exampleStatus (newWorker emptyStore)
    = (inr (scannedInbox, false), tick (newWorker emptyStore)) ∧
  sent (@syncFolderFullScanIncremental exampleUtils healthyHost exampleSession exampleAccount
          inbox exampleStatus (newWorker emptyStore)).2
    = [CmdFetchMessagesByUID "INBOX" (RangeMake 1 5)].
Proof.
  split.
  - pose proof (@full_scan_step exampleUtils healthyHost exampleSession exampleAccount
                  scannedInbox exampleStatus (newWorker emptyStore)) as Hs.
    cbv zeta in Hs. destruct Hs as (_ & _ & Hone & _).
    rewrite Hone by (by vm_compute). by vm_compute.
  - pose proof (@full_scan_step exampleUtils healthyHost exampleSession exampleAccount
                  inbox exampleStatus (newWorker emptyStore)) as Hs.
    cbv zeta in Hs. destruct Hs as (_ & _ & _ & Hgo & _).
    destruct Hgo as [_ Hsent]; [vm_compute; discriminate|].
    rewrite Hsent. by vm_compute.
Defined.

(** On a server that reports changes since the stored modseq, with
    vanished UIDs: m1, stored in folder A, is updated and is now in folder
    B under UID 7; m2 is inserted; m3, stored in folder B under the
    vanished UID 5, gets the marker of phase 1; one SYNC is sent, no UID
    range is fetched and no clock is read. *)
Lemma condstore_fast_path_witness :
  let r := @syncFolderChangesViaCondstore exampleUtils healthyHost qresyncSession
             exampleAccount staleFolderB changedStatus (newWorker storeWithB5) in
  sent r.2 = [CmdSyncMessagesByUID "B" (RangeMake 1 UINT64_MAX) 3] ∧
  clockReads r.2 = 0%nat ∧
  ((λ m, (remoteFolderId m, remoteUID m)) <$> Messages (store r.2) !! "m1" = Some ("B", 7)) ∧
  ((λ m, (remoteFolderId m, remoteUID m)) <$> Messages (store r.2) !! "m2" = Some ("B", 8)) ∧
  ((λ m, (remoteFolderId m, remoteUID m)) <$> Messages (store r.2) !! "m3"
     = Some ("B", UINT32_MAX - 1)) ∧
  remoteUID <$> Messages storeWithB5 !! "m3" = Some 5.
Proof.
  intros r.
  assert (keyed storeWithB5) as Hk.
  { intros i m Hm. unfold storeWithB5 in Hm. simpl in Hm.
    apply lookup_insert_Some in Hm as [[<- <-]|[_ Hm]]; [done|].
    by apply keyed_exampleStore. }
  pose proof (@condstore_fast_path exampleUtils healthyHost qresyncSession exampleAccount
                staleFolderB changedStatus (newWorker storeWithB5) 3 Hk eq_refl) as Hs.
  cbv zeta in Hs. destruct Hs as [_ Hs].
  destruct Hs as [_ Hs]; [discriminate|].
  assert (∃ f, r.1 = inr f) as [f Hf] by (vm_compute; eauto).
  specialize (Hs changedResult f r.2 eq_refl).
  destruct Hs as (_ & _ & Hw); [fold r; rewrite <- Hf; by destruct r|].
  change (vanishedMessages changedResult) with (Some [5; 42]) in Hw.
  rewrite Hw.
  split_and!; [reflexivity|reflexivity|by vm_compute|by vm_compute|by vm_compute|by vm_compute].
Defined.

(** * Further properties of the processor and of the workers *)

#[global] Instance keepsRows_preorder : PreOrder keepsRows.
Proof.
  split.
  - intros s Hk. done.
  - intros s1 s2 s3 H12 H23 Hk. destruct (H12 Hk) as [Hk2 H2].
    destruct (H23 Hk2) as [Hk3 H3]. split; [done|]. intros i Hi. by apply H3, H2.
Qed.

#[global] Instance keepsRowsW_preorder : PreOrder keepsRowsW.
Proof.
  split.
  - intros w. split; [done|reflexivity].
  - intros w1 w2 w3 [Hp1 H1] [Hp2 H2]. split; [congruence|]. by etrans.
Qed.

Lemma preserves_weaken {St A} (R R' : St → St → Prop) (m : M St A) :
  (∀ s s', R s s' → R' s s') → preserves R m → preserves R' m.
Proof. intros HR Hm s. apply HR, Hm. Qed.

Lemma same_Messages_keepsRows s s' : same Messages s s' → keepsRows s s'.
Proof.
  unfold same, keepsRows, keyed. intros ->. intros Hk. split; [done|]. done.
Qed.

Lemma preserves_onStore_store {A} (R : Store → Store → Prop) (m : M Store A) :
  preserves R m →
  preserves (λ w w', unlinkPhase w' = unlinkPhase w ∧ R (store w) (store w')) (onStore m).
Proof.
  intros Hm w. rewrite onStore_run. simpl. split; [done|]. apply Hm.
Qed.

Section KeepsRows.
Context `{MailUtils} `{Host}.
Variable account : Account.

Lemma saveLoaded_keepsRows (row : Message) emit : preserves keepsRows (saveLoaded row emit).
Proof.
  intros s Hk. rewrite saveLoaded_run. destruct (sqliteFault _); [done|]. simpl. split.
  - destruct emit; simpl; by apply keyed_alter.
  - intros i Hi. destruct emit; simpl; by apply lookup_alter_is_Some.
Qed.

Lemma updateMessage_keepsRows local remote folder ts :
  preserves keepsRows (updateMessage local remote folder ts).
Proof.
  intros s Hk. rewrite updateMessage_cases.
  destruct (decide _); [done|]. destruct (decide _); [done|].
  destruct (sqliteFault _); [done|]. simpl. split.
  - by apply keyed_alter.
  - intros i Hi. by apply lookup_alter_is_Some.
Qed.

Lemma insertFallbackToUpdateMessage_keepsRows mMsg folder ts :
  preserves keepsRows (insertFallbackToUpdateMessage account mMsg folder ts).
Proof.
  intros s Hk.
  destruct (insertFallbackToUpdateMessage_rows account 1 mMsg folder ts s Hk) as [Hk' Hrows].
  split; [done|]. intros i [m Hm]. destruct (Hrows i m Hm) as (m' & Hm' & _). eauto.
Qed.

Lemma unlinkMessages_keepsRows deletedMsgs phase :
  preserves keepsRows (unlinkMessages deletedMsgs phase).
Proof.
  unfold unlinkMessages. apply preserves_forM_; [apply _|]. intros msg.
  destruct (bool_decide _); [apply preserves_ret; apply _|apply saveLoaded_keepsRows].
Qed.

Lemma unlinkMessagesFromFolder_keepsRows deletedMsgs phase :
  preserves keepsRows (unlinkMessagesFromFolder deletedMsgs phase).
Proof.
  unfold unlinkMessagesFromFolder. apply preserves_transaction; [apply _|].
  apply unlinkMessages_keepsRows.
Qed.

Lemma retrievedMessageBody_keepsRows message parser :
  preserves keepsRows (retrievedMessageBody message parser).
Proof.
  intros s Hk. destruct (retrievedMessageBody_rows message parser s) as [Hs|(fs & sn & Hs)].
  - by apply same_Messages_keepsRows.
  - split.
    + intros i m. rewrite Hs. destruct (decide (i = id message)) as [->|Hne].
      * rewrite lookup_alter_eq. destruct (Messages s !! id message); simpl; [|done].
        by intros [= <-].
      * rewrite lookup_alter_ne by done. apply Hk.
    + intros i Hi. rewrite Hs. by apply lookup_alter_is_Some.
Qed.
End KeepsRows.

Lemma preserves_send R `{!Reflexive R} c :
  preserves (λ w w', unlinkPhase w' = unlinkPhase w ∧ R (store w) (store w')) (send c).
Proof. intros w. by split. Qed.

Lemma preserves_time_0 `{Host} R `{!Reflexive R} :
  preserves (λ w w', unlinkPhase w' = unlinkPhase w ∧ R (store w) (store w')) time_0.
Proof. intros w. by split. Qed.

Section KeepsRowsW.
Context `{MailUtils} `{Host} `{IMAPSession}.
Variable account : Account.

Lemma syncFolderUIDRange_keepsRows folder range :
  preserves keepsRowsW (syncFolderUIDRange account folder range).
Proof.
  unfold syncFolderUIDRange.
  apply preserves_bind; [apply _|apply (preserves_send keepsRows)|intros _].
  destruct (fetchMessagesByUID _ _) as [err|remote]; [apply preserves_ret; apply _|].
  apply preserves_bind; [apply _|apply preserves_get; apply _|intros w0]. cbv zeta.
  apply preserves_bind; [apply _| |intros local].
  - apply preserves_foldM; [apply _|]. intros local remoteMsg.
    apply preserves_bind; [apply _| |intros _; apply preserves_ret; apply _].
    destruct (_ || _); [|apply preserves_ret; apply _].
    apply preserves_bind; [apply _| |intros _; apply preserves_ret; apply _].
    apply (preserves_onStore_store keepsRows), insertFallbackToUpdateMessage_keepsRows.
  - destruct (bool_decide _); [|apply preserves_ret; apply _]. cbv zeta.
    apply preserves_bind; [apply _| |intros deletedMsgs].
    + apply (preserves_onStore_store keepsRows), preserves_findAll. apply _.
    + apply preserves_bind; [apply _|apply preserves_get; apply _|intros w1].
      apply (preserves_onStore_store keepsRows), unlinkMessagesFromFolder_keepsRows.
Qed.
End KeepsRowsW.

Section SyncPasses.
Context `{MailUtils} `{Host} `{IMAPSession}.
Variable account : Account.

Ltac kleaf :=
  lazymatch goal with
  | |- preserves _ (onStore (insertFallbackToUpdateMessage _ _ _ _)) =>
      apply (preserves_onStore_store keepsRows), insertFallbackToUpdateMessage_keepsRows
  | |- preserves _ (onStore (updateMessage _ _ _ _)) =>
      apply (preserves_onStore_store keepsRows), updateMessage_keepsRows
  | |- preserves _ (onStore (unlinkMessagesFromFolder _ _)) =>
      apply (preserves_onStore_store keepsRows), unlinkMessagesFromFolder_keepsRows
  | |- preserves _ (onStore (retrievedMessageBody _ _)) =>
      apply (preserves_onStore_store keepsRows), retrievedMessageBody_keepsRows
  | |- preserves _ (onStore (findAll _)) =>
      apply (preserves_onStore_store keepsRows), preserves_findAll; apply _
  | |- preserves _ (onStore (findAllMap _)) =>
      apply (preserves_onStore_store keepsRows); intros ?; reflexivity
  | |- preserves _ (send _) => apply (preserves_send keepsRows)
  | |- preserves _ time_0 => apply (preserves_time_0 keepsRows)
  | |- preserves _ (syncFolderUIDRange _ _ _) => apply syncFolderUIDRange_keepsRows
  | _ => frame_step
  end.

Ltac kframe := repeat (cbv zeta; kleaf).

Lemma applyModifiedOrAdded_keepsRows folder ts local msgs :
  preserves keepsRowsW (applyModifiedOrAdded account folder ts local msgs).
Proof. unfold applyModifiedOrAdded. kframe. Qed.

Lemma syncFolderChangesViaShallowScan_keepsRows folder remoteStatus :
  preserves keepsRowsW (syncFolderChangesViaShallowScan account folder remoteStatus).
Proof. unfold syncFolderChangesViaShallowScan. kframe. Qed.

Lemma syncFolderChangesViaCondstore_keepsRows folder remoteStatus :
  preserves keepsRowsW (syncFolderChangesViaCondstore account folder remoteStatus).
Proof.
  unfold syncFolderChangesViaCondstore.
  destruct (localStatus folder !! "highestmodseq"); [|apply preserves_throw; apply _].
  cbv zeta. destruct (bool_decide _); [apply preserves_ret; apply _|].
  apply preserves_bind; [apply _|kleaf|intros _].
  destruct (syncMessagesByUID _ _ _) as [err|result]; [apply preserves_ret; apply _|].
  apply preserves_bind; [apply _|kleaf|intros w0].
  cbv zeta. apply preserves_bind; [apply _|kleaf|intros local].
  apply preserves_bind; [apply _|apply applyModifiedOrAdded_keepsRows|intros _].
  apply preserves_bind; [apply _| |intros f; apply preserves_ret; apply _].
  destruct (vanishedMessages result); [kframe|apply syncFolderChangesViaShallowScan_keepsRows].
Qed.

Lemma startingFullScan_keepsRows folder : preserves keepsRowsW (startingFullScan folder).
Proof. unfold startingFullScan. kframe. Qed.

Lemma syncFolderFullScanIncremental_keepsRows folder remoteStatus :
  preserves keepsRowsW (syncFolderFullScanIncremental account folder remoteStatus).
Proof.
  unfold syncFolderFullScanIncremental. cbv zeta.
  apply preserves_bind; [apply _|apply startingFullScan_keepsRows|intros fresh].
  destruct (bool_decide _); [apply preserves_ret; apply _|]. kframe.
Qed.

Lemma syncMessageBody_keepsRows folderPath message :
  preserves keepsRowsW (syncMessageBody folderPath message).
Proof. unfold syncMessageBody. kframe. Qed.

Lemma syncMessageBodies_keepsRows folder remoteStatus :
  preserves keepsRowsW (syncMessageBodies folder remoteStatus).
Proof.
  unfold syncMessageBodies. destruct (_ || _); [apply preserves_ret; apply _|].
  apply preserves_bind; [apply _|kleaf|intros now].
  apply preserves_bind; [apply _|apply preserves_get; apply _|intros w0]. cbv zeta.
  apply preserves_bind; [apply _| |intros _; apply preserves_ret; apply _].
  apply preserves_forM_; [apply _|]. intros m. apply syncMessageBody_keepsRows.
Qed.

Lemma save_folder_keepsRows (model : MailModel Folder) loaded folder emit :
  model = Folder_model ∨ model = Label_model →
  preserves keepsRows (@save _ Folder model loaded folder emit).
Proof.
  intros Hm. apply (preserves_weaken (same Messages)); [apply same_Messages_keepsRows|].
  unfold save, saveLoaded, saveNew. destruct Hm as [-> | ->]; frame.
Qed.

Lemma syncFolder_keepsRows again item : preserves keepsRowsW (syncFolder account again item).
Proof.
  unfold syncFolder. destruct item as [loaded folder].
  apply preserves_bind; [apply _|kleaf|intros _].
  destruct (folderStatus _) as [err remoteStatus].
  destruct (bool_decide _); [apply preserves_throw; apply _|]. cbv zeta.
  destruct (_ !! "uidvalidity"); [|apply preserves_throw; apply _].
  destruct (bool_decide _); [apply preserves_throw; apply _|].
  apply preserves_bind;
    [apply _|apply syncFolderFullScanIncremental_keepsRows|intros [folder1 inProgress]].
  apply preserves_bind; [apply _| |intros folder2].
  { destruct (IMAPCapabilityCondstore _);
      [apply syncFolderChangesViaCondstore_keepsRows
      |apply syncFolderChangesViaShallowScan_keepsRows]. }
  apply preserves_bind; [apply _|apply syncMessageBodies_keepsRows|intros bodies].
  apply preserves_bind; [apply _| |intros _; apply preserves_ret; apply _].
  apply (preserves_onStore_store keepsRows), save_folder_keepsRows. by left.
Qed.
End SyncPasses.

Section SyncNowProperties.
Context `{MailUtils} `{Host} `{IMAPSession}.
Variable account : Account.

Lemma reconcileFolder_frame (model : MailModel Folder) known remoteId remotePath remoteRole :
  model = Folder_model ∨ model = Label_model →
  preserves (same Messages) (reconcileFolder model known remoteId remotePath remoteRole).
Proof.
  intros Hm. unfold reconcileFolder, save, saveLoaded, saveNew.
  destruct (known !! remoteId); destruct Hm as [-> | ->]; frame.
Qed.

Lemma removeCategories_frame (model : MailModel Folder) gone :
  model = Folder_model ∨ model = Label_model →
  preserves (same Messages) (removeCategories model gone).
Proof.
  intros Hm. unfold removeCategories, remove. destruct Hm as [-> | ->]; frame.
Qed.

Lemma syncFoldersAndLabels_keepsRows : preserves keepsRowsW syncFoldersAndLabels.
Proof.
  unfold syncFoldersAndLabels.
  apply preserves_bind; [apply _|apply (preserves_send keepsRows)|intros _].
  destruct fetchAllFolders as [err|remoteFolders]; [apply preserves_throw; apply _|].
  apply (preserves_weaken
           (λ w w', unlinkPhase w' = unlinkPhase w ∧ same Messages (store w) (store w'))).
  { intros w w' [Hp Hs]. split; [done|]. by apply same_Messages_keepsRows. }
  apply (preserves_onStore_store (same Messages)).
  apply preserves_transaction; [apply _|]. cbv zeta.
  apply preserves_bind; [apply _|intros s; reflexivity|intros allLocalFolders].
  apply preserves_bind; [apply _|intros s; reflexivity|intros allLocalLabels].
  apply preserves_bind; [apply _| |intros [[folders labels] foldersToSync]].
  - apply preserves_foldM; [apply _|]. intros [[folders labels] foldersToSync] remote.
    destruct (noSelect remote); [apply preserves_ret; apply _|]. cbv zeta.
    destruct (_ && _).
    + apply preserves_bind; [apply _| |intros [labels' local]; apply preserves_ret; apply _].
      apply reconcileFolder_frame. by right.
    + apply preserves_bind; [apply _| |intros [folders' local]; apply preserves_ret; apply _].
      apply reconcileFolder_frame. by left.
  - apply preserves_bind; [apply _|apply removeCategories_frame; by left|intros _].
    apply preserves_bind; [apply _|apply removeCategories_frame; by right|intros _].
    apply preserves_ret. apply _.
Qed.

(** Up to the flip of the phase: the folder list and the folders. *)
Lemma syncNow_inr w b w' :
  syncNow account w = (inr b, w') →
  ∃ w1, keepsRowsW w w1 ∧ flipPhaseAndDelete account w1 = (inr tt, w').
Proof.
  unfold syncNow. intros E.
  apply bind_inr in E as (folders & w0 & E0 & E). cbv zeta in E.
  apply bind_inr in E as (again & w1 & E1 & E).
  apply bind_inr in E as ([] & w2 & E2 & E). unfold ret in E. injection E as <- <-.
  exists w1. split; [|done].
  pose proof (syncFoldersAndLabels_keepsRows w) as Hl. rewrite E0 in Hl. simpl in Hl.
  match type of E1 with ?f w0 = _ => assert (preserves keepsRowsW f) as Hf end.
  { apply preserves_foldM; [apply _|]. intros again' item. apply syncFolder_keepsRows. }
  specialize (Hf w0). rewrite E1 in Hf. simpl in Hf. by etrans.
Qed.
End SyncNowProperties.

Section DeletionPass.
Context `{MailUtils} `{Host}.
Variable account : Account.

(** The messages a run of the loop removes: each is announced by one
    Unpersist delta, in the order of removal. *)
Lemma deleteLoop_removed phase fuel s :
  keyed s →
  let s' := (deleteLoop account fuel phase s).2 in
  ∃ l : list Message,
    deltas s' = deltas s ++ (deltaOf Unpersist <$> l) ∧
    NoDup (id <$> l) ∧
    ∀ m, m ∈ l ↔ Messages s !! id m = Some m ∧ Messages s' !! id m = None.
Proof.
  revert s. induction fuel as [|fuel IH]; intros s Hk; simpl.
  { exists []. rewrite app_nil_r. split_and!; [done|constructor|].
    intros m. rewrite elem_of_nil. split; [done|]. intros [A B]. congruence. }
  unfold bind.
  destruct (deleteChunk account phase s) as [[e|more] s1] eqn:E.
  { pose proof (deleteChunk_run account phase s) as Hrun. rewrite E in Hrun. simpl in Hrun.
    subst s1. simpl. exists []. rewrite app_nil_r. split_and!; [done|constructor|].
    intros m. rewrite elem_of_nil. split; [done|]. intros [A B]. congruence. }
  pose proof (deleteChunk_onlyDeletes _ _ _ _ _ Hk E) as (Hk1 & Hsub1 & _).
  pose proof (deleteChunk_run account phase s) as Hrun. rewrite E in Hrun. simpl in Hrun.
  destruct Hrun as [_ Hs1].
  set (chunk := selectAll (stillUnlinkedQuery account phase) s) in *.
  assert (∀ m, m ∈ chunk → Messages s !! id m = Some m) as Hchunk.
  { intros m Hm. by apply selectAll_elem in Hm as [Hm _]. }
  assert (∀ i, Messages s1 !! i =
               if bool_decide (i ∈ id <$> chunk) then None else Messages s !! i) as Hl1.
  { intros i. rewrite Hs1. simpl. apply foldl_delete_lookup. }
  assert (∃ l2 : list Message,
            deltas (if more then (deleteLoop account fuel phase s1).2 else s1) =
              deltas s1 ++ (deltaOf Unpersist <$> l2) ∧
            NoDup (id <$> l2) ∧
            ∀ m, m ∈ l2 ↔ Messages s1 !! id m = Some m ∧
                 Messages (if more then (deleteLoop account fuel phase s1).2 else s1)
                   !! id m = None) as (l2 & Hd2 & Hn2 & Hin2).
  { destruct more; [apply IH; done|].
    exists []. rewrite app_nil_r. split_and!; [done|constructor|].
    intros m. rewrite elem_of_nil. split; [done|]. intros [A B]. congruence. }
  cbv beta iota.
  match goal with |- context [(?t).2] =>
    replace (t.2) with (if more then (deleteLoop account fuel phase s1).2 else s1)
      by (by destruct more)
  end.
  set (s2 := if more then (deleteLoop account fuel phase s1).2 else s1) in *.
  assert (∀ i m', Messages s2 !! i = Some m' → Messages s1 !! i = Some m') as Hsub2.
  { unfold s2. destruct more; [|done].
    intros i m' Hm'.
    assert (onlyDeletes account phase s1 (deleteLoop account fuel phase s1).2) as (_ & A & _).
    { clear -Hk1. revert s1 Hk1. induction fuel as [|fuel IHf]; intros s1 Hk1; simpl.
      - by repeat split.
      - unfold bind. destruct (deleteChunk account phase s1) as [[e|more] s3] eqn:E3; simpl.
        + by eapply deleteChunk_onlyDeletes.
        + pose proof (deleteChunk_onlyDeletes _ _ _ _ _ Hk1 E3) as Hod.
          destruct more; [|done]. eapply onlyDeletes_trans; [exact Hod|].
          apply IHf. apply Hod. }
    by apply A. }
  exists (chunk ++ l2). split_and!.
  - rewrite Hd2, Hs1. simpl. by rewrite fmap_app, app_assoc.
  - rewrite fmap_app. apply NoDup_app. split_and!; [|intros i Hi Hi2|done].
    + apply NoDup_fmap_2_strong; [|by apply selectAll_NoDup].
      intros x y Hx Hy Hxy. apply Hchunk in Hx, Hy. congruence.
    + apply list_elem_of_fmap in Hi2 as (m & -> & Hm). apply Hin2 in Hm as [Hm _].
      rewrite Hl1, bool_decide_true in Hm by done. done.
  - intros m. rewrite elem_of_app. split.
    + intros [Hm|Hm].
      * split; [by apply Hchunk|].
        destruct (Messages s2 !! id m) as [m'|] eqn:Em; [|done].
        apply Hsub2 in Em. rewrite Hl1, bool_decide_true in Em; [done|].
        by apply list_elem_of_fmap_2.
      * apply Hin2 in Hm as [Hm Hn]. split; [|done]. by apply Hsub1.
    + intros [Hm Hn]. destruct (decide (id m ∈ id <$> chunk)) as [Hc|Hc].
      * left. apply list_elem_of_fmap in Hc as (x & Hx & Hxc).
        pose proof (Hchunk _ Hxc) as Hxs. rewrite <- Hx, Hm in Hxs. by injection Hxs as ->.
      * right. apply Hin2. split; [|done]. by rewrite Hl1, bool_decide_false.
Qed.

(** X1. On a store whose rows are stored under their ids, and when the SQL
    engine refuses no deletion from the Message table, the deletion pass
    of a phase completes and removes exactly the messages of the account
    that carry the marker of the phase: every other message stays as it
    is, and the deltas of messages that the pass emits are one Unpersist
    delta for each message it removes. The statement is about the Message
    table and its deltas: what becomes of a thread that loses its last
    message is no part of it. *)
Theorem deletion_pass_removes_exactly (phase : Z) (s : Store) :
  keyed s →
  (∀ i, sqliteFault (DeleteFrom "Message" i) = None) →
  ∃ s' (removed : list Message),
    let ofMessages := filter (λ d : Delta, d_class d = "Message") in
    deleteMessagesStillUnlinkedFromPhase account phase s = (inr true, s') ∧
    (∀ i, Messages s' !! i =
          m ← Messages s !! i;
          if decide (stillUnlinked account phase m) then None else Some m) ∧
    ofMessages (deltas s') = ofMessages (deltas s) ++ (messageDelta Unpersist <$> (id <$> removed)) ∧
    NoDup (id <$> removed) ∧
    (∀ m, m ∈ removed ↔ Messages s !! id m = Some m ∧ stillUnlinked account phase m).
Proof.
  intros Hk Hh.
  pose proof (deleteMessagesStillUnlinkedFromPhase_spec account phase s Hk) as Hspec.
  pose proof (deleteLoop_removed phase (S (size (Messages s))) s Hk) as Hrem.
  destruct (deleteLoop_healthy account phase (S (size (Messages s))) s Hh) as (b & s' & E).
  unfold deleteMessagesStillUnlinkedFromPhase in *. rewrite E in Hspec, Hrem |- *.
  simpl in Hrem. destruct Hspec as (-> & Hnone & Hk' & Hsub & Hkeep).
  destruct Hrem as (l & Hd & Hnd & Hin).
  assert (∀ i, Messages s' !! i =
               m ← Messages s !! i;
               if decide (stillUnlinked account phase m) then None else Some m) as Hrows.
  { intros i. destruct (Messages s !! i) as [m|] eqn:Em; simpl.
    - destruct (decide (stillUnlinked account phase m)) as [Hq|Hq]; [|by apply Hkeep].
      destruct (Messages s' !! i) as [m'|] eqn:Em'; [|done].
      pose proof (Hsub _ _ Em') as Hm'. assert (m' = m) as -> by congruence.
      by apply Hnone in Em'.
    - destruct (Messages s' !! i) as [m'|] eqn:Em'; [|done].
      apply Hsub in Em'. congruence. }
  exists s', l. cbv zeta. split_and!; [done|done| |done|].
  - rewrite Hd, filter_app. f_equal. rewrite <- list_fmap_compose.
    clear. induction l as [|m l IH]; [done|].
    rewrite fmap_cons, filter_cons_True by done. by rewrite IH.
  - intros m. rewrite Hin, Hrows. split.
    + intros [Hm Hn]. split; [done|]. rewrite Hm in Hn. simpl in Hn. by case_decide.
    + intros [Hm Hq]. split; [done|]. rewrite Hm. simpl. by rewrite decide_True.
Qed.
End DeletionPass.

Section ThreadReferences.
Context `{Host}.

Lemma foldl_addReference (rows : list ThreadReference) (l : list ThreadReference) :
  ∃ added,
    foldl addReference rows l = rows ++ added ∧
    (length added ≤ length l)%nat ∧
    NoDup added ∧
    (∀ r, r ∈ added → r ∈ l ∧ r ∉ rows) ∧
    (∀ r, r ∈ l → r ∈ rows ++ added).
Proof.
  revert rows. induction l as [|x l IH]; intros rows; simpl.
  { exists []. rewrite app_nil_r. split_and!; [done|done|constructor|..].
    - intros r Hr. by apply elem_of_nil in Hr.
    - intros r Hr. by apply elem_of_nil in Hr. }
  unfold addReference at 2. case_bool_decide as Hx.
  - destruct (IH rows) as (added & -> & Hlen & Hnd & Hnew & Hall).
    exists added. split_and!; [done|lia|done|..].
    + intros r Hr. destruct (Hnew r Hr). split; [by right|done].
    + intros r Hr. apply elem_of_cons in Hr as [->|Hr]; [|by apply Hall].
      apply elem_of_app. by left.
  - destruct (IH (rows ++ [x])) as (added & -> & Hlen & Hnd & Hnew & Hall).
    exists (x :: added). rewrite <- app_assoc. split_and!; [done|simpl; lia| |..].
    + constructor; [|done]. intros Hin. destruct (Hnew x Hin) as [_ Hn].
      apply Hn, elem_of_app. right. left.
    + intros r Hr. apply elem_of_cons in Hr as [->|Hr]; [split; [left|done]|].
      destruct (Hnew r Hr) as [A B]. split; [by right|].
      intros Hin. apply B, elem_of_app. by left.
    + intros r Hr. simpl. apply elem_of_cons in Hr as [->|Hr].
      * apply elem_of_app. right. left.
      * specialize (Hall r Hr). by rewrite <- app_assoc in Hall.
Qed.

Lemma foldl_addReference_present (rows : list ThreadReference) (l : list ThreadReference) :
  (∀ r, r ∈ l → r ∈ rows) → foldl addReference rows l = rows.
Proof.
  induction l as [|x l IH]; intros Hall; simpl; [done|].
  unfold addReference at 2. rewrite bool_decide_true by (apply Hall; left).
  apply IH. intros r Hr. apply Hall. by right.
Qed.

Lemma forM_references_run tid aid l s :
  forM_ l (λ address, insertOrIgnoreReference (referenceRow tid aid address)) s =
    (inr tt, withThreadReferences
               (λ rows, foldl addReference rows (referenceRow tid aid <$> l)) s) ∨
  ∃ e s', forM_ l (λ address, insertOrIgnoreReference (referenceRow tid aid address)) s
            = (inl e, s') ∧
          ∃ h, h ∈ l ∧ sqliteFault (InsertOrIgnore "ThreadReference" h) ≠ None.
Proof.
  revert s. induction l as [|a l IH]; intros s.
  - left. unfold forM_, ret; simpl. by destruct s.
  - unfold forM_; simpl. unfold bind. rewrite insertOrIgnoreReference_run.
    change (r_headerMessageId (referenceRow tid aid a)) with a.
    destruct (sqliteFault (InsertOrIgnore "ThreadReference" a)) as [code|] eqn:Ef.
    + right. eexists _, _. split; [done|]. exists a. split; [left|congruence].
    + destruct (IH (withThreadReferences
                      (λ rows, addReference rows (referenceRow tid aid a)) s))
        as [E|(e & s' & E & h & Hh & Hf)].
      * left. unfold forM_ in E. rewrite E. by destruct s.
      * right. unfold forM_ in E. rewrite E. eexists _, _. split; [done|].
        exists h. split; [by right|done].
Qed.

(** X2. When [upsertThreadReferences] returns, the ThreadReference table
    is the old one followed by at most 101 new rows, without repeats, each
    for the given thread and account and for the Message-Id or one of the
    first 100 references; every one of these Message-Ids now has its row
    for the thread; and a second call with the same arguments returns and
    changes nothing. *)
Theorem upsertThreadReferences_appends (threadId accountId headerMessageId : string)
    (references : list string) (s s' : Store) :
  upsertThreadReferences threadId accountId headerMessageId references s = (inr tt, s') →
  let wanted := referenceRow threadId accountId <$> headerMessageId :: take 100 references in
  (∃ added,
     ThreadReferences s' = ThreadReferences s ++ added ∧
     (length added ≤ 101)%nat ∧ NoDup added ∧
     ∀ r, r ∈ added → r ∈ wanted ∧ r ∉ ThreadReferences s) ∧
  (∀ r, r ∈ wanted → r ∈ ThreadReferences s') ∧
  upsertThreadReferences threadId accountId headerMessageId references s' = (inr tt, s').
Proof.
  intros E wanted.
  assert (∀ s0, upsertThreadReferences threadId accountId headerMessageId references s0 =
            forM_ (headerMessageId :: take 100 references)
              (λ address, insertOrIgnoreReference (referenceRow threadId accountId address)) s0)
    as Hrun.
  { intros s0. unfold upsertThreadReferences. rewrite take_min_length.
    unfold forM_; simpl. unfold bind.
    by destruct (insertOrIgnoreReference _ s0) as [[e|[]] s1]. }
  rewrite Hrun in E. rewrite Hrun.
  destruct (forM_references_run threadId accountId (headerMessageId :: take 100 references) s)
    as [E1|(e & s1 & E1 & _)]; [|congruence].
  rewrite E1 in E. injection E as Es'.
  assert (ThreadReferences s' = foldl addReference (ThreadReferences s) wanted) as Hs1
    by (by rewrite <- Es').
  destruct (foldl_addReference (ThreadReferences s) wanted)
    as (added & Hadd & Hlen & Hnd & Hnew & Hall).
  rewrite Hadd in Hs1. split_and!.
  - exists added. split_and!; [done| |done|done].
    etrans; [exact Hlen|]. unfold wanted. rewrite length_fmap. simpl.
    rewrite length_take. lia.
  - intros r Hr. rewrite Hs1. by apply Hall.
  - destruct (forM_references_run threadId accountId (headerMessageId :: take 100 references) s')
      as [E2|(e & s2 & E2 & h & Hh & Hf)].
    + rewrite E2. f_equal. fold wanted.
      assert (foldl addReference (ThreadReferences s') wanted = ThreadReferences s') as Hp.
      { apply foldl_addReference_present. intros r Hr. rewrite Hs1. by apply Hall. }
      destruct s'. unfold withThreadReferences. simpl in *. by rewrite Hp.
    + exfalso.
      assert (∀ l s0 s1, forM_ l (λ address,
                  insertOrIgnoreReference (referenceRow threadId accountId address)) s0
                = (inr tt, s1) →
                ∀ h, h ∈ l → sqliteFault (InsertOrIgnore "ThreadReference" h) = None) as Hok.
      { clear. intros l. induction l as [|a l IH]; intros s0 s1 E h Hh.
        - by apply elem_of_nil in Hh.
        - unfold forM_ in E; simpl in E. apply bind_inr in E as ([] & s2 & Ea & E).
          rewrite insertOrIgnoreReference_run in Ea.
          change (r_headerMessageId (referenceRow threadId accountId a)) with a in Ea.
          destruct (sqliteFault (InsertOrIgnore "ThreadReference" a)) eqn:Ef; [done|].
          apply elem_of_cons in Hh as [->|Hh]; [done|]. by eapply (IH s2 s1). }
      by apply Hf, (Hok _ _ _ E1).
Qed.
End ThreadReferences.

Section Contacts.
Context `{MailUtils} `{Host}.

Lemma saveNew_contact_grows (c : Contact) emit s :
  Contacts s ⊆ Contacts (saveNew c emit s).2.
Proof.
  rewrite saveNew_run. destruct (sqliteFault _); [done|].
  destruct (table s !! modelId c) eqn:E; [done|].
  unfold emitted. destruct emit; simpl; by apply insert_subseteq.
Qed.

#[local] Instance contacts_grow_preorder :
  PreOrder (λ s s' : Store, Contacts s ⊆ Contacts s').
Proof. split; [by intros s|]. intros s1 s2 s3 H1 H2. by etrans. Qed.

(** X3. [upsertContacts]: a message with more than 25 distinct contact
    keys changes nothing; whatever happens, the Message and Thread tables
    and the deltas are as before (contacts are saved without a delta); and
    for a message that the user did not send every contact stored before
    is stored unchanged afterwards. *)
Theorem upsertContacts_bounds (message : Message) (s : Store) :
  let byEmail :=
    delete "" (byEmailOf (from_ message)
                 (byEmailOf (cc message) (byEmailOf (to_ message) ∅))) in
  let r := upsertContacts message s in
  ((25 < size byEmail)%nat → r = (inr tt, s)) ∧
  (Messages r.2 = Messages s ∧ Threads r.2 = Threads s ∧ deltas r.2 = deltas s) ∧
  (isSentByUser message = false → Contacts s ⊆ Contacts r.2).
Proof.
  intros byEmail r. split; [|split].
  - intros Hbig. unfold r, upsertContacts. fold byEmail. cbv zeta.
    unfold inKeyOrder. rewrite length_fmap, (Permutation_length (merge_sort_Permutation _ _)).
    rewrite length_map_to_list. by rewrite bool_decide_true.
  - destruct (upsertContacts_frame message s) as (A & B & C & _). by repeat split.
  - intros Hsent. unfold r.
    assert (preserves (λ s s' : Store, Contacts s ⊆ Contacts s') (upsertContacts message))
      as Hp; [|exact (Hp s)].
    unfold upsertContacts. rewrite Hsent. cbv zeta.
    destruct (bool_decide _); [apply preserves_ret; apply _|].
    apply preserves_bind; [apply _|apply preserves_findAll; apply _|intros results].
    apply preserves_bind; [apply _| |intros rest].
    + apply preserves_foldM; [apply _|]. intros acc result.
      apply preserves_bind; [apply _|apply preserves_ret; apply _|intros _].
      apply preserves_ret. apply _.
    + destruct (bool_decide _); [apply preserves_ret; apply _|].
      apply preserves_forM_; [apply _|]. intros item. cbv zeta.
      apply preserves_bind; [apply _|intros s0; apply saveNew_contact_grows|intros _].
      apply preserves_bind; [apply _|apply preserves_exec; apply _|intros _].
      apply preserves_modify. intros s0. done.
Qed.
End Contacts.

Section ThreadSearchIndex.
Context `{MailUtils} `{Host}.

(** X4. The search index of a thread. For a thread without a search row
    ([searchRowId] 0) a call that returns has appended one row for the
    thread, holding the subject and at most 5000 characters of the body,
    and the thread returned points to it. For a thread whose row is in the
    table, a call that returns has replaced that row in place, appending
    at most 5000 characters of the body to its text, and the table has the
    same length. For a thread whose [searchRowId] names no row the call
    still returns and the table is unchanged: the text is not indexed. *)
Theorem appendToThreadSearchContent_row (thread : Thread) (m : option Message)
    (text : string) (s : Store) (thread' : Thread) (s' : Store) :
  appendToThreadSearchContent thread m (Some text) s = (inr thread', s') →
  let n := Z.to_nat (searchRowId thread - 1) in
  (searchRowId thread = 0 →
     ∃ row, ThreadSearch s' = ThreadSearch s ++ [row] ∧
       s_content_id row = t_id thread ∧
       s_body row = t_subject thread +:+ " " +:+ substringToIndex 5000 text ∧
       searchRowId thread' = Z.of_nat (length (ThreadSearch s')) ∧
       searchRowAt (searchRowId thread') (ThreadSearch s') = Some row) ∧
  (∀ old, 0 < searchRowId thread → ThreadSearch s !! n = Some old →
     thread' = thread ∧
     ∃ row, ThreadSearch s' = <[n := row]> (ThreadSearch s) ∧
       s_content_id row = s_content_id old ∧
       s_body row = s_body old +:+ " " +:+ substringToIndex 5000 text) ∧
  (searchRowId thread ≠ 0 → searchRowAt (searchRowId thread) (ThreadSearch s) = None →
     thread' = thread ∧ ThreadSearch s' = ThreadSearch s).
Proof.
  intros E n. unfold appendToThreadSearchContent in E.
  unfold bind at 1 in E. unfold get at 1 in E. cbv beta iota zeta in E.
  split; [|split].
  - intros Hz. rewrite Hz in E.
    rewrite (bool_decide_false (0 ≠ 0)) in E by (intros Hx; by apply Hx). cbn [from_option] in E.
    apply bind_inr in E as ([] & s1 & E1 & E). unfold exec in E1.
    destruct (sqliteFault _); [done|]. unfold ret in E1. injection E1 as <-.
    apply bind_inr in E as ([] & s2 & E2 & E). unfold modify in E2. injection E2 as <-.
    apply bind_inr in E as (s3 & s4 & E3 & E). unfold get in E3. injection E3 as <- <-.
    unfold ret in E. injection E as <- <-. simpl.
    eexists. split_and!; [reflexivity|done|done|done|].
    unfold searchRowAt. rewrite bool_decide_true by (rewrite length_app; simpl; lia).
    rewrite length_app. simpl.
    replace (Z.to_nat (Z.of_nat (length (ThreadSearch s) + 1) - 1))
      with (length (ThreadSearch s) + 0)%nat by lia.
    apply list_lookup_middle. lia.
  - intros old Hpos Hold.
    rewrite (bool_decide_true (searchRowId thread ≠ 0)) in E by lia.
    unfold searchRowAt in E. rewrite (bool_decide_true (0 < searchRowId thread)) in E by done.
    fold n in E. rewrite Hold in E. cbn [from_option] in E.
    apply bind_inr in E as ([] & s1 & E1 & E). unfold exec in E1.
    destruct (sqliteFault _); [done|]. unfold ret in E1. injection E1 as <-.
    apply bind_inr in E as ([] & s2 & E2 & E). unfold modify in E2. injection E2 as <-.
    unfold ret in E. injection E as <- <-. split; [done|]. simpl.
    eexists. split.
    { apply list_eq. intros k. destruct (decide (k = n)) as [->|Hne].
      - rewrite list_lookup_alter_eq, Hold. simpl.
        rewrite list_lookup_insert_eq by (by eapply lookup_lt_Some). reflexivity.
      - by rewrite list_lookup_alter_ne, list_lookup_insert_ne. }
    split; reflexivity.
  - intros Hne Hnone.
    rewrite (bool_decide_true (searchRowId thread ≠ 0)) in E by done.
    rewrite Hnone in E. cbn [from_option] in E.
    apply bind_inr in E as ([] & s1 & E1 & E). unfold exec in E1.
    destruct (sqliteFault _); [done|]. unfold ret in E1. injection E1 as <-.
    apply bind_inr in E as ([] & s2 & E2 & E). unfold modify in E2. injection E2 as <-.
    unfold ret in E. injection E as <- <-. split; [done|]. simpl.
    unfold searchRowAt in Hnone. revert Hnone.
    destruct (bool_decide (0 < searchRowId thread)); intros Hnone; [|done].
    apply list_eq. intros k. destruct (decide (k = n)) as [->|Hne'].
    + rewrite list_lookup_alter_eq. fold n in Hnone |- *. by rewrite Hnone.
    + by rewrite list_lookup_alter_ne.
Qed.
End ThreadSearchIndex.

Lemma substring_length_le (n : nat) (s : string) :
  (String.length (String.substring 0 n s) ≤ n)%nat.
Proof.
  revert s. induction n as [|n IH]; intros s; destruct s as [|c s]; simpl; try lia.
  specialize (IH s). lia.
Qed.

Section MessageBody.
Context `{MailUtils} `{Host}.

(** The loop that builds the file containers returns, and keeps one file
    for each part id, the first. *)
Lemma retrievedFiles_run (message : Message) (html : string) (l : list Attachment) :
  ∀ (acc : list File) (s : Store),
    NoDup (partId <$> acc) →
    ∃ files s1,
      foldM (λ (files : list File) (a : Attachment),
        let f := newFile message a in
        let duplicate := existsb (λ other, bool_decide (partId other = partID a)) files in
        let f := if bool_decide (contentId f = None) && strstr html ("cid:" +:+ filename f)
                 then setContentId (filename f) f else f in
        if negb duplicate then
          retrievedFileData f (att_data a);;
          ret (files ++ [f])
        else ret files) acc l s = (inr files, s1) ∧
      NoDup (partId <$> files) ∧
      (∀ p, p ∈ partId <$> files ↔ p ∈ partId <$> acc ∨ p ∈ partID <$> l) ∧
      (∀ f, f ∈ files → file_messageId f = id message ∨ f ∈ acc).
Proof.
  match goal with |- context [foldM ?b _ _ _] => set (body := b) end.
  induction l as [|a l IH]; intros acc s Hnd.
  - exists acc, s. split_and!; [done|done| |by right].
    intros p. rewrite fmap_nil, elem_of_nil. tauto.
  - cbn [foldM]. unfold body at 1. cbv zeta.
    destruct (existsb (λ other, bool_decide (partId other = partID a)) acc) eqn:Edup;
      cbn [negb].
    + apply existsb_exists in Edup as (other & Hother & Heq).
      apply bool_decide_eq_true in Heq. apply list_elem_of_In in Hother.
      destruct (IH acc s Hnd) as (files & s1 & E & Hn & Hset & Hown).
      exists files, s1. unfold bind, ret. rewrite E. split_and!; [done|done| |done].
      intros p. rewrite Hset, fmap_cons, elem_of_cons.
      split; [tauto|]. intros [Hp|[->|Hp]]; [tauto| |tauto].
      left. rewrite <- Heq. by apply list_elem_of_fmap_2.
    + set (f := if bool_decide (contentId (newFile message a) = None) &&
                   strstr html ("cid:" +:+ filename (newFile message a))
                then setContentId (filename (newFile message a)) (newFile message a)
                else newFile message a).
      assert (partId f = partID a ∧ file_messageId f = id message) as [Hpf Hmf].
      { unfold f. by destruct (_ && _). }
      assert (partID a ∉ partId <$> acc) as Hfresh.
      { intros Hin. apply list_elem_of_fmap in Hin as (other & Hp & Hother).
        assert (existsb (λ other, bool_decide (partId other = partID a)) acc = true) as Ht.
        { apply existsb_exists. exists other. split; [by apply list_elem_of_In|].
          by apply bool_decide_eq_true. }
        congruence. }
      assert (NoDup (partId <$> acc ++ [f])) as Hnd'.
      { rewrite fmap_app. apply NoDup_app. split_and!; [done| |apply NoDup_singleton].
        intros p Hp Hp'. simpl in Hp'. apply list_elem_of_singleton in Hp'. subst p.
        by rewrite Hpf in Hp. }
      unfold bind at 1. unfold bind at 1.
      destruct (retrievedFileData f (att_data a) s) as [[e|b] s0] eqn:Ew.
      { unfold retrievedFileData in Ew. destruct (writeToFileFails _); [done|].
        unfold bind, modify, ret in Ew. done. }
      unfold ret at 1. cbv beta iota.
      destruct (IH (acc ++ [f]) s0 Hnd') as (files & s1 & E & Hn & Hset & Hown).
      exists files, s1. rewrite E. split_and!; [done|done|..].
      * intros p. rewrite Hset, fmap_app, elem_of_app. simpl.
        rewrite list_elem_of_singleton, elem_of_cons, Hpf. tauto.
      * intros f' Hf'. destruct (Hown f' Hf') as [Ho|Ho]; [by left|].
        apply elem_of_app in Ho as [Ho|Ho]; [by right|].
        apply list_elem_of_singleton in Ho. subst f'. by left.
Qed.

(** X5. When [retrievedMessageBody] returns: the message returned is the
    given one with its snippet, the first 400 characters of the flattened
    text at most, and its files; the files are one for each part id of the
    attachments and inline attachments, without repeats, each bound to the
    message; the HTML is stored as the body of the message; the stored
    message, where there is one, is replaced by the message returned; and
    the last delta is that of the message. *)
Theorem retrievedMessageBody_stores (message : Message) (parser : MessageParser)
    (s : Store) (msg : Message) (s' : Store) :
  retrievedMessageBody message parser s = (inr msg, s') →
  let parts := partID <$> attachments parser ++ htmlInlineAttachments parser in
  msg = setFiles (files msg)
          (setSnippet (substringToIndex 400 (flattenedText parser)) message) ∧
  (String.length (snippet msg) ≤ 400)%nat ∧
  NoDup (partId <$> files msg) ∧
  (∀ p, p ∈ partId <$> files msg ↔ p ∈ parts) ∧
  Forall (λ f, file_messageId f = id message) (files msg) ∧
  MessageBodies s' !! id message = Some (htmlRendering parser) ∧
  Messages s' = alter (λ _, msg) (id message) (Messages s) ∧
  last (deltas s') = Some (messageDelta Persist (id message)).
Proof.
  intros E parts.
  pose proof (retrievedMessageBody_inr _ _ _ _ _ E) as (_ & _ & Hbody).
  unfold retrievedMessageBody in E. cbv zeta in E.
  apply bind_inr in E as (fs & s0 & Efiles & Etx).
  destruct (retrievedFiles_run message (htmlRendering parser)
              (attachments parser ++ htmlInlineAttachments parser) [] s (NoDup_nil_2))
    as (fs' & s0' & Efiles' & Hnd & Hset & Hown).
  pose proof (eq_trans (eq_sym Efiles) Efiles') as Heq. injection Heq as <- <-.
  assert (Messages s0 = Messages s) as M0.
  { pose proof (retrievedFiles_frame message parser [] s) as Hf.
    cbv zeta in Hf. rewrite Efiles in Hf. exact Hf. }
  apply transaction_inr in Etx.
  apply bind_inr in Etx as ([] & s2 & E2 & Etx).
  apply bind_inr in Etx as ([] & s3 & E3 & Etx).
  apply bind_inr in Etx as ([] & s4 & E4 & Etx).
  apply bind_inr in Etx as (thread & s5 & E5 & Etx).
  apply bind_inr in Etx as ([] & s6 & E6 & Etx).
  apply bind_inr in Etx as ([] & s7 & E7 & Etx).
  unfold ret in Etx. injection Etx as <- <-.
  assert (Messages s6 = Messages s0) as M6.
  { assert (Messages s2 = Messages s0) as A2
      by (eapply (run_preserves (same Messages)); [|exact E2]; frame).
    assert (Messages s3 = Messages s2) as A3
      by (eapply (run_preserves (same Messages)); [|exact E3]; frame).
    assert (Messages s4 = Messages s3) as A4
      by (eapply (run_preserves (same Messages)); [|exact E4]; unfold saveFiles; frame).
    assert (Messages s5 = Messages s4) as A5
      by (eapply (run_preserves (same Messages)); [|exact E5]; frame).
    assert (Messages s6 = Messages s5) as A6.
    { eapply (run_preserves (same Messages)); [|exact E6].
      destruct thread; [|frame].
      apply preserves_bind; [apply _| |intros ?; apply preserves_ret; apply _].
      eapply preserves_weaken; [|apply appendToThreadSearchContent_frame].
      by intros ? ? [? _]. }
    congruence. }
  rewrite saveLoaded_run in E7. destruct (sqliteFault _); [done|]. injection E7 as <-.
  split_and!.
  - done.
  - apply substring_length_le.
  - done.
  - intros p. rewrite (Hset p). rewrite fmap_nil, elem_of_nil. tauto.
  - apply Forall_forall. intros f Hf. destruct (Hown f Hf) as [Ho|Ho]; [done|].
    by apply elem_of_nil in Ho.
  - done.
  - simpl. by rewrite M6, M0.
  - simpl. by rewrite last_snoc.
Qed.
End MessageBody.

Section Upserts.
Context `{MailUtils} `{Host}.
Variable account : Account.

(** X6. Upsert, then look up. When [insertFallbackToUpdateMessage]
    returns a message, that message is the one stored under the
    deterministic id. When no message was stored under the id, it agrees
    with the remote message on every observable attribute, it is stamped
    with the timestamp, and the deltas of its thread and of the message
    are emitted, in this order. When a message was stored: if it was
    synced after the timestamp it is returned and nothing changes;
    otherwise the message agrees with the remote one on every observable
    attribute, and one delta of the message is emitted, or none when
    nothing had to change. *)
Theorem upsert_then_lookup (mMsg : IMAPMessage) (folder : Folder)
    (syncDataTimestamp : Z) (s : Store) (m : Message) (s' : Store) :
  keyed s →
  insertFallbackToUpdateMessage account mMsg folder syncDataTimestamp s = (inr m, s') →
  let i := idForMessage (f_accountId folder) (f_path folder) mMsg in
  Messages s' !! i = Some m ∧
  match Messages s !! i with
  | None =>
      unchangedAttributes m mMsg folder ∧ syncedAt m = syncDataTimestamp ∧
      deltas s' = deltas s ++ [threadDelta Persist (threadId m); messageDelta Persist i]
  | Some local =>
      if decide (syncedAt local > syncDataTimestamp) then m = local ∧ s' = s
      else
        unchangedAttributes m mMsg folder ∧
        (s' = s ∨ deltas s' = deltas s ++ [messageDelta Persist i])
  end.
Proof.
  intros Hk E i. rewrite insertFallbackToUpdateMessage_run in E by done. fold i in E.
  destruct (insertMessage account mMsg folder syncDataTimestamp s) as [[e|msg] s1] eqn:Ei.
  - destruct (decide _); [|done].
    destruct (Messages s !! i) as [local|] eqn:El; [|done].
    pose proof (Hk _ _ El) as Hid.
    rewrite updateMessage_cases in E.
    destruct (decide (syncedAt local > syncDataTimestamp)).
    { injection E as <- <-. by repeat split. }
    destruct (decide (unchangedAttributes local mMsg folder)).
    { injection E as <- <-. split; [done|]. split; [done|by left]. }
    destruct (sqliteFault _); [done|]. cbv zeta in E. injection E as <- <-. simpl.
    split; [by rewrite Hid, lookup_alter_eq, El|]. split; [by repeat split|].
    right. by rewrite Hid.
  - injection E as <- <-. apply insertMessage_inr in Ei. cbv zeta in Ei.
    destruct Ei as (thread1 & -> & _ & _ & _ & Hnone & HM & _ & _ & _ & Hd).
    change (id (newMessage mMsg folder syncDataTimestamp)) with i in *.
    rewrite Hnone. split; [rewrite HM; apply lookup_insert_eq|].
    split; [by repeat split|]. split; [done|]. exact Hd.
Qed.
End Upserts.

Section Cycle.
Context `{MailUtils} `{Host} `{IMAPSession}.
Variable account : Account.

(** X7. No sync pass removes a message: whatever the server answers and
    whatever statement the SQL engine refuses, after a UID range scan, a
    step of the full scan, a shallow scan, the CONDSTORE path, the body
    fetches, the sync of one folder and the sync of the folder list, the
    phase of the worker is the
    same, the rows of the Message table are still stored under their ids
    and every message stored before is still stored. *)
Theorem sync_passes_keep_messages (folder : Folder) (remoteStatus : IMAPFolderStatus)
    (range : Range) (again loaded : bool) (w : Worker) :
  keepsRowsW w (syncFolderUIDRange account folder range w).2 ∧
  keepsRowsW w (syncFolderFullScanIncremental account folder remoteStatus w).2 ∧
  keepsRowsW w (syncFolderChangesViaShallowScan account folder remoteStatus w).2 ∧
  keepsRowsW w (syncFolderChangesViaCondstore account folder remoteStatus w).2 ∧
  keepsRowsW w (syncMessageBodies folder remoteStatus w).2 ∧
  keepsRowsW w (syncFolder account again (loaded, folder) w).2 ∧
  keepsRowsW w (syncFoldersAndLabels w).2.
Proof.
  split_and!.
  - apply syncFolderUIDRange_keepsRows.
  - apply syncFolderFullScanIncremental_keepsRows.
  - apply syncFolderChangesViaShallowScan_keepsRows.
  - apply syncFolderChangesViaCondstore_keepsRows.
  - apply syncMessageBodies_keepsRows.
  - apply syncFolder_keepsRows.
  - apply syncFoldersAndLabels_keepsRows.
Qed.

Lemma flipPhaseAndDelete_inr w w' :
  flipPhaseAndDelete account w = (inr tt, w') →
  unlinkPhase w' = flipped (unlinkPhase w) ∧
  ∃ b, deleteMessagesStillUnlinkedFromPhase account (flipped (unlinkPhase w)) (store w)
         = (inr b, store w').
Proof.
  unfold flipPhaseAndDelete. intros E.
  apply bind_inr in E as (w0 & w1 & E0 & E). unfold get in E0. injection E0 as <- <-.
  apply bind_inr in E as ([] & w2 & E2 & E). unfold modify in E2. injection E2 as <-.
  apply bind_inr in E as (b & w3 & E3 & E). unfold ret in E. injection E as <-.
  rewrite onStore_run in E3. injection E3 as E3 <-. simpl in *.
  split; [done|]. exists b. unfold flipped.
  destruct (deleteMessagesStillUnlinkedFromPhase _ _ _) as [r s']. simpl in *. by subst r.
Qed.

(** X8. A sync cycle that completes, from a store whose rows are stored
    under their ids: the phase of the worker is flipped, the rows are
    still stored under their ids, and no message of the account is left
    with the marker of the phase that is now current. *)
Theorem syncNow_completed (w : Worker) (b : bool) (w' : Worker) :
  keyed (store w) →
  syncNow account w = (inr b, w') →
  unlinkPhase w' = flipped (unlinkPhase w) ∧
  keyed (store w') ∧
  ∀ i m, Messages (store w') !! i = Some m →
         ¬ stillUnlinked account (unlinkPhase w') m.
Proof.
  intros Hk E. apply syncNow_inr in E as (w1 & [Hp Hrows] & E).
  destruct (Hrows Hk) as [Hk1 _].
  apply flipPhaseAndDelete_inr in E as (Hp' & b' & Edel).
  pose proof (deleteMessagesStillUnlinkedFromPhase_spec account
                (flipped (unlinkPhase w1)) (store w1) Hk1) as Hspec.
  rewrite Edel in Hspec. destruct Hspec as (_ & Hnone & Hk' & _).
  rewrite Hp', Hp. split_and!; [done|done|]. rewrite <- Hp. exact Hnone.
Qed.

(** X9. A sync cycle that throws, from a store whose rows are stored
    under their ids, has removed no message unless the exception comes out
    of the deletion pass: either the phase is the same and every message
    stored before is still stored, or the phase is flipped. In both cases
    the rows are still stored under their ids. *)
Theorem syncNow_thrown (w : Worker) (e : Exn) (w' : Worker) :
  keyed (store w) →
  syncNow account w = (inl e, w') →
  keyed (store w') ∧
  ((unlinkPhase w' = unlinkPhase w ∧
    ∀ i, is_Some (Messages (store w) !! i) → is_Some (Messages (store w') !! i)) ∨
   unlinkPhase w' = flipped (unlinkPhase w)).
Proof.
  intros Hk E. unfold syncNow in E. unfold bind at 1 in E.
  pose proof (syncFoldersAndLabels_keepsRows w) as Hl.
  destruct (syncFoldersAndLabels w) as [[e0|folders] w0]; simpl in Hl.
  { injection E as <- <-. destruct Hl as [Hp Hr]. destruct (Hr Hk). split; [done|by left]. }
  cbv zeta in E. unfold bind at 1 in E.
  match type of E with
  | context [foldM ?f ?a ?l w0] =>
      assert (preserves keepsRowsW (foldM f a l)) as Hf;
        [apply preserves_foldM; [apply _|]; intros again' item; apply syncFolder_keepsRows|];
      specialize (Hf w0); destruct (foldM f a l w0) as [[e1|again] w1]; simpl in Hf
  end.
  { injection E as <- <-. assert (keepsRowsW w w1) as [Hp Hr] by (by etrans).
    destruct (Hr Hk). split; [done|by left]. }
  assert (keepsRowsW w w1) as [Hp Hr] by (by etrans).
  destruct (Hr Hk) as [Hk1 _].
  unfold bind at 1 in E.
  pose proof (flipPhaseAndDelete_run account w1) as Hrun.
  destruct (flipPhaseAndDelete account w1) as [[e2|[]] w2]; [|done].
  injection E as <- <-. simpl in Hrun. subst w2. simpl.
  pose proof (deleteMessagesStillUnlinkedFromPhase_spec account
                (flipped (unlinkPhase w1)) (store w1) Hk1) as Hspec.
  split; [|right; by rewrite Hp].
  destruct (deleteMessagesStillUnlinkedFromPhase _ _ _) as [[?|?] s2]; simpl; apply Hspec.
Qed.
End Cycle.

Section DeletionDetection.
Context `{MailUtils} `{Host} `{IMAPSession}.
Variable account : Account.

Lemma local_attributes_keys range folder s u :
  keyed s →
  is_Some (fetchMessagesAttributesInRange range folder s !! u) ↔
  ∃ m, Messages s !! id m = Some m ∧ remoteFolderId m = f_id folder ∧
       location range ≤ remoteUID m < location range + length_ range ∧ remoteUID m = u.
Proof.
  intros Hk. unfold fetchMessagesAttributesInRange.
  rewrite <- not_eq_None_Some, <- not_elem_of_list_to_map.
  rewrite <- list_fmap_compose. split.
  - intros Hin. apply dec_stable in Hin.
    apply list_elem_of_fmap in Hin as (m & Hu & Hm). simpl in Hu.
    apply list_elem_of_filter in Hm as [[Hf Hr] Hm].
    apply elem_of_rows in Hm; [|done]. by exists m.
  - intros (m & Hm & Hf & Hr & Hu) Hn. apply Hn.
    apply list_elem_of_fmap. exists m. split; [done|].
    apply list_elem_of_filter. split; [done|]. by apply elem_of_rows.
Qed.

(** X10. Deletion detection by a UID range scan. When the server answers
    the range with no message and the scan returns, every message of the
    folder whose UID is in the range (as [fetchMessagesAttributesInRange]
    reads it) and that carries no unlink marker gets the marker of the
    phase of the worker, and every other message is as before; no delta
    is emitted. When the scan throws, the store is as before. *)
Theorem uid_range_scan_detects_deletions (folder : Folder) (range : Range) (w : Worker) :
  fetchMessagesByUID (f_path folder) range = inr [] →
  keyed (store w) →
  let r := syncFolderUIDRange account folder range w in
  let inRange (m : Message) :=
    remoteFolderId m = f_id folder ∧
    location range ≤ remoteUID m < location range + length_ range in
  deltas (store r.2) = deltas (store w) ∧
  (r.1 = inr tt →
     ∀ i, Messages (store r.2) !! i =
          m ← Messages (store w) !! i;
          Some (if decide (inRange m ∧ ¬ marked m)
                then setRemoteUID (marker (unlinkPhase w)) m else m)) ∧
  (∀ e, r.1 = inl e → store r.2 = store w).
Proof.
  intros Hfetch Hk r inRange. subst r.
  destruct (syncFolderUIDRange account folder range w) as [res w'] eqn:E. simpl.
  unfold syncFolderUIDRange in E.
  unfold bind at 1 in E.
  unfold send at 1, modify in E. cbv beta iota in E. rewrite Hfetch in E.
  unfold bind at 1 in E. unfold get at 1 in E. cbv beta iota zeta in E.
  change (reverse (@nil IMAPMessage)) with (@nil IMAPMessage) in E.
  cbn [foldM store unlinkPhase sent clockReads] in E. unfold bind at 1 in E.
  unfold ret at 1 in E. cbv beta iota in E.
  set (local := fetchMessagesAttributesInRange range folder (store w)) in E.
  assert (∀ m, Messages (store w) !! id m = Some m →
            (remoteFolderId m = f_id folder ∧ remoteUID m ∈ (map_to_list local).*1)
            ↔ inRange m) as Hkeys.
  { intros m Hm. unfold inRange. split.
    - intros [Hf Hu]. split; [done|].
      apply list_elem_of_fmap in Hu as ([u a] & -> & Hu). apply elem_of_map_to_list in Hu.
      assert (is_Some (local !! u)) as Hs by eauto.
      apply local_attributes_keys in Hs as (m' & _ & _ & Hr & Hu'); [|done]. simpl.
      by rewrite <- Hu'.
    - intros [Hf Hr]. split; [done|].
      assert (is_Some (local !! remoteUID m)) as [a Ha].
      { apply local_attributes_keys; [done|]. by exists m. }
      apply list_elem_of_fmap. exists (remoteUID m, a). split; [done|].
      by apply elem_of_map_to_list. }
  case_bool_decide as Hsize.
  - cbv zeta in E. fold (uidsQuery folder (map_to_list local).*1) in E.
    set (q := uidsQuery folder (map_to_list local).*1) in E.
    unfold bind at 1 in E. rewrite onStore_run in E. cbn [findAll fst snd] in E.
    unfold bind at 1 in E. unfold get at 1 in E. cbv beta iota in E.
    rewrite onStore_run in E. cbn [store unlinkPhase withStore] in E.
    assert (unlinkMessagesFromFolder (selectAll q (store w)) (unlinkPhase w) (store w) =
            unlinkMessagesMatchingQuery q (unlinkPhase w) (store w)) as Heq
      by (unfold unlinkMessagesFromFolder, unlinkMessagesMatchingQuery, transaction, bind,
            findAll; reflexivity).
    rewrite Heq in E.
    pose proof (unlinkMessagesMatchingQuery_run q (unlinkPhase w) (store w) Hk) as Hrun.
    destruct (unlinkMessagesMatchingQuery q (unlinkPhase w) (store w)) as [[e|[]] s'];
      simpl in *; injection E as <- <-; simpl.
    + subst s'. split_and!; [done|done|done].
    + destruct Hrun as (M' & -> & HM'). split_and!; [done| |done].
      intros _ i. simpl. rewrite HM'.
      destruct (Messages (store w) !! i) as [m|] eqn:Em; [|done]. simpl. f_equal.
      pose proof (Hk _ _ Em) as Hid. rewrite <- Hid in Em.
      assert (id m ∈ id <$> selectAll q (store w) ↔ inRange m) as Hsel.
      { rewrite <- (Hkeys m Em), <- matches_uidsQuery. split.
        - intros Hin. apply list_elem_of_fmap in Hin as (x & Hx & Hin).
          apply selectAll_elem in Hin as [Hxs Hq]; [|done].
          rewrite <- Hx in Hxs. assert (x = m) as -> by congruence. done.
        - intros Hq. apply list_elem_of_fmap_2. by apply selectAll_no_limit. }
      destruct (decide (inRange m ∧ ¬ marked m)) as [[Hi Hm]|Hn].
      * rewrite bool_decide_true by (by apply Hsel). unfold stamp.
        by rewrite bool_decide_false.
      * destruct (bool_decide (id m ∈ id <$> selectAll q (store w))) eqn:Eb; [|done].
        apply bool_decide_eq_true in Eb. apply Hsel in Eb. unfold stamp.
        rewrite bool_decide_true; [done|]. destruct (decide (marked m)); [done|tauto].
  - unfold ret in E. injection E as <- <-. simpl. split_and!; [done| |done].
    intros _ i. destruct (Messages (store w) !! i) as [m|] eqn:Em; [|done]. simpl. f_equal.
    rewrite decide_False; [done|]. intros [Hin _].
    pose proof (Hk _ _ Em) as Hid. rewrite <- Hid in Em.
    apply (Hkeys m Em) in Hin as [_ Hu].
    apply Hsize. apply list_elem_of_fmap in Hu as ([u a] & _ & Hu).
    apply elem_of_map_to_list in Hu.
    destruct (decide (size local = 0%nat)) as [Hz|Hz]; [|lia].
    apply map_size_empty_iff in Hz. rewrite Hz in Hu. by rewrite lookup_empty in Hu.
Qed.
End DeletionDetection.

Section Bodies.
Context `{MailUtils} `{Host} `{IMAPSession}.

Lemma syncMessageBody_sent folderPath message w :
  sent (syncMessageBody folderPath message w).2 =
    sent w ++ [CmdFetchMessageByUID folderPath (remoteUID message)].
Proof.
  unfold syncMessageBody. unfold bind at 1. unfold send at 1, modify. cbv beta iota.
  destruct (fetchMessageByUID _ _) as [err|parser]; [done|].
  unfold bind. rewrite onStore_run. by destruct (retrievedMessageBody _ _ _).1.
Qed.

Lemma syncMessageBody_failed folderPath message err w :
  fetchMessageByUID folderPath (remoteUID message) = inl err →
  (syncMessageBody folderPath message w).1 = inr tt ∧
  store (syncMessageBody folderPath message w).2 = store w.
Proof.
  intros Hf. unfold syncMessageBody. unfold bind at 1. unfold send at 1, modify.
  cbv beta iota. unfold bind at 1. unfold send at 1, modify. cbv beta iota.
  by rewrite Hf.
Qed.

Lemma forM_syncMessageBody_sent folderPath (l : list Message) :
  ∀ w w', forM_ l (syncMessageBody folderPath) w = (inr tt, w') →
    sent w' = sent w ++ ((λ m, CmdFetchMessageByUID folderPath (remoteUID m)) <$> l).
Proof.
  induction l as [|m l IH]; intros w w' E; unfold forM_ in E; cbn [foldM] in E.
  - unfold ret in E. injection E as <-. by rewrite app_nil_r.
  - apply bind_inr in E as ([] & w1 & E1 & E).
    apply IH in E. rewrite E.
    pose proof (syncMessageBody_sent folderPath m w) as Hs. rewrite E1 in Hs. simpl in Hs.
    rewrite Hs, <- app_assoc. done.
Qed.

Lemma forM_syncMessageBody_failed folderPath (l : list Message) :
  (∀ m, m ∈ l → ∃ err, fetchMessageByUID folderPath (remoteUID m) = inl err) →
  ∀ w, (forM_ l (syncMessageBody folderPath) w).1 = inr tt ∧
       store (forM_ l (syncMessageBody folderPath) w).2 = store w.
Proof.
  induction l as [|m l IH]; intros Hall w; unfold forM_; cbn [foldM].
  - done.
  - destruct (Hall m) as [err Hf]; [left|].
    pose proof (syncMessageBody_failed folderPath m err w Hf) as [Hr1 Hr2].
    unfold bind. destruct (syncMessageBody folderPath m w) as [[e|[]] w1]; [done|].
    simpl in Hr2.
    assert (∀ m', m' ∈ l → ∃ err, fetchMessageByUID folderPath (remoteUID m') = inl err)
      as Hall' by (intros m' Hm'; apply Hall; by right).
    destruct (IH Hall' w1) as [A B].
    unfold forM_ in A, B. split; [done|]. by rewrite B, Hr2.
Qed.

(** X11. The body fetches of a folder. For the spam and the trash folder
    nothing is done and the value is false. Otherwise at most ten bodies
    are requested, those [missingBodies] selects at the time the pass
    starts; when the pass returns, one fetch has been sent for each of
    them, in order, and the value says whether any body was missing. When
    every fetch fails the pass still returns that value and the store is
    as before, so the same bodies are missing the next time. *)
Theorem syncMessageBodies_requests (folder : Folder) (remoteStatus : IMAPFolderStatus)
    (w : Worker) :
  let skipped := f_role folder = "spam" ∨ f_role folder = "trash" in
  let results :=
    missingBodies folder (clock (clockReads w) - 24 * 60 * 60 * 30) (store w) in
  let r := syncMessageBodies folder remoteStatus w in
  (skipped → r = (inr false, w)) ∧
  (¬ skipped →
     (length results ≤ 10)%nat ∧
     (∀ b w', r = (inr b, w') →
        b = bool_decide (0 < length results)%nat ∧
        sent w' = sent w ++
          ((λ m, CmdFetchMessageByUID (f_path folder) (remoteUID m)) <$> results)) ∧
     ((∀ m, m ∈ results →
         ∃ err, fetchMessageByUID (f_path folder) (remoteUID m) = inl err) →
      r.1 = inr (bool_decide (0 < length results)%nat) ∧ store r.2 = store w)).
Proof.
  intros skipped results r. unfold r, syncMessageBodies. split.
  - intros [Hs|Hs]; rewrite Hs; [done|].
    by destruct (bool_decide ("trash" = "spam")).
  - intros Hn.
    assert (bool_decide (f_role folder = "spam") || bool_decide (f_role folder = "trash")
            = false) as ->.
    { apply orb_false_iff. split; apply bool_decide_eq_false; unfold skipped in Hn; tauto. }
    assert (∀ w0, (let* now := time_0 in
                   let* w1 := get in
                   let results := missingBodies folder (now - 24 * 60 * 60 * 30) (store w1) in
                   forM_ results (λ result, syncMessageBody (f_path folder) result);;
                   ret (bool_decide (0 < length results)%nat)) w0 =
                  (forM_ (missingBodies folder (clock (clockReads w0) - 24 * 60 * 60 * 30)
                            (store w0))
                     (syncMessageBody (f_path folder));;
                   ret (bool_decide
                          (0 < length (missingBodies folder
                                         (clock (clockReads w0) - 24 * 60 * 60 * 30)
                                         (store w0)))%nat)) (tick w0)) as Hrun by done.
    rewrite Hrun. fold results. clear Hrun.
    split_and!.
    + unfold results, missingBodies. rewrite length_take. lia.
    + intros b w' E.
      apply bind_inr in E as ([] & w1 & E1 & E). unfold ret in E. injection E as <- <-.
      split; [done|]. by apply forM_syncMessageBody_sent in E1.
    + intros Hall. unfold bind.
      destruct (forM_syncMessageBody_failed (f_path folder) results Hall (tick w)) as [A B].
      destruct (forM_ results (syncMessageBody (f_path folder)) (tick w)) as [[e|[]] w1];
        [done|]. simpl in *. done.
Qed.
End Bodies.

Section TestAuthReply.
Context `{MailUtils}.
Variable ErrorCodeToTypeMap : gmap Z string.

(** X12. The reply of the test mode. Whatever the servers answer, either
    the exit code is 0, the error is null and the account is echoed, or
    the exit code is 1, the error is a string and the account is null.
    When the IMAP connection fails the SMTP server is not contacted: the
    failing service is imap, the log holds the IMAP part only, and the
    error is the name of the code in [ErrorCodeToTypeMap], or Unknown for
    a code the map does not hold. *)
Theorem runTestAuth_reply (servers : AuthServers) (account : Account) :
  let reply := runTestAuth ErrorCodeToTypeMap servers account in
  ((reply.1 = 0 ∧ error reply.2 = None ∧ reply_account reply.2 = Some account) ∨
   (reply.1 = 1 ∧ is_Some (error reply.2) ∧ reply_account reply.2 = None)) ∧
  (imap_connect servers ≠ ErrorNone →
     reply.1 = 1 ∧
     error_service reply.2 = "imap" ∧
     log reply.2 = "----------IMAP----------" +:+ nl +:+ imap_transcript servers ∧
     error reply.2 =
       Some (default "Unknown" (ErrorCodeToTypeMap !! imap_connect servers))).
Proof.
  intros reply.
  assert (∀ err svc acc,
            let d := done ErrorCodeToTypeMap account err svc acc in
            (d.1 = 0 ∧ error d.2 = None ∧ reply_account d.2 = Some account) ∨
            (d.1 = 1 ∧ is_Some (error d.2) ∧ reply_account d.2 = None)) as Hdone.
  { intros err svc acc. unfold done. case_bool_decide; simpl; [by left|right]. eauto. }
  split.
  - unfold reply, runTestAuth. cbv zeta.
    destruct (bool_decide (imap_connect servers ≠ ErrorNone)); [apply Hdone|].
    destruct (imap_fetchAllFolders servers); [apply Hdone|].
    destruct (bool_decide (smtp_connect servers ≠ ErrorNone)); apply Hdone.
  - intros Hc. unfold reply, runTestAuth. cbv zeta. rewrite bool_decide_true by done.
    unfold done. rewrite bool_decide_false by done. done.
Qed.
End TestAuthReply.

Section FolderList.
Context `{MailUtils} `{Host} `{IMAPSession}.

Lemma reconcileFolder_inr (model : MailModel Folder) known remoteId remotePath remoteRole
    s known' loaded local s' :
  keyedFolders known →
  reconcileFolder model known remoteId remotePath remoteRole s
    = (inr (known', (loaded, local)), s') →
  keyedFolders known' ∧ folderKey local = (remoteId, remotePath, remoteRole).
Proof.
  intros Hk E. unfold reconcileFolder in E.
  destruct (known !! remoteId) as [l|] eqn:El.
  - assert (keyedFolders (delete remoteId known)) as Hk'.
    { intros k l' Hl'. apply lookup_delete_Some in Hl' as [_ Hl']. by apply Hk. }
    pose proof (Hk _ _ El) as Hid.
    destruct (_ || _) eqn:Ech.
    + cbv zeta in E. apply bind_inr in E as ([] & s1 & _ & E).
      apply bind_inr in E as ([] & s2 & _ & E). apply bind_inr in E as ([] & s3 & _ & E).
      unfold ret in E. injection E as <- <- <- <-. split; [done|].
      unfold folderKey; simpl. by rewrite Hid.
    + unfold ret in E. injection E as <- <- <- <-. split; [done|].
      apply orb_false_iff in Ech as [A B].
      apply bool_decide_eq_false in A, B. apply dec_stable in A, B.
      unfold folderKey. by rewrite Hid, A, B.
  - destruct (_ || _) eqn:Ech.
    + cbv zeta in E. apply bind_inr in E as ([] & s1 & _ & E).
      apply bind_inr in E as ([] & s2 & _ & E). apply bind_inr in E as ([] & s3 & _ & E).
      unfold ret in E. injection E as <- <- <- <-. done.
    + unfold ret in E. injection E as <- <- <- <-. split; [done|].
      apply orb_false_iff in Ech as [A B].
      apply bool_decide_eq_false in A, B. apply dec_stable in A, B.
      unfold folderKey. simpl in *. by rewrite <- A, <- B.
Qed.

Lemma findAllMap_keyed (model : MailModel Folder) q s :
  modelId (MailModel:=model) = f_id →
  keyedFolders (list_to_map ((λ row, (modelId (MailModel:=model) row, row)) <$>
                  @selectAll Folder model q s)).
Proof.
  intros Hm k l Hl. apply elem_of_list_to_map_2 in Hl.
  apply list_elem_of_fmap in Hl as (row & [= -> ->] & _). by rewrite Hm.
Qed.

(** The loop over the remote folders. *)
Lemma reconcile_loop_inr (l : list IMAPFolder) :
  ∀ folders labels toSync s folders' labels' toSync' s',
    keyedFolders folders → keyedFolders labels →
    foldM (λ '(allLocalFolders, allLocalLabels, foldersToSync) (remote : IMAPFolder),
        if noSelect remote then ret (allLocalFolders, allLocalLabels, foldersToSync)
        else
          let remoteRole := roleForFolder remote in
          let remoteId := idForFolder (imf_path remote) in
          let remotePath := imf_path remote in
          if IMAPCapabilityGmail storedCapabilities && bool_decide (remoteRole ≠ "all") &&
             bool_decide (remoteRole ≠ "spam") && bool_decide (remoteRole ≠ "trash")
          then
            let* (allLocalLabels, _) :=
              reconcileFolder Label_model allLocalLabels remoteId remotePath remoteRole in
            ret (allLocalFolders, allLocalLabels, foldersToSync)
          else
            let* (allLocalFolders, local) :=
              reconcileFolder Folder_model allLocalFolders remoteId remotePath remoteRole in
            ret (allLocalFolders, allLocalLabels, foldersToSync ++ [local]))
      (folders, labels, toSync) l s = (inr (folders', labels', toSync'), s') →
    (λ x : bool * Folder, folderKey x.2) <$> toSync' =
      ((λ x : bool * Folder, folderKey x.2) <$> toSync) ++
      (remoteFolderKey <$> filter (λ r, syncedAsFolder r = true) l).
Proof.
  induction l as [|remote l IH];
    intros folders labels toSync s folders' labels' toSync' s' Hkf Hkl E.
  - cbn [foldM] in E. unfold ret in E. injection E as <- <- <- <-.
    by rewrite filter_nil, fmap_nil, app_nil_r.
  - cbn [foldM] in E. apply bind_inr in E as ([[folders1 labels1] toSync1] & s1 & E1 & E).
    rewrite filter_cons.
    destruct (noSelect remote) eqn:Ens.
    { unfold ret in E1. injection E1 as <- <- <- <-.
      assert (syncedAsFolder remote = false) as Hs
        by (unfold syncedAsFolder; by rewrite Ens).
      rewrite decide_False by (by rewrite Hs). exact (IH _ _ _ _ _ _ _ _ Hkf Hkl E). }
    cbv zeta in E1.
    destruct (_ && _ && _ && _) eqn:Elabel.
    + apply bind_inr in E1 as ([labels2 [ld local]] & s2 & Er & E1).
      unfold ret in E1. injection E1 as <- <- <- <-.
      apply reconcileFolder_inr in Er as [Hkl' _]; [|done].
      assert (syncedAsFolder remote = false) as Hs
        by (unfold syncedAsFolder; by rewrite Ens, Elabel).
      rewrite decide_False by (by rewrite Hs). exact (IH _ _ _ _ _ _ _ _ Hkf Hkl' E).
    + apply bind_inr in E1 as ([folders2 [ld local]] & s2 & Er & E1).
      unfold ret in E1. injection E1 as <- <- <- <-.
      apply reconcileFolder_inr in Er as [Hkf' Hkey]; [|done].
      assert (syncedAsFolder remote = true) as Hs
        by (unfold syncedAsFolder; by rewrite Ens, Elabel).
      rewrite decide_True by done.
      rewrite (IH _ _ _ _ _ _ _ _ Hkf' Hkl E).
      rewrite fmap_app, fmap_cons, <- app_assoc. simpl. by rewrite Hkey.
Qed.

(** X13. The folder list. When the list cannot be fetched,
    [syncFoldersAndLabels] throws and the store is as before. When it
    returns, the folders to sync are the remote folders that can be
    selected and are not Gmail labels, from the last to the first, each
    with the id, the path and the role of the remote folder. *)
Theorem syncFoldersAndLabels_folders (w : Worker) :
  (∀ err, fetchAllFolders = inl err →
     (syncFoldersAndLabels w).1 = inl (StringExn "syncFolders: An error occurred. ") ∧
     store (syncFoldersAndLabels w).2 = store w) ∧
  (∀ remoteFolders folders w',
     fetchAllFolders = inr remoteFolders →
     syncFoldersAndLabels w = (inr folders, w') →
     (λ x : bool * Folder, folderKey x.2) <$> folders =
       remoteFolderKey <$> filter (λ r, syncedAsFolder r = true) (reverse remoteFolders)).
Proof.
  split.
  - intros err Hf. unfold syncFoldersAndLabels. rewrite Hf. done.
  - intros remoteFolders folders w' Hf E. unfold syncFoldersAndLabels in E.
    rewrite Hf in E. apply bind_inr in E as ([] & w1 & _ & E).
    rewrite onStore_run in E. injection E as E _.
    destruct (transaction _ (store w1)) as [r s'] eqn:Etx. simpl in E. subst r.
    apply transaction_inr in Etx. cbv zeta in Etx.
    apply bind_inr in Etx as (allFolders & s1 & E1 & Etx).
    apply bind_inr in Etx as (allLabels & s2 & E2 & Etx).
    apply bind_inr in Etx as ([[folders' labels'] toSync] & s3 & E3 & Etx).
    apply bind_inr in Etx as ([] & s4 & _ & Etx).
    apply bind_inr in Etx as ([] & s5 & _ & Etx).
    unfold ret in Etx. injection Etx as <- <-.
    unfold findAllMap in E1, E2. injection E1 as <- <-. injection E2 as <- <-.
    apply reconcile_loop_inr in E3.
    + by rewrite E3.
    + by apply (findAllMap_keyed Folder_model).
    + by apply (findAllMap_keyed Label_model).
Qed.
End FolderList.

Section FullScanProgress.
Context `{MailUtils} `{Host} `{IMAPSession}.
Variable account : Account.

Lemma syncFolderUIDRange_clockReads folder range :
  preserves (sameW clockReads) (syncFolderUIDRange account folder range).
Proof. unfold syncFolderUIDRange, send. wframe. Qed.

(** X14. Progress of a full scan on a server with QRESYNC. A step on a
    folder whose stored scan head is [h], with [1 < h < UINT32_MAX], that
    returns, returns true and stores a head [h'] that is at least 1 and
    strictly below [h]: 1, or [h - 1000]. It fetches the UIDs from [h'] up
    to [h], reads the clock once, after the scan, and stores that reading
    as the time of the scan, whatever time was stored before; every other
    key of the local status is as it was. *)
Theorem full_scan_progress (folder : Folder) (remoteStatus : IMAPFolderStatus)
    (w : Worker) (h : Z) (f : Folder) (b : bool) (w' : Worker) :
  IMAPCapabilityQResync storedCapabilities = true →
  localStatus folder !! "fullScanHead" = Some h →
  1 < h < UINT32_MAX →
  syncFolderFullScanIncremental account folder remoteStatus w = (inr (f, b), w') →
  b = true ∧
  ∃ h', localStatus f !! "fullScanHead" = Some h' ∧
        1 ≤ h' < h ∧ (h' = 1 ∨ h' = h - 1000) ∧
        sent w' = sent w ++ [CmdFetchMessagesByUID (f_path folder) (RangeMake h' (h - h'))] ∧
        localStatus f !! "fullScanTime" = Some (clock (clockReads w)) ∧
        clockReads w' = S (clockReads w) ∧
        ∀ k, k ≠ "fullScanHead" → k ≠ "fullScanTime" →
             localStatus f !! k = localStatus folder !! k.
Proof.
  intros Hq Hh Hb E. unfold syncFolderFullScanIncremental in E. cbv zeta in E.
  unfold bind at 1 in E. rewrite startingFullScan_run in E. cbv zeta in E.
  rewrite Hh, Hq in E. cbn [default] in E.
  rewrite (bool_decide_false (scanDue folder _ ∨ _)) in E.
  2:{ unfold scanDue. rewrite Hh, Hq. intros [[?|[? _]]|[= ?]]; try done. lia. }
  rewrite (bool_decide_false (h = 1)) in E by lia.
  rewrite (bool_decide_false (h = UINT32_MAX)) in E by lia. cbn [orb] in E.
  apply bind_inr in E as ([] & w1 & Escan & E).
  match type of Escan with
  | syncFolderUIDRange _ ?fo ?ra _ = _ =>
      pose proof (syncFolderUIDRange_clockReads fo ra w) as Hclock;
      pose proof (syncFolderUIDRange_sent account fo ra w) as Hsent
  end.
  rewrite Escan in Hclock, Hsent. unfold sameW in Hclock. simpl in Hclock, Hsent.
  apply bind_inr in E as (now & w2 & En & E). unfold ret in E. injection E as <- <- <-.
  unfold time_0 in En. injection En as <- <-.
  split; [done|]. simpl.
  eexists. split; [by rewrite lookup_insert_ne, lookup_insert_eq by done|].
  assert (∀ lo, 1 ≤ lo < h → wrap64 (h - lo) = h - lo) as Hwrap.
  { intros lo Hlo. unfold wrap64. apply Z.mod_small. unfold UINT32_MAX in Hb. lia. }
  split_and!.
  - repeat case_bool_decide; lia.
  - repeat case_bool_decide; lia.
  - repeat case_bool_decide; lia.
  - rewrite Hsent. simpl. by rewrite Hwrap by (repeat case_bool_decide; lia).
  - by rewrite lookup_insert_eq, Hclock.
  - by rewrite Hclock.
  - intros k Hk1 Hk2. by rewrite !lookup_insert_ne by done.
Qed.
End FullScanProgress.

Section Tasks.

Lemma foldl_insert_lookup (l : list (string * JSON)) :
  ∀ (init : gmap string JSON) k,
    NoDup l.*1 →
    foldl (λ d it, <[it.1 := it.2]> d) init l !! k =
      match (list_to_map l : gmap string JSON) !! k with
      | Some v => Some v
      | None => init !! k
      end.
Proof.
  induction l as [|[k0 v0] l IH]; intros init k Hnd; [done|].
  apply NoDup_cons in Hnd as [Hk0 Hnd]. simpl. rewrite IH by done.
  simpl in Hk0.
  pose proof (not_elem_of_list_to_map_1 (M:=gmap string) l k0 Hk0) as Hnone.
  destruct (decide (k = k0)) as [->|Hne].
  - by rewrite Hnone, !lookup_insert_eq.
  - by rewrite !lookup_insert_ne by done.
Qed.

(** X15. The data of a new task is the task-specific data laid over the
    object with the class name and the status local: a member of the
    task-specific data replaces the member of the same name, the class
    name and the status included. So a task starts with the status local
    exactly when its data hold no status or hold the string local; and it
    is not to be cancelled when its data hold no [should_cancel]. *)
Theorem newTask_data (base : gmap string JSON) (constructorName : string)
    (taskSpecificData : gmap string JSON) :
  let task := newTask base constructorName taskSpecificData in
  task = taskSpecificData ∪
         <["status" := JString "local"]> (<["__cls" := JString constructorName]> base) ∧
  (Task_status task = (inr "local", task) ↔
     taskSpecificData !! "status" = None ∨
     taskSpecificData !! "status" = Some (JString "local")) ∧
  (taskSpecificData !! "should_cancel" = None → base !! "should_cancel" = None →
     Task_shouldCancel task = (inr false, task)).
Proof.
  intros task.
  assert (task = taskSpecificData ∪
            <["status" := JString "local"]> (<["__cls" := JString constructorName]> base))
    as Ht.
  { apply map_eq. intros k. unfold task, newTask. cbv zeta.
    rewrite foldl_insert_lookup by apply NoDup_fst_map_to_list.
    rewrite list_to_map_to_list, lookup_union.
    generalize (<["status":=JString "local"]>
                  (<["__cls":=JString constructorName]> base) !! k).
    intros o. by destruct (taskSpecificData !! k), o. }
  split; [done|]. split.
  - unfold Task_status, getString.
    assert (task !! "status" =
            match taskSpecificData !! "status" with
            | Some v => Some v
            | None => Some (JString "local")
            end) as Hs.
    { rewrite Ht, lookup_union, lookup_insert_eq.
      by destruct (taskSpecificData !! "status"). }
    rewrite Hs. destruct (taskSpecificData !! "status") as [[| | |s|]|] eqn:E;
      split; try done; try (intros [?|?]; done).
    + intros [= ->]. by right.
    + intros [?|[= ->]]; done.
    + by left.
  - intros Hn Hb. unfold Task_shouldCancel.
    assert (task !! "should_cancel" = None) as ->; [|done].
    rewrite Ht, lookup_union, Hn. rewrite !lookup_insert_ne by done. by rewrite Hb.
Qed.

(** Setters and getters of a task. After [setStatus s] the status
    is [s]; after [setShouldCancel] the task is to be cancelled, and it
    stays so through later [setStatus] and [setError]; [setStatus] and
    [setError] touch no member but their own. *)
Lemma task_setters (task : gmap string JSON) (s : string) (e : JSON) :
  let after (m : M (gmap string JSON) unit) (d : gmap string JSON) := (m d).2 in
  Task_status (after (Task_setStatus s) task)
    = (inr s, after (Task_setStatus s) task) ∧
  Task_shouldCancel (after (Task_setError e) (after (Task_setStatus s)
                       (after Task_setShouldCancel task)))
    = (inr true, after (Task_setError e) (after (Task_setStatus s)
                          (after Task_setShouldCancel task))) ∧
  Task_error (after (Task_setError e) task) = (inr e, after (Task_setError e) task) ∧
  (∀ k, k ≠ "status" → after (Task_setStatus s) task !! k = task !! k) ∧
  (∀ k, k ≠ "error" → after (Task_setError e) task !! k = task !! k).
Proof.
  intros after. unfold after, Task_status, Task_shouldCancel, Task_error, getString,
    Task_setStatus, Task_setError, Task_setShouldCancel, modify. simpl.
  split_and!.
  - by rewrite lookup_insert_eq.
  - by rewrite !lookup_insert_ne, lookup_insert_eq by done.
  - by rewrite lookup_insert_eq.
  - intros k Hk. by rewrite lookup_insert_ne.
  - intros k Hk. by rewrite lookup_insert_ne.
Qed.
End Tasks.

Section ThreadLinks.
Context `{MailUtils} `{Host}.
Variable account : Account.

Lemma reconciledThread_stored mMsg accountId s t :
  keyedThreads s → reconciledThread mMsg accountId s = Some t →
  Threads s !! t_id t = Some t.
Proof.
  intros Hk. unfold reconciledThread. cbv zeta.
  destruct (decide (gmailThreadID mMsg ≠ 0)).
  - intros Hh. apply head_Some_elem_of in Hh.
    apply list_elem_of_filter in Hh as [_ Hin].
    apply list_elem_of_fmap in Hin as ([k t'] & -> & Hin).
    apply elem_of_map_to_list in Hin. simpl. by rewrite (Hk _ _ Hin).
  - destruct (isMessageIDAutoGenerated _); [done|].
    intros Hh. apply head_Some_elem_of in Hh.
    apply list_elem_of_omap in Hh as (r & _ & Hr).
    destruct (decide _); [|done]. by rewrite (Hk _ _ Hr).
Qed.

Lemma linked_alter_message s (m' : Message) i :
  threadsLinked s →
  id m' = i → (∀ m, Messages s !! i = Some m → threadId m' = threadId m) →
  ∀ s', Messages s' = alter (λ _, m') i (Messages s) → Threads s' = Threads s →
  threadsLinked s'.
Proof.
  intros (Hk & Hkt & Hl) Hid Hth s' HM HT. split_and!.
  - intros k m. rewrite HM. destruct (decide (k = i)) as [->|Hne].
    + rewrite lookup_alter_eq. destruct (Messages s !! i); simpl; [|done]. congruence.
    + rewrite lookup_alter_ne by done. apply Hk.
  - intros k t. rewrite HT. apply Hkt.
  - intros k m. rewrite HM, HT. destruct (decide (k = i)) as [->|Hne].
    + rewrite lookup_alter_eq. destruct (Messages s !! i) as [m0|] eqn:E0; simpl; [|done].
      intros [= <-]. rewrite (Hth m0 eq_refl). by eapply Hl.
    + rewrite lookup_alter_ne by done. apply Hl.
Qed.

Lemma updateMessage_linked local remote folder ts s :
  threadsLinked s → Messages s !! id local = Some local →
  threadsLinked (updateMessage local remote folder ts s).2.
Proof.
  intros Hl Hlocal. rewrite updateMessage_cases.
  destruct (decide _); [done|]. destruct (decide _); [done|].
  destruct (sqliteFault _); [done|]. cbv zeta.
  eapply (linked_alter_message s (updatedMessage local remote folder ts) (id local));
    [done|done| |done|done].
  intros m Hm. by assert (m = local) as -> by congruence.
Qed.

Lemma insertFallbackToUpdateMessage_linked mMsg folder ts s :
  threadsLinked s → threadsLinked (insertFallbackToUpdateMessage account mMsg folder ts s).2.
Proof.
  intros Hl. pose proof Hl as (Hk & Hkt & Hlinks).
  rewrite insertFallbackToUpdateMessage_run by done.
  destruct (insertMessage account mMsg folder ts s) as [[e|msg] s'] eqn:E.
  - destruct (decide _); [|done].
    destruct (Messages s !! _) as [local|] eqn:El; [|done].
    apply updateMessage_linked; [done|]. by rewrite (Hk _ _ El).
  - simpl. apply insertMessage_inr in E. cbv zeta in E.
    destruct E as (thread1 & -> & Hid1 & _ & _ & Hnone & HM & HT & Hfresh & _).
    set (msg0 := newMessage mMsg folder ts) in *.
    destruct (reconciledThread mMsg (f_accountId folder) s) as [t|] eqn:Ef;
      simpl in HT, Hid1.
    + pose proof (reconciledThread_stored _ _ _ _ Hkt Ef) as Hst.
      split_and!.
      * intros k m. rewrite HM. destruct (decide (k = id msg0)) as [->|Hne].
        -- rewrite lookup_insert_eq. by intros [= <-].
        -- rewrite lookup_insert_ne by done. apply Hk.
      * intros k t'. rewrite HT. destruct (decide (k = t_id t)) as [->|Hne].
        -- rewrite lookup_alter_eq, Hst. simpl. by intros [= <-].
        -- rewrite lookup_alter_ne by done. apply Hkt.
      * intros k m. rewrite HM, HT. destruct (decide (k = id msg0)) as [->|Hne].
        -- rewrite lookup_insert_eq. intros [= <-]. simpl.
           apply lookup_alter_is_Some. eauto.
        -- rewrite lookup_insert_ne by done. intros Hm.
           apply lookup_alter_is_Some. by eapply Hlinks.
    + set (thread0 := newThread (id msg0) (acc_id account) (subject msg0)
                        (gmailThreadID mMsg)) in *.
      split_and!.
      * intros k m. rewrite HM. destruct (decide (k = id msg0)) as [->|Hne].
        -- rewrite lookup_insert_eq. by intros [= <-].
        -- rewrite lookup_insert_ne by done. apply Hk.
      * intros k t'. rewrite HT. destruct (decide (k = t_id thread0)) as [->|Hne].
        -- rewrite lookup_insert_eq. by intros [= <-].
        -- rewrite lookup_insert_ne by done. apply Hkt.
      * intros k m. rewrite HM, HT. destruct (decide (k = id msg0)) as [->|Hne].
        -- rewrite lookup_insert_eq. intros [= <-]. simpl.
           rewrite lookup_insert_eq. eauto.
        -- rewrite lookup_insert_ne by done. intros Hm.
           destruct (decide (threadId m = t_id thread0)) as [->|Hne'].
           ++ rewrite lookup_insert_eq. eauto.
           ++ rewrite lookup_insert_ne by done. by eapply Hlinks.
Qed.

Lemma unlinkMessagesMatchingQuery_linked query phase s :
  threadsLinked s → threadsLinked (unlinkMessagesMatchingQuery query phase s).2.
Proof.
  intros Hl. pose proof Hl as (Hk & Hkt & Hlinks).
  pose proof (unlinkMessagesMatchingQuery_run query phase s Hk) as Hrun.
  destruct (unlinkMessagesMatchingQuery query phase s) as [[e|[]] s']; simpl.
  - by subst s'.
  - destruct Hrun as (M' & -> & HM').
    assert (∀ i m', M' !! i = Some m' →
              ∃ m, Messages s !! i = Some m ∧ id m' = id m ∧ threadId m' = threadId m)
      as Hrow.
    { intros i m'. rewrite HM'. destruct (Messages s !! i) as [m|]; [|done].
      intros [= <-]. exists m. split; [done|].
      destruct (bool_decide (id m ∈ id <$> selectAll query s)); [|done].
      unfold stamp. by destruct (bool_decide (marked m)). }
    split_and!; simpl.
    + intros i m' Hm'. destruct (Hrow i m' Hm') as (m & Hm & -> & _). by apply Hk.
    + done.
    + intros i m' Hm'. destruct (Hrow i m' Hm') as (m & Hm & _ & ->). by eapply Hlinks.
Qed.

Lemma retrievedMessageBody_threads message parser :
  preserves (same Threads) (retrievedMessageBody message parser).
Proof.
  unfold retrievedMessageBody. cbv zeta.
  apply preserves_bind; [apply _| |intros fs].
  { apply preserves_foldM; [apply _|]. intros acc a. cbv zeta. unfold retrievedFileData.
    frame. }
  apply preserves_transaction; [apply _|].
  apply preserves_bind; [apply _|apply preserves_exec; apply _|intros _].
  apply preserves_bind; [apply _|apply preserves_modify; by intros ?|intros _].
  apply preserves_bind; [apply _|unfold saveFiles; frame|intros _].
  apply preserves_bind; [apply _|apply preserves_find; apply _|intros thread].
  apply preserves_bind; [apply _| |intros _].
  { destruct thread; [|apply preserves_ret; apply _].
    apply preserves_bind; [apply _| |intros ?; apply preserves_ret; apply _].
    eapply preserves_weaken; [|apply appendToThreadSearchContent_frame].
    by intros ? ? (_ & _ & ? & _). }
  frame.
Qed.

Lemma retrievedMessageBody_linked local parser s :
  threadsLinked s → Messages s !! id local = Some local →
  threadsLinked (retrievedMessageBody local parser s).2.
Proof.
  intros Hl Hlocal. pose proof (retrievedMessageBody_threads local parser s) as HT.
  destruct (retrievedMessageBody_rows local parser s) as [HM|(fs & sn & HM)].
  - destruct Hl as (Hk & Hkt & Hlinks). split_and!.
    + intros i m. rewrite HM. apply Hk.
    + intros k t. rewrite HT. apply Hkt.
    + intros i m. rewrite HM, HT. apply Hlinks.
  - eapply (linked_alter_message s (setFiles fs (setSnippet sn local)) (id local));
      [done|done| |exact HM|exact HT].
    intros m Hm. by assert (m = local) as -> by congruence.
Qed.

Lemma deleteLoop_threads phase fuel :
  preserves (same Threads) (deleteLoop account fuel phase).
Proof.
  induction fuel as [|fuel IH]; simpl; [apply preserves_ret; apply _|].
  apply preserves_bind; [apply _| |intros more; destruct more; [done|apply preserves_ret; apply _]].
  unfold deleteChunk. frame.
Qed.

Lemma deletion_linked phase s :
  threadsLinked s → threadsLinked (deleteMessagesStillUnlinkedFromPhase account phase s).2.
Proof.
  intros (Hk & Hkt & Hlinks).
  pose proof (deleteMessagesStillUnlinkedFromPhase_spec account phase s Hk) as Hspec.
  pose proof (deleteLoop_threads phase (S (size (Messages s))) s) as HT.
  unfold deleteMessagesStillUnlinkedFromPhase in *.
  destruct (deleteLoop account (S (size (Messages s))) phase s) as [[e|b] s']; simpl in *.
  - destruct Hspec as (Hk' & Hsub & _). split_and!; [done| |].
    + intros k t. rewrite HT. apply Hkt.
    + intros i m Hm. rewrite HT. eapply Hlinks. by apply Hsub.
  - destruct Hspec as (_ & _ & Hk' & Hsub & _). split_and!; [done| |].
    + intros k t. rewrite HT. apply Hkt.
    + intros i m Hm. rewrite HT. eapply Hlinks. by apply Hsub.
Qed.

(** X16. No dangling thread. When every stored message points to a stored
    thread (the two tables holding their rows under their ids), this is
    still so after any call of the processor (an upsert, an update of a
    stored message, an unlink pass, the body of a stored message) whether
    it returns or throws, and after any sync cycle made of such calls,
    its deletion pass included. *)
Theorem threads_stay_linked (calls : list ProcessorCall) (w : Worker) :
  threadsLinked (store w) →
  (∀ c, threadsLinked (runCall account (unlinkPhase w) c (store w))) ∧
  threadsLinked (store (cycle account calls w)).
Proof.
  intros Hl.
  assert (∀ phase c s, threadsLinked s → threadsLinked (runCall account phase c s)) as Hcall.
  { intros phase c s Hs. destruct c as [mMsg folder ts|lid remote folder ts|query|lid parser];
      simpl.
    - by apply insertFallbackToUpdateMessage_linked.
    - destruct (Messages s !! lid) as [local|] eqn:El; [|done].
      apply updateMessage_linked; [done|]. destruct Hs as (Hk & _). by rewrite (Hk _ _ El).
    - by apply unlinkMessagesMatchingQuery_linked.
    - destruct (Messages s !! lid) as [local|] eqn:El; [|done].
      apply retrievedMessageBody_linked; [done|]. destruct Hs as (Hk & _).
      by rewrite (Hk _ _ El). }
  split; [intros c; by apply Hcall|].
  rewrite cycle_store. apply deletion_linked.
  generalize (store w) Hl. induction calls as [|c calls IH]; intros s Hs; [done|].
  simpl. apply IH. by apply Hcall.
Qed.
End ThreadLinks.

(** * Examples of the further properties *)

Lemma keyed_stampedStore : keyed stampedStore.
Proof.
  apply (@runCall_rows exampleUtils healthyHost exampleAccount 2 (CallUnlink queryA42)
           exampleStore keyed_exampleStore).
Qed.

(** The deletion pass of phase 2 removes m1, unlinked in phase 2. *)
Lemma deletion_pass_removes_exactly_witness :
  ∃ s' removed,
    @deleteMessagesStillUnlinkedFromPhase healthyHost exampleAccount 2 stampedStore
      = (inr true, s') ∧
    Messages s' !! "m1" = None ∧ id <$> removed = ["m1"].
Proof.
  destruct (@deletion_pass_removes_exactly healthyHost exampleAccount 2
              stampedStore keyed_stampedStore (λ _, eq_refl))
    as (s' & removed & E & Hrows & Hd & _).
  exists s', removed. split; [done|]. split; [rewrite Hrows; by vm_compute|].
  assert (filter (λ d : Delta, d_class d = "Message") (deltas s')
            = [messageDelta Unpersist "m1"]) as Hd'.
  { assert ((@deleteMessagesStillUnlinkedFromPhase healthyHost exampleAccount 2
               stampedStore).2 = s') as <- by (by rewrite E).
    by vm_compute. }
  rewrite Hd' in Hd. change (deltas stampedStore) with (@nil Delta) in Hd. simpl in Hd.
  destruct (id <$> removed) as [|i [|i' l]]; try done. simpl in Hd.
  injection Hd as Hid. by rewrite Hid.
Defined.

(** Two references and the Message-Id of m1 get their rows. *)
Lemma upsertThreadReferences_appends_witness :
  let s' := (@upsertThreadReferences healthyHost "t:m1" "1" "m1" ["r1"; "r2"]
               exampleStore).2 in
  length (ThreadReferences s') = 3%nat ∧
  @upsertThreadReferences healthyHost "t:m1" "1" "m1" ["r1"; "r2"] s' = (inr tt, s').
Proof.
  intros s'. split; [by vm_compute|].
  apply (@upsertThreadReferences_appends healthyHost "t:m1" "1" "m1" ["r1"; "r2"]
           exampleStore s').
  by vm_compute.
Defined.

(** The first call for a thread adds row 1 of the search table. *)
Lemma appendToThreadSearchContent_row_witness :
  ∃ thread' s',
    @appendToThreadSearchContent healthyHost exampleThread None (Some "hello world")
      exampleStore = (inr thread', s') ∧
    searchRowId thread' = 1 ∧ length (ThreadSearch s') = 1%nat.
Proof.
  destruct (@appendToThreadSearchContent healthyHost exampleThread None
              (Some "hello world") exampleStore) as [[e|thread'] s'] eqn:E;
    [by vm_compute in E|].
  exists thread', s'. split; [done|].
  destruct (@appendToThreadSearchContent_row healthyHost exampleThread None
              "hello world" exampleStore thread' s' E) as (Hnew & _).
  destruct (Hnew eq_refl) as (row & Hrows & _ & _ & Hid & _).
  rewrite Hid, Hrows. by vm_compute.
Defined.

(** The body of m1 with one attachment. *)
Lemma retrievedMessageBody_stores_witness :
  ∃ msg s',
    @retrievedMessageBody exampleUtils healthyHost exampleMessage exampleParser exampleStore
      = (inr msg, s') ∧
    Messages s' !! "m1" = Some msg ∧ snippet msg = "hello".
Proof.
  destruct (@retrievedMessageBody exampleUtils healthyHost exampleMessage exampleParser
              exampleStore) as [[e|msg] s'] eqn:E; [by vm_compute in E|].
  exists msg, s'. split; [done|].
  destruct (@retrievedMessageBody_stores exampleUtils healthyHost exampleMessage
              exampleParser exampleStore msg s' E) as (Hmsg & _ & _ & _ & _ & _ & HM & _).
  split.
  - rewrite HM. by vm_compute.
  - rewrite Hmsg. by vm_compute.
Defined.

(** m1, stored in folder A, is seen in folder B under UID 7. *)
Lemma upsert_then_lookup_witness :
  ∃ m s',
    @insertFallbackToUpdateMessage exampleUtils healthyHost exampleAccount
      (exampleRemote 7 "m1") folderB 600 exampleStore = (inr m, s') ∧
    Messages s' !! "m1" = Some m ∧ unchangedAttributes m (exampleRemote 7 "m1") folderB.
Proof.
  destruct (@insertFallbackToUpdateMessage exampleUtils healthyHost exampleAccount
              (exampleRemote 7 "m1") folderB 600 exampleStore) as [[e|m] s'] eqn:E;
    [by vm_compute in E|].
  exists m, s'. split; [done|].
  destruct (@upsert_then_lookup exampleUtils healthyHost exampleAccount
              (exampleRemote 7 "m1") folderB 600 exampleStore m s' keyed_exampleStore E)
    as [Hl Hcase].
  split; [exact Hl|].
  change (Messages exampleStore
            !! @idForMessage exampleUtils (f_accountId folderB) (f_path folderB)
                 (exampleRemote 7 "m1")) with (Some exampleMessage) in Hcase.
  simpl in Hcase. apply Hcase.
Defined.

(** The first cycle against [exampleSession] completes in phase 2. *)
Lemma syncNow_completed_witness :
  unlinkPhase afterFirstSync = 2 ∧ keyed (store afterFirstSync).
Proof.
  assert (@syncNow exampleUtils healthyHost exampleSession exampleAccount
            (newWorker emptyStore) = (inr true, afterFirstSync)) as E by (by vm_compute).
  destruct (@syncNow_completed exampleUtils healthyHost exampleSession exampleAccount
              (newWorker emptyStore) true afterFirstSync keyed_emptyStore E)
    as (Hp & Hk & _).
  split; [by rewrite Hp|done].
Defined.

(** A cycle against a server whose folder list cannot be fetched throws,
    and m1 is still stored. *)
Lemma syncNow_thrown_witness :
  let r := @syncNow exampleUtils healthyHost downSession exampleAccount exampleWorker in
  (∃ e, r.1 = inl e) ∧ keyed (store r.2) ∧ is_Some (Messages (store r.2) !! "m1").
Proof.
  intros r.
  assert (∃ e w', @syncNow exampleUtils healthyHost downSession exampleAccount exampleWorker
                  = (inl e, w')) as (e & w' & E) by (vm_compute; eauto).
  destruct (@syncNow_thrown exampleUtils healthyHost downSession exampleAccount
              exampleWorker e w' keyed_exampleStore E) as [Hk Hcase].
  assert (unlinkPhase r.2 = 1) as Hone by (by vm_compute).
  unfold r in *. rewrite E in *. simpl in *.
  split; [by exists e|]. split; [done|].
  destruct Hcase as [[_ Hrows]|Hp].
  - apply Hrows. vm_compute. eauto.
  - exfalso. rewrite Hone in Hp. by vm_compute in Hp.
Defined.

(** The server answers the range 1 to 100 of folder A with no message:
    m1, stored there under UID 42, is unlinked in phase 1. *)
Lemma uid_range_scan_detects_deletions_witness :
  let r := @syncFolderUIDRange exampleUtils healthyHost qresyncSession exampleAccount
             folderA (RangeMake 1 100) exampleWorker in
  r.1 = inr tt ∧
  Messages (store r.2) !! "m1" = Some (setRemoteUID (UINT32_MAX - 1) exampleMessage).
Proof.
  intros r. assert (r.1 = inr tt) as Hr by (by vm_compute). split; [done|].
  destruct (@uid_range_scan_detects_deletions exampleUtils healthyHost qresyncSession
              exampleAccount folderA (RangeMake 1 100) exampleWorker eq_refl
              keyed_exampleStore) as (_ & Hrows & _).
  fold r in Hrows. rewrite (Hrows Hr "m1"). by vm_compute.
Defined.

(** A step of the scan of folder B from head 2000, with the time 900
    stored for the last scan: the folder holds two messages, so the step
    scans down to 1; the clock is read for the first time and gives 1000,
    which replaces the stored time. *)
Lemma full_scan_progress_witness :
  ∃ f w',
    @syncFolderFullScanIncremental exampleUtils healthyHost qresyncSession exampleAccount
      scanningFolderB changedStatus exampleWorker = (inr (f, true), w') ∧
    localStatus scanningFolderB !! "fullScanTime" = Some 900 ∧
    localStatus f !! "fullScanHead" = Some 1 ∧
    localStatus f !! "fullScanTime" = Some 1000 ∧
    sent w' = [CmdFetchMessagesByUID "B" (RangeMake 1 1999)] ∧
    clockReads w' = 1%nat.
Proof.
  destruct (@syncFolderFullScanIncremental exampleUtils healthyHost qresyncSession
              exampleAccount scanningFolderB changedStatus exampleWorker)
    as [[e|[f b]] w'] eqn:E; [by vm_compute in E|].
  assert (1 < 2000 < UINT32_MAX) as Hb by (by vm_compute).
  destruct (@full_scan_progress exampleUtils healthyHost qresyncSession exampleAccount
              scanningFolderB changedStatus exampleWorker 2000 f b w' eq_refl eq_refl Hb E)
    as (-> & h' & Hh' & _ & _ & Hsent & Htime & Hreads & _).
  exists f, w'. split; [done|].
  assert (match (@syncFolderFullScanIncremental exampleUtils healthyHost qresyncSession
                   exampleAccount scanningFolderB changedStatus exampleWorker).1 with
          | inr (f0, _) => localStatus f0 !! "fullScanHead"
          | inl _ => None
          end = Some 1) as Hone by (by vm_compute).
  rewrite E in Hone. simpl in Hone.
  assert (h' = 1) as -> by congruence.
  split_and!; [reflexivity|exact Hone|exact Htime|exact Hsent|exact Hreads].
Defined.

(** A worker that starts from the empty store and sees m1 in folder B
    ends its cycle with m1 stored and linked to a stored thread. *)
Lemma threads_stay_linked_witness :
  let w' := @cycle exampleUtils healthyHost exampleAccount [seenInB] (newWorker emptyStore) in
  threadsLinked (store w') ∧
  ∃ m, Messages (store w') !! "m1" = Some m ∧ is_Some (Threads (store w') !! threadId m).
Proof.
  intros w'.
  assert (threadsLinked (store (newWorker emptyStore))) as Hl.
  { split_and!.
    - exact keyed_emptyStore.
    - intros k t Ht. simpl in Ht. by rewrite lookup_empty in Ht.
    - intros i m Hm. simpl in Hm. by rewrite lookup_empty in Hm. }
  pose proof (proj2 (@threads_stay_linked exampleUtils healthyHost exampleAccount
                       [seenInB] (newWorker emptyStore) Hl)) as Hw.
  split; [exact Hw|].
  assert (is_Some (Messages (store w') !! "m1")) as [m Hm] by (vm_compute; eauto).
  exists m. split; [done|]. destruct Hw as (_ & _ & Hlinks). by eapply Hlinks.
Defined.
